(** * IX.br status bot: the event ingestion and delivery pipeline

    A shallow embedding of the pipeline of [src/rss_monitor.py],
    [src/database.py] and [src/bot.py]: feed fetching with retry, event
    classification, per-recipient delivery reconciliation, the quiet-hours
    gate with its batched flush, and the SQLite ledger underneath.

    Conventions.
    - A Python [str] is the [string] of its UTF-8 bytes.  [in], [split],
      [replace] and [+] agree with Python on every string (UTF-8 is
      self-synchronising), and so do [len] and the slices [s[:n]], which
      count characters by the bytes that start one; [lower], [strip] and
      [int] agree with Python on ASCII text, which is what the keywords,
      the clock strings and the stored settings consist of (for [int]:
      numbers of at most 4300 digits, the limit of CPython, with none of
      the separators FS to US around them).
    - A Python exception is a value of [Exc]; code that can raise returns
      a [Result].
    - Code that talks to the outside (Telegram, HTTP, the clock, SQLite)
      runs in the monad [M]: it threads the [World], may raise, and emits
      the list of outbound calls it made.  What the outside answers is
      read from an [Env] of oracles indexed by the number of interactions
      so far. *)

From Stdlib Require Import ZArith List String Ascii Bool Lia Arith.
From Stdlib Require Import Sorting.Sorted Sorting.Permutation.
From Stdlib Require Import Numbers.DecimalString.
Import ListNotations.

Open Scope string_scope.
Open Scope Z_scope.

(** ** Python values used by the code *)

Module Py.

(** Exceptions the modelled code can raise. *)
Inductive Exc : Type :=
| ValueError (msg : string)
| IndexError (msg : string)
| TypeError (msg : string)
| TelegramError (msg : string)
| RSSFetchError (msg : string).

Inductive Result (A : Type) : Type :=
| Ok (a : A)
| Raise (e : Exc).

Arguments Ok {A} a.
Arguments Raise {A} e.

Definition rbind {A B} (r : Result A) (k : A -> Result B) : Result B :=
  match r with
  | Ok a => k a
  | Raise e => Raise e
  end.

Definition nl : string := String (ascii_of_nat 10) EmptyString.

(** [str(n)] for an [int]. *)
Definition str_of_Z (z : Z) : string := NilZero.string_of_int (Z.to_int z).

Definition str_of_nat (n : nat) : string := str_of_Z (Z.of_nat n).

(** Truthiness of an optional string: [None] and the empty string are
    falsy. *)
Definition truthy_str (o : option string) : bool :=
  match o with
  | Some (String _ _) => true
  | _ => false
  end.

(** [o or d] for an optional string. *)
Definition str_or (o : option string) (d : string) : string :=
  match o with
  | Some (String c s) => String c s
  | _ => d
  end.

(** [d.get(key, default)]: the default only when the key is absent. *)
Definition get_default (o : option string) (d : string) : string :=
  match o with
  | Some s => s
  | None => d
  end.

Definition opt_str_eqb (a b : option string) : bool :=
  match a, b with
  | Some x, Some y => String.eqb x y
  | None, None => true
  | _, _ => false
  end.

(** [str.lower()]: A-Z move up by 32, every other byte stays. *)
Definition lower_char (c : ascii) : ascii :=
  let n := nat_of_ascii c in
  if ((65 <=? n) && (n <=? 90))%nat then ascii_of_nat (n + 32) else c.

Fixpoint lower (s : string) : string :=
  match s with
  | EmptyString => EmptyString
  | String c s' => String (lower_char c) (lower s')
  end.

(** [needle in hay]. *)
Fixpoint str_in (needle hay : string) : bool :=
  if prefix needle hay then true
  else match hay with
       | EmptyString => false
       | String _ hay' => str_in needle hay'
       end.

(** [any(kw in text for kw in kws)]. *)
Definition any_in (kws : list string) (text : string) : bool :=
  existsb (fun kw => str_in kw text) kws.

(** Whitespace as [str.strip()] and [int()] see it (the ASCII part:
    TAB-CR, FS-US and the space). *)
Definition is_space (c : ascii) : bool :=
  let n := nat_of_ascii c in
  (((9 <=? n) && (n <=? 13)) || ((28 <=? n) && (n <=? 32)))%nat.

Fixpoint lstrip (s : string) : string :=
  match s with
  | EmptyString => EmptyString
  | String c s' => if is_space c then lstrip s' else s
  end.

Fixpoint rstrip (s : string) : string :=
  match s with
  | EmptyString => EmptyString
  | String c s' =>
      match rstrip s' with
      | EmptyString => if is_space c then EmptyString else String c EmptyString
      | r => String c r
      end
  end.

Definition strip (s : string) : string := rstrip (lstrip s).

(** [s.split(sep)] for a non-empty separator: [skip] counts the characters
    of a separator still to be passed over, [cur] is the piece being
    read. *)
Fixpoint split_go (sep : string) (s : string) (skip : nat) (cur : string)
  : list string :=
  match s with
  | EmptyString => [cur]
  | String c s' =>
      match skip with
      | S k => split_go sep s' k cur
      | O =>
          if prefix sep s
          then cur :: split_go sep s' (String.length sep - 1) EmptyString
          else split_go sep s' O (cur ++ String c EmptyString)
      end
  end.

Definition split (sep s : string) : list string := split_go sep s O EmptyString.

(** [s.replace(c, r)] for a one-character pattern. *)
Fixpoint replace_char (c : ascii) (r : string) (s : string) : string :=
  match s with
  | EmptyString => EmptyString
  | String d s' =>
      if Ascii.eqb c d then r ++ replace_char c r s'
      else String d (replace_char c r s')
  end.

(** A byte that continues a character of UTF-8: 10xxxxxx. *)
Definition is_continuation (c : ascii) : bool :=
  let n := nat_of_ascii c in ((128 <=? n) && (n <? 192))%nat.

(** [len(s)]: the number of characters, that is of the bytes that start
    one. *)
Fixpoint len (s : string) : nat :=
  match s with
  | EmptyString => O
  | String c s' => if is_continuation c then len s' else S (len s')
  end.

(** [s[:n]]: the first [n] characters, each with the bytes that continue
    it. *)
Fixpoint take (n : nat) (s : string) : string :=
  match s with
  | EmptyString => EmptyString
  | String c s' =>
      if is_continuation c then String c (take n s')
      else
        match n with
        | O => EmptyString
        | S n' => String c (take n' s')
        end
  end.

(** [int(s)]: surrounding whitespace, an optional sign, then decimal
    digits, single underscores allowed between digits. *)
Inductive digit_state : Type := DStart | DDigit | DUnder.

Definition digit_of (c : ascii) : option Z :=
  let n := nat_of_ascii c in
  if ((48 <=? n) && (n <=? 57))%nat then Some (Z.of_nat (n - 48)) else None.

Fixpoint int_digits (s : string) (st : digit_state) (acc : Z) : option Z :=
  match s with
  | EmptyString => match st with DDigit => Some acc | _ => None end
  | String c s' =>
      match digit_of c with
      | Some d => int_digits s' DDigit (10 * acc + d)
      | None =>
          if Ascii.eqb c "_"%char
          then match st with
               | DDigit => int_digits s' DUnder acc
               | _ => None
               end
          else None
      end
  end.

Definition int_opt (s : string) : option Z :=
  match strip s with
  | String "+"%char r => int_digits r DStart 0
  | String "-"%char r => option_map Z.opp (int_digits r DStart 0)
  | t => int_digits t DStart 0
  end.

Definition int (s : string) : Result Z :=
  match int_opt s with
  | Some z => Ok z
  | None => Raise (ValueError "invalid literal for int() with base 10")
  end.

(** [parts[i]] on a list. *)
Definition index {A} (l : list A) (i : nat) : Result A :=
  match nth_error l i with
  | Some a => Ok a
  | None => Raise (IndexError "list index out of range")
  end.

End Py.

Import Py.

(** ** [datetime]: the part of the standard module the code uses *)

Module Datetime.

(** [datetime.time]: a naive time of day. *)
Record time : Type := mk_time {
  hour : Z;
  minute : Z;
  second : Z;
  microsecond : Z
}.

(** [time(h, m)] checks its fields. *)
Definition time_new (h m : Z) : Result time :=
  if negb ((0 <=? h) && (h <=? 23))
  then Raise (ValueError "hour must be in 0..23")
  else if negb ((0 <=? m) && (m <=? 59))
  then Raise (ValueError "minute must be in 0..59")
  else Ok (mk_time h m 0 0).

(** Times compare as the tuples (hour, minute, second, microsecond). *)
Definition then_cmp (c d : comparison) : comparison :=
  match c with
  | Eq => d
  | _ => c
  end.

Definition time_cmp (a b : time) : comparison :=
  then_cmp (hour a ?= hour b)
    (then_cmp (minute a ?= minute b)
       (then_cmp (second a ?= second b) (microsecond a ?= microsecond b))).

Definition time_gt (a b : time) : bool :=
  match time_cmp a b with Gt => true | _ => false end.

Definition time_ge (a b : time) : bool :=
  match time_cmp a b with Lt => false | _ => true end.

Definition time_le (a b : time) : bool :=
  match time_cmp a b with Gt => false | _ => true end.

(** A [datetime]: the wall clock it shows, in microseconds since
    1970-01-01T00:00 on that wall clock, and its UTC offset in seconds
    ([None] for a naive value). *)
Record datetime : Type := mk_datetime {
  wall_us : Z;
  utcoffset : option Z
}.

Definition us_per_second : Z := 1000000.
Definition us_per_hour : Z := 3600 * us_per_second.
Definition us_per_day : Z := 24 * us_per_hour.

(** [d + timedelta(hours=h)] and [d - timedelta(days=n)]. *)
Definition add_hours (d : datetime) (h : Z) : datetime :=
  mk_datetime (wall_us d + h * us_per_hour) (utcoffset d).

Definition sub_days (d : datetime) (n : Z) : datetime :=
  mk_datetime (wall_us d - n * us_per_day) (utcoffset d).

(** [d.time()]. *)
Definition time_of (d : datetime) : time :=
  let r := wall_us d mod us_per_day in
  mk_time (r / us_per_hour)
          ((r / (60 * us_per_second)) mod 60)
          ((r / us_per_second) mod 60)
          (r mod us_per_second).

(** [d.replace(tzinfo=timezone.utc)]. *)
Definition replace_tz_utc (d : datetime) : datetime :=
  mk_datetime (wall_us d) (Some 0).

(** [a >= b]: aware values compare as instants, naive ones as wall clocks,
    and a mixed pair is a [TypeError]. *)
Definition datetime_ge (a b : datetime) : Result bool :=
  match utcoffset a, utcoffset b with
  | Some oa, Some ob =>
      Ok (wall_us b - ob * us_per_second <=? wall_us a - oa * us_per_second)
  | None, None => Ok (wall_us b <=? wall_us a)
  | _, _ =>
      Raise (TypeError "can't compare offset-naive and offset-aware datetimes")
  end.

(** [time.struct_time], as feedparser hands it over. *)
Record struct_time : Type := mk_struct_time {
  tm_year : Z; tm_mon : Z; tm_mday : Z;
  tm_hour : Z; tm_min : Z; tm_sec : Z;
  tm_wday : Z; tm_yday : Z; tm_isdst : Z
}.

End Datetime.

Import Datetime.

(** ** The feed as [feedparser] returns it, and what [httpx] can do *)

Record Entry : Type := mk_entry {
  e_title : option string;
  e_description : option string;
  e_summary : option string;
  e_link : option string;
  e_id : option string;
  e_guid : option string;
  e_published : option string;
  e_updated : option string;
  e_created : option string;
  e_published_parsed : option struct_time;
  e_updated_parsed : option struct_time;
  e_created_parsed : option struct_time
}.

Record Feed : Type := mk_feed {
  bozo : bool;
  bozo_exception : string;
  entries : list Entry
}.

(** The outcome of the GET, [raise_for_status] and [feedparser.parse]. *)
Inductive HttpOutcome : Type :=
| HTTPStatusError (status_code : Z)
| TimeoutException
| RequestError (msg : string)
| OtherException (msg : string)
| Parsed (feed : Feed).

(** ** The outside world *)

(** Library functions and external parties the pipeline calls.  The nat
    argument of an oracle is the number of interactions made so far. *)
Record Env : Type := mk_env {
  (** [hashlib.sha256(s.encode()).hexdigest()] *)
  sha256_hexdigest : string -> string;
  (** [d.strftime("%d/%m/%Y as %H:%M (UTC)")] *)
  strftime_posted : datetime -> string;
  (** [re.sub(pattern, repl, s)] *)
  re_sub : string -> string -> string -> string;
  (** [dateutil.parser.parse(s)]; [None] when it raises *)
  dateutil_parse : string -> option datetime;
  (** [datetime.fromtimestamp(mktime(t), tz=utc)] as microseconds since the
      epoch; [None] when either call raises *)
  mktime_us : struct_time -> option Z;
  (** the UTC wall clock, microseconds since the epoch *)
  clock : nat -> Z;
  (** SQLite's text comparison [stamp < cutoff.isoformat()] of a stored
      [CURRENT_TIMESTAMP] (seconds since the epoch) with the local naive
      [datetime.now() - timedelta(days)] taken at the given clock reading *)
  sqlite_before_cutoff : Z -> Z -> Z -> bool;
  (** [bot.send_message]: the message id, or the text of a TelegramError *)
  tg_send : nat -> Z -> string -> string + Z;
  (** [bot.edit_message_text]: [None], or the text of a TelegramError *)
  tg_edit : nat -> Z -> Z -> string -> option string;
  (** the feed request *)
  http_get : nat -> string -> HttpOutcome;
  (** [config.rss_feed_url] and [config.max_message_age_days] *)
  rss_feed_url : string;
  max_message_age_days : Z
}.

(** ** The tables of [database.py] *)

Record ChatRow : Type := mk_chat_row {
  cr_chat_id : Z;
  cr_chat_type : string;
  cr_chat_title : option string;
  cr_subscribed_at : Z;
  cr_is_active : Z;
  cr_quiet_hours_start : option string;
  cr_quiet_hours_end : option string;
  cr_quiet_hours_tz : option string
}.

Record SentRow : Type := mk_sent_row {
  sm_id : Z;
  sm_message_guid : string;
  sm_chat_id : Z;
  sm_telegram_message_id : option Z;
  sm_content_hash : option string;
  sm_sent_at : Z;
  sm_updated_at : option Z;
  sm_message_title : option string;
  sm_delivery_status : option string
}.

Record PendingRow : Type := mk_pending_row {
  pn_id : Z;
  pn_chat_id : Z;
  pn_message_guid : string;
  pn_message_text : string;
  pn_event_title : option string;
  pn_created_at : Z
}.

(** The state the pipeline owns: the three tables with their AUTOINCREMENT
    counters, the two fields of [RSSMonitor], and the interaction count. *)
Record World : Type := mk_world {
  subscribed_chats : list ChatRow;
  sent_messages : list SentRow;
  sent_messages_seq : Z;
  pending_notifications : list PendingRow;
  pending_notifications_seq : Z;
  _last_successful_fetch : option datetime;
  _consecutive_failures : Z;
  ticks : nat
}.

Definition set_subscribed_chats (v : list ChatRow) (w : World) : World :=
  mk_world v (sent_messages w) (sent_messages_seq w)
           (pending_notifications w) (pending_notifications_seq w)
           (_last_successful_fetch w) (_consecutive_failures w) (ticks w).

Definition set_sent_messages (v : list SentRow) (seq : Z) (w : World) : World :=
  mk_world (subscribed_chats w) v seq
           (pending_notifications w) (pending_notifications_seq w)
           (_last_successful_fetch w) (_consecutive_failures w) (ticks w).

Definition set_pending_notifications (v : list PendingRow) (seq : Z) (w : World)
  : World :=
  mk_world (subscribed_chats w) (sent_messages w) (sent_messages_seq w)
           v seq
           (_last_successful_fetch w) (_consecutive_failures w) (ticks w).

Definition set_monitor (last : option datetime) (failures : Z) (w : World)
  : World :=
  mk_world (subscribed_chats w) (sent_messages w) (sent_messages_seq w)
           (pending_notifications w) (pending_notifications_seq w)
           last failures (ticks w).

Definition tick (w : World) : World :=
  mk_world (subscribed_chats w) (sent_messages w) (sent_messages_seq w)
           (pending_notifications w) (pending_notifications_seq w)
           (_last_successful_fetch w) (_consecutive_failures w) (S (ticks w)).

(** The persistent part of a world: everything but the interaction count. *)
Definition stored (w : World) :=
  (subscribed_chats w, sent_messages w, sent_messages_seq w,
   pending_notifications w, pending_notifications_seq w,
   _last_successful_fetch w, _consecutive_failures w).

(** Outbound calls, with what came back where the code looks at it. *)
Inductive Effect : Type :=
| HttpGet (url : string) (outcome : HttpOutcome)
| Sleep (milliseconds : Z)
| SendMessage (chat_id : Z) (text : string) (disable_web_page_preview : bool)
              (answer : string + Z)
| EditMessageText (chat_id : Z) (message_id : Z) (text : string)
                  (answer : option string)
| DbGetActiveChats
| DbGetSentMessage (message_guid : string) (chat_id : Z)
| DbMarkMessageSent (message_guid : string) (chat_id : Z)
                    (telegram_message_id : Z) (content_hash : string)
| DbUpdateMessageRecord (message_guid : string) (chat_id : Z)
                        (content_hash : string)
| DbUpdateDeliveryStatus (message_guid : string) (chat_id : Z)
                         (status : string)
| DbUnsubscribeChat (chat_id : Z)
| DbAddPendingNotification (chat_id : Z) (message_guid : string)
| DbGetPendingNotifications (chat_id : Z)
| DbClearPendingNotifications (chat_id : Z)
| DbCleanupOldMessages
| DbCleanupCommandLog.

(** ** The monad of the pipeline *)

Definition M (A : Type) : Type := World -> Result A * World * list Effect.

Definition ret {A} (a : A) : M A := fun w => (Ok a, w, []).

Definition raise {A} (e : Exc) : M A := fun w => (Raise e, w, []).

Definition bind {A B} (m : M A) (k : A -> M B) : M B :=
  fun w =>
    match m w with
    | (Ok a, w1, t1) =>
        match k a w1 with
        | (r, w2, t2) => (r, w2, (t1 ++ t2)%list)
        end
    | (Raise e, w1, t1) => (Raise e, w1, t1)
    end.

Declare Scope pipeline_scope.
Delimit Scope pipeline_scope with pipeline.

Notation "x <- c1 ;; c2" := (bind c1 (fun x => c2))
  (at level 61, c1 at next level, right associativity) : pipeline_scope.
Notation "c1 ;; c2" := (bind c1 (fun _ => c2))
  (at level 61, right associativity) : pipeline_scope.

Open Scope pipeline_scope.

(** [try: body except <handled> as e: handler(e)]; an exception the
    handler does not take ([None]) goes on up. *)
Definition try_except {A} (body : M A) (handler : Exc -> option (M A)) : M A :=
  fun w =>
    match body w with
    | (Ok a, w1, t1) => (Ok a, w1, t1)
    | (Raise e, w1, t1) =>
        match handler e with
        | Some h =>
            match h w1 with
            | (r, w2, t2) => (r, w2, (t1 ++ t2)%list)
            end
        | None => (Raise e, w1, t1)
        end
    end.

Definition lift {A} (r : Result A) : M A := fun w => (r, w, []).

Definition emit (e : Effect) : M unit := fun w => (Ok tt, w, [e]).

Definition get_world : M World := fun w => (Ok w, w, []).

Definition modify (f : World -> World) : M unit := fun w => (Ok tt, f w, []).

(** [for x in xs: body(x)]. *)
Fixpoint for_each {A} (xs : list A) (body : A -> M unit) : M unit :=
  match xs with
  | [] => ret tt
  | x :: rest => body x ;; for_each rest body
  end.

(** The three accessors of a run. *)
Definition result_of {A} (x : Result A * World * list Effect) : Result A :=
  fst (fst x).
Definition world_of {A} (x : Result A * World * list Effect) : World :=
  snd (fst x).
Definition effects_of {A} (x : Result A * World * list Effect) : list Effect :=
  snd x.

(** Reading the clock is an interaction. *)
Definition clock_read (env : Env) : M Z :=
  fun w => (Ok (clock env (ticks w)), tick w, []).

(** [datetime.now(timezone.utc)]. *)
Definition now_utc (env : Env) : M datetime :=
  t <- clock_read env ;; ret (mk_datetime t (Some 0)).

(** [await asyncio.sleep(s)], in milliseconds. *)
Definition sleep (milliseconds : Z) : M unit := emit (Sleep milliseconds).

(** ** [database.py] *)

Module Database.

(** What [get_active_chats] returns for a chat. *)
Record ChatInfo : Type := mk_chat_info {
  chat_id : Z;
  chat_type : string;
  quiet_hours_start : option string;
  quiet_hours_end : option string;
  quiet_hours_tz : option string
}.

(** What [get_sent_message] returns for a row. *)
Record SentInfo : Type := mk_sent_info {
  telegram_message_id : option Z;
  content_hash : option string;
  message_title : option string;
  delivery_status : option string
}.

(** The key of the UNIQUE(message_guid, chat_id) constraints. *)
Definition key_eqb (g1 : string) (c1 : Z) (g2 : string) (c2 : Z) : bool :=
  String.eqb g1 g2 && (c1 =? c2).

Definition sent_has_key (g : string) (c : Z) (r : SentRow) : bool :=
  key_eqb (sm_message_guid r) (sm_chat_id r) g c.

Definition pending_has_key (g : string) (c : Z) (r : PendingRow) : bool :=
  key_eqb (pn_message_guid r) (pn_chat_id r) g c.

(** ORDER BY created_at ASC, rows with equal stamps in table order. *)
Fixpoint insert_by_created_at (p : PendingRow) (l : list PendingRow)
  : list PendingRow :=
  match l with
  | [] => [p]
  | q :: l' =>
      if pn_created_at p <=? pn_created_at q then p :: l
      else q :: insert_by_created_at p l'
  end.

Definition order_by_created_at (l : list PendingRow) : list PendingRow :=
  fold_right insert_by_created_at [] l.

Section WithEnv.

Variable env : Env.

(** SQLite's CURRENT_TIMESTAMP: the clock, to the second. *)
Definition current_timestamp : M Z :=
  t <- clock_read env ;; ret (t / us_per_second).

Definition chat_is_active (chat : Z) (r : ChatRow) : bool :=
  (cr_chat_id r =? chat) && (cr_is_active r =? 1).

Definition deactivate (r : ChatRow) : ChatRow :=
  mk_chat_row (cr_chat_id r) (cr_chat_type r) (cr_chat_title r)
              (cr_subscribed_at r) 0
              (cr_quiet_hours_start r) (cr_quiet_hours_end r)
              (cr_quiet_hours_tz r).

Definition unsubscribe_chat (chat : Z) : M bool :=
  emit (DbUnsubscribeChat chat) ;;
  w <- get_world ;;
  let rowcount := List.length (filter (chat_is_active chat) (subscribed_chats w)) in
  modify (set_subscribed_chats
            (map (fun r => if chat_is_active chat r then deactivate r else r)
                 (subscribed_chats w))) ;;
  ret (0 <? rowcount)%nat.

Definition get_active_chats : M (list ChatInfo) :=
  emit DbGetActiveChats ;;
  w <- get_world ;;
  ret (map (fun r => mk_chat_info (cr_chat_id r) (cr_chat_type r)
                       (cr_quiet_hours_start r) (cr_quiet_hours_end r)
                       (cr_quiet_hours_tz r))
           (filter (fun r => cr_is_active r =? 1) (subscribed_chats w))).

Definition get_sent_message (message_guid : string) (chat : Z)
  : M (option SentInfo) :=
  emit (DbGetSentMessage message_guid chat) ;;
  w <- get_world ;;
  ret (option_map
         (fun r => mk_sent_info (sm_telegram_message_id r) (sm_content_hash r)
                     (sm_message_title r) (sm_delivery_status r))
         (find (sent_has_key message_guid chat) (sent_messages w))).

(** INSERT OR REPLACE: the row in conflict on the key goes, the new row
    gets a fresh id, the current stamp and no [updated_at]. *)
Definition mark_message_sent (message_guid : string) (chat : Z)
    (telegram_msg_id : Z) (hash : string) (title : option string)
    (status : string) : M unit :=
  emit (DbMarkMessageSent message_guid chat telegram_msg_id hash) ;;
  stamp <- current_timestamp ;;
  modify (fun w =>
    let id := sent_messages_seq w + 1 in
    set_sent_messages
      (filter (fun r => negb (sent_has_key message_guid chat r))
              (sent_messages w)
       ++ [mk_sent_row id message_guid chat (Some telegram_msg_id)
             (Some hash) stamp None title (Some status)])%list
      id w).

Definition update_message_record (message_guid : string) (chat : Z)
    (hash : string) (title : option string) : M unit :=
  emit (DbUpdateMessageRecord message_guid chat hash) ;;
  stamp <- current_timestamp ;;
  modify (fun w =>
    set_sent_messages
      (map (fun r =>
              if sent_has_key message_guid chat r
              then mk_sent_row (sm_id r) (sm_message_guid r) (sm_chat_id r)
                     (sm_telegram_message_id r) (Some hash) (sm_sent_at r)
                     (Some stamp) title (sm_delivery_status r)
              else r)
           (sent_messages w))
      (sent_messages_seq w) w).

Definition update_delivery_status (message_guid : string) (chat : Z)
    (status : string) : M unit :=
  emit (DbUpdateDeliveryStatus message_guid chat status) ;;
  modify (fun w =>
    set_sent_messages
      (map (fun r =>
              if sent_has_key message_guid chat r
              then mk_sent_row (sm_id r) (sm_message_guid r) (sm_chat_id r)
                     (sm_telegram_message_id r) (sm_content_hash r)
                     (sm_sent_at r) (sm_updated_at r) (sm_message_title r)
                     (Some status)
              else r)
           (sent_messages w))
      (sent_messages_seq w) w).

Definition cleanup_old_messages : M nat :=
  emit DbCleanupOldMessages ;;
  let days := max_message_age_days env * 2 in
  now <- clock_read env ;;
  w <- get_world ;;
  let old r := sqlite_before_cutoff env (sm_sent_at r) now days in
  modify (fun w =>
    set_sent_messages (filter (fun r => negb (old r)) (sent_messages w))
                      (sent_messages_seq w) w) ;;
  ret (List.length (filter old (sent_messages w))).

(** The command log is the rate limiter's table; the pipeline only asks
    for its sweep. *)
Definition cleanup_command_log : M unit :=
  emit DbCleanupCommandLog ;;
  _ <- clock_read env ;;
  ret tt.

(** INSERT OR IGNORE: no row is written when the key is taken.  The
    AUTOINCREMENT counter moves on either way: SQLite draws the id before
    it checks the key. *)
Definition add_pending_notification (chat : Z) (message_guid : string)
    (message_text : string) (event_title : option string) : M unit :=
  emit (DbAddPendingNotification chat message_guid) ;;
  stamp <- current_timestamp ;;
  modify (fun w =>
    let id := pending_notifications_seq w + 1 in
    if existsb (pending_has_key message_guid chat) (pending_notifications w)
    then set_pending_notifications (pending_notifications w) id w
    else
      set_pending_notifications
        (pending_notifications w
         ++ [mk_pending_row id chat message_guid message_text event_title
               stamp])%list
        id w).

Definition pending_of (chat : Z) (rows : list PendingRow) : list PendingRow :=
  order_by_created_at (filter (fun r => pn_chat_id r =? chat) rows).

Definition get_pending_notifications (chat : Z) : M (list PendingRow) :=
  emit (DbGetPendingNotifications chat) ;;
  w <- get_world ;;
  ret (pending_of chat (pending_notifications w)).

Definition clear_pending_notifications (chat : Z) : M nat :=
  emit (DbClearPendingNotifications chat) ;;
  w <- get_world ;;
  modify (fun w =>
    set_pending_notifications
      (filter (fun r => negb (pn_chat_id r =? chat)) (pending_notifications w))
      (pending_notifications_seq w) w) ;;
  ret (List.length (filter (fun r => pn_chat_id r =? chat)
                           (pending_notifications w))).

End WithEnv.

End Database.

Import Database.

Notation "'let!' x ':=' c1 'in' c2" := (rbind c1 (fun x => c2))
  (at level 61, x name, c1 at next level, right associativity).

(** ** [rss_monitor.py] *)

Module RSSMonitor.

Definition HTTP_TIMEOUT : Z := 30.

Inductive EventType : Type := MAINTENANCE | INCIDENT | RESOLVED | UNKNOWN.

Definition value (t : EventType) : string :=
  match t with
  | MAINTENANCE => "maintenance"
  | INCIDENT => "incident"
  | RESOLVED => "resolved"
  | UNKNOWN => "unknown"
  end.

Record StatusEvent : Type := mk_status_event {
  guid : string;
  title : string;
  description : string;
  link : string;
  published : datetime;
  event_type : EventType;
  location : option string;
  is_resolved : bool
}.

Definition resolved_keywords : list string :=
  ["resolvid"; "solved"; "restored"; "restabelecid"; "normalizado";
   "normalized"].

Definition maintenance_keywords : list string :=
  ["manutencao"; "maintenance"; "janela"; "window"; "programad"; "scheduled"].

Definition incident_keywords : list string :=
  ["indisponibilidade"; "unavailability"; "problema"; "problem"; "incident";
   "incidente"; "falha"; "failure"; "rompimento"; "disruption"].

Definition _classify_event (title description : string) : EventType * bool :=
  let text := lower (title ++ " " ++ description) in
  let is_resolved := any_in resolved_keywords text in
  if is_resolved then (RESOLVED, true)
  else if any_in maintenance_keywords text then (MAINTENANCE, false)
  else if any_in incident_keywords text then (INCIDENT, false)
  else (UNKNOWN, false).

Definition location_separators : list string := [" - "; " – "; " — "].

Definition _extract_location (title : string) : option string :=
  if str_in "IX.br" title then
    let parts := split "IX.br" title in
    if (1 <? List.length parts)%nat then
      let location := strip (nth 1 parts "") in
      let location :=
        fold_left
          (fun location sep =>
             if str_in sep location
             then strip (hd "" (split sep location))
             else location)
          location_separators location in
      if truthy_str (Some location) then Some location else None
    else None
  else None.

Definition _escape_html (text : string) : string :=
  replace_char (ascii_of_nat 34) "&quot;"
    (replace_char ">"%char "&gt;"
       (replace_char "<"%char "&lt;"
          (replace_char "&"%char "&amp;" text))).

Definition type_label (t : EventType) : string :=
  match t with
  | MAINTENANCE => "[MANUTENCAO]"
  | INCIDENT => "[INCIDENTE]"
  | RESOLVED => "[RESOLVIDO]"
  | UNKNOWN => "[AVISO]"
  end.

Section WithEnv.

Variable env : Env.

Definition get_content_hash (self : StatusEvent) : string :=
  let content :=
    title self ++ "|" ++ description self ++ "|" ++ value (event_type self) in
  take 32 (sha256_hexdigest env content).

Definition to_telegram_message (self : StatusEvent) : string :=
  let lines :=
    ["<b>" ++ type_label (event_type self) ++ "</b>"; "";
     "<b>" ++ _escape_html (title self) ++ "</b>"; ""] in
  let lines :=
    if truthy_str (location self)
    then List.app lines
           ["<b>Local:</b> " ++ _escape_html (str_or (location self) ""); ""]
    else lines in
  let lines :=
    if truthy_str (Some (description self))
    then
      let desc := description self in
      let desc :=
        if (800 <? len desc)%nat then take 800 desc ++ "..."
        else desc in
      List.app lines [_escape_html desc; ""]
    else lines in
  let lines :=
    if truthy_str (Some (link self))
    then List.app lines ["<b>Detalhes:</b> " ++ link self; ""]
    else lines in
  let date_str := strftime_posted env (published self) in
  let lines := List.app lines ["<i>Postado em: " ++ date_str ++ "</i>"] in
  String.concat nl lines.

Definition _generate_guid (title description : string) : string :=
  let content := title ++ "|" ++ description in
  take 16 (sha256_hexdigest env content).

Definition description_dividers : list string :=
  ["+++++"; "-----"; "====="; "*****"].

Definition _clean_description (description : string) : string :=
  let text := re_sub env "<[^>]+>" "" description in
  let text := strip (re_sub env "\s+" " " text) in
  fold_left
    (fun text sep =>
       if str_in sep text then strip (hd "" (split sep text)) else text)
    description_dividers text.

(** [a or b or c] on the three date strings. *)
Definition first_truthy (a b c : option string) : option string :=
  if truthy_str a then a else if truthy_str b then b else c.

(** The loop over the three [*_parsed] fields: the first present one that
    converts wins. *)
Fixpoint first_converted (fields : list (option struct_time)) : option Z :=
  match fields with
  | [] => None
  | None :: rest => first_converted rest
  | Some t :: rest =>
      match mktime_us env t with
      | Some z => Some z
      | None => first_converted rest
      end
  end.

Definition _parse_date (entry : Entry) : M datetime :=
  let date_str :=
    first_truthy (e_published entry) (e_updated entry) (e_created entry) in
  let from_text :=
    if truthy_str date_str
    then match dateutil_parse env (str_or date_str "") with
         | Some parsed =>
             Some (match utcoffset parsed with
                   | None => replace_tz_utc parsed
                   | Some _ => parsed
                   end)
         | None => None
         end
    else None in
  match from_text with
  | Some parsed => ret parsed
  | None =>
      match first_converted [e_published_parsed entry; e_updated_parsed entry;
                             e_created_parsed entry] with
      | Some z => ret (mk_datetime z (Some 0))
      | None => now_utc env
      end
  end.

(** The [try] of [_parse_entry] has nothing to catch here: every step of
    the body is total in this model. *)
Definition _parse_entry (entry : Entry) : M (option StatusEvent) :=
  let title := get_default (e_title entry) "Sem titulo" in
  let description :=
    match e_description entry with
    | Some d => d
    | None => get_default (e_summary entry) ""
    end in
  let link := get_default (e_link entry) "" in
  let guid :=
    match e_id entry with
    | Some g => g
    | None => get_default (e_guid entry) ""
    end in
  let guid :=
    if truthy_str (Some guid) then guid
    else _generate_guid title description in
  published <- _parse_date entry ;;
  let '(event_type, is_resolved) := _classify_event title description in
  let location := _extract_location title in
  ret (Some (mk_status_event guid title (_clean_description description) link
               published event_type location is_resolved)).

Definition _fetch_feed_async : M Feed :=
  w <- get_world ;;
  let outcome := http_get env (ticks w) (rss_feed_url env) in
  modify tick ;;
  emit (HttpGet (rss_feed_url env) outcome) ;;
  match outcome with
  | Parsed feed =>
      if bozo feed && (List.length (entries feed) =? 0)%nat
      then raise (RSSFetchError ("Feed parsing error: " ++ bozo_exception feed))
      else ret feed
  | HTTPStatusError status_code =>
      raise (RSSFetchError ("HTTP error " ++ str_of_Z status_code))
  | TimeoutException =>
      raise (RSSFetchError ("Timeout after " ++ str_of_Z HTTP_TIMEOUT ++ "s"))
  | RequestError e => raise (RSSFetchError ("Request failed: " ++ e))
  | OtherException e => raise (RSSFetchError ("Failed to fetch RSS feed: " ++ e))
  end.

(** The loop over [feed.entries], [events] being the list built so far. *)
Fixpoint collect_events (cutoff_date : datetime) (feed_entries : list Entry)
    (events : list StatusEvent) : M (list StatusEvent) :=
  match feed_entries with
  | [] => ret events
  | entry :: rest =>
      event <- _parse_entry entry ;;
      match event with
      | Some ev =>
          fresh <- lift (datetime_ge (published ev) cutoff_date) ;;
          if fresh then collect_events cutoff_date rest (events ++ [ev])%list
          else collect_events cutoff_date rest events
      | None => collect_events cutoff_date rest events
      end
  end.

(** One pass of the body of [for attempt in range(3)]: [Some events] when
    the [try] returned, [None] when the handler ran. *)
Definition fetch_attempt (attempt : Z) : M (option (list StatusEvent)) :=
  try_except
    (feed <- _fetch_feed_async ;;
     modify (fun w => set_monitor (_last_successful_fetch w) 0 w) ;;
     now <- now_utc env ;;
     modify (fun w => set_monitor (Some now) (_consecutive_failures w) w) ;;
     now' <- now_utc env ;;
     let cutoff_date := sub_days now' (max_message_age_days env) in
     events <- collect_events cutoff_date (entries feed) [] ;;
     ret (Some events))
    (fun e =>
       match e with
       | RSSFetchError _ =>
           Some (let wait_time := 4 * 2 ^ attempt in
                 (if attempt <? 2 then sleep (wait_time * 1000) else ret tt) ;;
                 ret None)
       | _ => None
       end).

Fixpoint fetch_loop (attempts : list Z) : M (option (list StatusEvent)) :=
  match attempts with
  | [] => ret None
  | attempt :: rest =>
      r <- fetch_attempt attempt ;;
      match r with
      | Some events => ret (Some events)
      | None => fetch_loop rest
      end
  end.

Definition fetch_events : M (list StatusEvent) :=
  r <- fetch_loop [0; 1; 2] ;;
  match r with
  | Some events => ret events
  | None =>
      modify (fun w => set_monitor (_last_successful_fetch w)
                                   (_consecutive_failures w + 1) w) ;;
      ret []
  end.

End WithEnv.

End RSSMonitor.

Import RSSMonitor.

(** ** [bot.py] *)

Module Bot.

Definition TIMEZONES : list (string * Z) :=
  [("UTC", 0); ("BRT", -3); ("AMT", -4); ("ACT", -5); ("FNT", -2)].

(** [d.get(key, default)] on a dict given by its items. *)
Fixpoint dict_get (d : list (string * Z)) (key : string) (default : Z) : Z :=
  match d with
  | [] => default
  | (k, v) :: rest => if String.eqb k key then v else dict_get rest key default
  end.

(** The body of [_is_quiet_hours] below its first [if], at a given reading
    [now_utc] of [datetime.now(tz.utc)]. *)
Definition _is_quiet_hours_at (now_utc : datetime)
    (quiet_start quiet_end : string) (quiet_tz : option string) : Result bool :=
  let tz_offset := dict_get TIMEZONES (str_or quiet_tz "UTC") 0 in
  let offset_delta := add_hours now_utc tz_offset in
  let now := time_of offset_delta in
  let start_parts := split ":" quiet_start in
  let end_parts := split ":" quiet_end in
  let! sh0 := index start_parts 0 in
  let! sh := int sh0 in
  let! sm0 := index start_parts 1 in
  let! sm := int sm0 in
  let! start := time_new sh sm in
  let! eh0 := index end_parts 0 in
  let! eh := int eh0 in
  let! em0 := index end_parts 1 in
  let! em := int em0 in
  let! end_ := time_new eh em in
  if time_gt start end_
  then Ok (time_ge now start || time_le now end_)
  else Ok (time_le start now && time_le now end_).

Definition permanent_errors : list string :=
  ["blocked"; "deactivated"; "not found"; "chat not found"; "kicked";
   "forbidden"].

Definition updated_marker : string := nl ++ nl ++ "<i>[Mensagem atualizada]</i>".

(** The summary of a batch, built as the code builds it. *)
Definition summary_title (p : PendingRow) : string :=
  let title := str_or (pn_event_title p) "Evento" in
  if (50 <? len title)%nat then take 50 title ++ "..." else title.

Definition build_summary (pending : list PendingRow) : string :=
  let summary :=
    "<b>Resumo: " ++ str_of_nat (List.length pending)
      ++ " notificacoes durante silencio</b>" ++ nl ++ nl in
  let summary :=
    fold_left (fun summary p => summary ++ "- " ++ summary_title p ++ nl)
              (firstn 5 pending) summary in
  let summary :=
    if (5 <? List.length pending)%nat
    then summary ++ nl ++ "... e mais " ++ str_of_nat (List.length pending - 5)
           ++ " eventos."
    else summary in
  summary ++ nl ++ nl ++ "Veja detalhes em https://status.ix.br".

Section WithEnv.

Variable env : Env.

Definition _is_quiet_hours (quiet_start quiet_end quiet_tz : option string)
  : M bool :=
  if negb (truthy_str quiet_start) || negb (truthy_str quiet_end)
  then ret false
  else
    now_utc <- now_utc env ;;
    lift (_is_quiet_hours_at now_utc (str_or quiet_start "")
            (str_or quiet_end "") quiet_tz).

(** [self.app.bot.send_message] and [edit_message_text]. *)
Definition send_message (chat : Z) (text : string)
    (disable_web_page_preview : bool) : M Z :=
  w <- get_world ;;
  let answer := tg_send env (ticks w) chat text in
  modify tick ;;
  emit (SendMessage chat text disable_web_page_preview answer) ;;
  match answer with
  | inr message_id => ret message_id
  | inl msg => raise (TelegramError msg)
  end.

Definition edit_message_text (chat : Z) (message_id : Z) (text : string)
  : M unit :=
  w <- get_world ;;
  let answer := tg_edit env (ticks w) chat message_id text in
  modify tick ;;
  emit (EditMessageText chat message_id text answer) ;;
  match answer with
  | None => ret tt
  | Some msg => raise (TelegramError msg)
  end.

Definition _send_message (chat : Z) (event : StatusEvent)
    (message_text : string) (hash : string) : M bool :=
  try_except
    (sent_message <- send_message chat message_text false ;;
     mark_message_sent env (guid event) chat sent_message hash
                       (Some (title event)) "sent" ;;
     sleep 100 ;;
     ret true)
    (fun e =>
       match e with
       | TelegramError msg =>
           Some (let error_str := lower msg in
                 (if any_in permanent_errors error_str
                  then _ <- unsubscribe_chat chat ;; ret tt
                  else ret tt) ;;
                 ret false)
       | _ => None
       end).

(** The body of the loop of [_send_event_to_chats] for one chat. *)
Definition _send_event_to_chat (event : StatusEvent) (message_text : string)
    (current_hash : string) (chat_info : ChatInfo) : M unit :=
  let chat := chat_id chat_info in
  quiet <- _is_quiet_hours (quiet_hours_start chat_info)
                           (quiet_hours_end chat_info)
                           (quiet_hours_tz chat_info) ;;
  if quiet
  then add_pending_notification env chat (guid event) message_text
                                (Some (title event))
  else
    existing <- get_sent_message (guid event) chat ;;
    match existing with
    | Some row =>
        if opt_str_eqb (content_hash row) (Some current_hash) then ret tt
        else
          match telegram_message_id row with
          | Some telegram_msg_id =>
              if telegram_msg_id =? 0
              then _ <- _send_message chat event message_text current_hash ;;
                   ret tt
              else
                edited <-
                  try_except
                    (let updated_text := message_text ++ updated_marker in
                     edit_message_text chat telegram_msg_id updated_text ;;
                     update_message_record env (guid event) chat current_hash
                                           (Some (title event)) ;;
                     sleep 100 ;;
                     ret true)
                    (fun e =>
                       match e with
                       | TelegramError _ => Some (ret false)
                       | _ => None
                       end) ;;
                if edited then ret tt
                else _ <- _send_message chat event message_text current_hash ;;
                     ret tt
          | None =>
              _ <- _send_message chat event message_text current_hash ;; ret tt
          end
    | None => _ <- _send_message chat event message_text current_hash ;; ret tt
    end.

Definition _send_event_to_chats (event : StatusEvent) (chats : list ChatInfo)
  : M unit :=
  let message_text := to_telegram_message env event in
  let current_hash := get_content_hash env event in
  for_each chats (_send_event_to_chat event message_text current_hash).

(** The body of the loop of [_process_pending_notifications] for one
    chat. *)
Definition _process_pending_of_chat (chat_info : ChatInfo) : M unit :=
  let chat := chat_id chat_info in
  quiet <- _is_quiet_hours (quiet_hours_start chat_info)
                           (quiet_hours_end chat_info)
                           (quiet_hours_tz chat_info) ;;
  if quiet then ret tt
  else
    pending <- get_pending_notifications chat ;;
    match pending with
    | [] => ret tt
    | first :: _ =>
        sent <-
          try_except
            ((if (List.length pending =? 1)%nat
              then
                sent_msg <- send_message chat (pn_message_text first) false ;;
                mark_message_sent env (pn_message_guid first) chat sent_msg
                                  "pending_delivered" (pn_event_title first)
                                  "sent"
              else
                let summary := build_summary pending in
                _ <- send_message chat summary true ;;
                for_each pending
                  (fun p =>
                     mark_message_sent env (pn_message_guid p) chat 0
                                       "pending_summary" (pn_event_title p)
                                       "sent")) ;;
             ret true)
            (fun e =>
               match e with
               | TelegramError _ => Some (ret false)
               | _ => None
               end) ;;
        if sent
        then _ <- clear_pending_notifications chat ;; ret tt
        else ret tt
    end.

Definition _process_pending_notifications (chats : list ChatInfo) : M unit :=
  for_each chats _process_pending_of_chat.

(** The [try] block of [check_rss_updates]. *)
Definition check_rss_updates_try : M unit :=
  events <- fetch_events env ;;
  match events with
  | [] => ret tt
  | _ :: _ =>
      active_chats <- get_active_chats ;;
      match active_chats with
      | [] => ret tt
      | _ :: _ =>
          for_each events
            (fun event => _send_event_to_chats event active_chats) ;;
          _process_pending_notifications active_chats ;;
          _ <- cleanup_old_messages env ;;
          cleanup_command_log env
      end
  end.

(** [except Exception]: logged, the cycle ends. *)
Definition check_rss_updates : M unit :=
  try_except check_rss_updates_try (fun _ => Some (ret tt)).

End WithEnv.

End Bot.

Import Bot.

(** * Vocabulary of the statements *)

(** [kw] occurs in [text]: the meaning of Python's [kw in text]. *)
Definition occurs (kw text : string) : Prop :=
  exists pre post, text = pre ++ kw ++ post.

(** Some keyword of [kws] occurs in [text]. *)
Definition any_occurs (kws : list string) (text : string) : Prop :=
  exists kw, In kw kws /\ occurs kw text.

(** The string [s] reads, for the code, as the time of day [h]:[m]. *)
Definition reads_as_time (s : string) (h m : Z) : Prop :=
  (let! a := index (split ":" s) 0 in int a) = Ok h
  /\ (let! b := index (split ":" s) 1 in int b) = Ok m
  /\ 0 <= h <= 23 /\ 0 <= m <= 59.

(** One character of a text in UTF-8: a byte that starts a character and
    the bytes that continue it. *)
Definition one_character (x : string) : Prop :=
  exists c rest,
    x = String c rest
    /\ is_continuation c = false
    /\ forall pre d post, rest = pre ++ String d post -> is_continuation d = true.

(** [s] is a text of [n] characters. *)
Definition characters (n : nat) (s : string) : Prop :=
  exists xs,
    List.length xs = n /\ Forall one_character xs
    /\ s = fold_right append "" xs.

(** Microseconds since midnight of [h]:[m], and of the clock reading [t]
    (microseconds since the epoch, UTC) moved to the zone named [tz]. *)
Definition hm_us (h m : Z) : Z := (h * 60 + m) * 60 * us_per_second.

Definition local_us (t : Z) (tz : option string) : Z :=
  (t + dict_get TIMEZONES (str_or tz "UTC") 0 * us_per_hour) mod us_per_day.

(** The window rule on microseconds since midnight. *)
Definition in_window (start end_ now : Z) : bool :=
  if end_ <? start
  then (start <=? now) || (now <=? end_)
  else (start <=? now) && (now <=? end_).

(** A reading of the UTC clock at [h]:[m] on day [day] of the epoch. *)
Definition utc_at (day h m : Z) : datetime :=
  mk_datetime (day * us_per_day + hm_us h m) (Some 0).

(** ** A small concrete world, used to instantiate the statements *)

Module Demo.

Definition entry : Entry :=
  mk_entry (Some "IX.br Sao Paulo - Manutencao programada")
           (Some "janela de manutencao das 2h as 4h") None
           (Some "https://status.ix.br/1") (Some "guid-1") None
           None None None None None None.

(** Noon UTC on day 20000 of the epoch, one microsecond per interaction;
    Telegram refuses chat 2 because the bot was blocked there and otherwise
    answers with message id 100 + the interaction count; the feed has one
    entry. *)
Definition env : Env :=
  mk_env (fun s => "0123456789abcdef0123456789abcdef0123456789abcdef" ++ s)
         (fun _ => "04/10/2024 as 12:00 (UTC)")
         (fun _ _ s => s)
         (fun _ => None)
         (fun _ => None)
         (fun n => 20000 * us_per_day + 12 * us_per_hour + Z.of_nat n)
         (fun _ _ _ => false)
         (fun n chat _ =>
            if chat =? 2 then inl "Forbidden: bot was blocked by the user"
            else inr (100 + Z.of_nat n))
         (fun _ _ _ _ => None)
         (fun _ _ => Parsed (mk_feed false "" [entry]))
         "https://status.ix.br/rss"
         7.

(** The same, with the feed unreachable. *)
Definition env_feed_down : Env :=
  mk_env (sha256_hexdigest env) (strftime_posted env) (re_sub env)
         (dateutil_parse env) (mktime_us env) (clock env)
         (sqlite_before_cutoff env) (tg_send env) (tg_edit env)
         (fun _ _ => HTTPStatusError 503)
         (rss_feed_url env) (max_message_age_days env).

(** The same, with a feed that has no entry. *)
Definition env_no_news : Env :=
  mk_env (sha256_hexdigest env) (strftime_posted env) (re_sub env)
         (dateutil_parse env) (mktime_us env) (clock env)
         (sqlite_before_cutoff env) (tg_send env) (tg_edit env)
         (fun _ _ => Parsed (mk_feed false "" []))
         (rss_feed_url env) (max_message_age_days env).

(** The same, with Telegram refusing every edit. *)
Definition env_no_edit : Env :=
  mk_env (sha256_hexdigest env) (strftime_posted env) (re_sub env)
         (dateutil_parse env) (mktime_us env) (clock env)
         (sqlite_before_cutoff env) (tg_send env)
         (fun _ _ _ _ => Some "Bad Request: message can't be edited")
         (http_get env)
         (rss_feed_url env) (max_message_age_days env).

(** The same, with Telegram timing out on every send. *)
Definition env_timeout : Env :=
  mk_env (sha256_hexdigest env) (strftime_posted env) (re_sub env)
         (dateutil_parse env) (mktime_us env) (clock env)
         (sqlite_before_cutoff env) (fun _ _ _ => inl "Timed out")
         (tg_edit env) (http_get env)
         (rss_feed_url env) (max_message_age_days env).

Definition chat (id : Z) (quiet : option (string * string)) : ChatRow :=
  mk_chat_row id "private" None 0 1
              (option_map fst quiet) (option_map snd quiet) (Some "UTC").

Definition info (id : Z) (quiet : option (string * string)) : ChatInfo :=
  mk_chat_info id "private"
               (option_map fst quiet) (option_map snd quiet) (Some "UTC").

Definition pending (id chat_id : Z) (g : string) : PendingRow :=
  mk_pending_row id chat_id g ("text of " ++ g) (Some ("title of " ++ g)) id.

(** Chats 1 and 2 take messages at any hour, chat 3 is quiet from 07:00 to
    22:00 UTC. *)
Definition chats : list ChatRow :=
  [chat 1 None; chat 2 None; chat 3 (Some ("07:00", "22:00"))].

Definition empty : World := mk_world chats [] 0 [] 0 None 0 0.

Definition event : StatusEvent :=
  mk_status_event "guid-1" "IX.br Sao Paulo - Manutencao programada"
                  "janela de manutencao das 2h as 4h"
                  "https://status.ix.br/1"
                  (mk_datetime (20000 * us_per_day) (Some 0))
                  MAINTENANCE (Some "Sao Paulo") false.

(** Chat 1 has been sent the event as message 100. *)
Definition delivered : World :=
  mk_world chats
           [mk_sent_row 1 "guid-1" 1 (Some 100)
                        (Some (get_content_hash env event)) 0 None
                        (Some (title event)) (Some "sent")]
           1 [] 0 None 0 0.

(** Chat 1 got the event inside a summary: message id 0, sentinel hash. *)
Definition summarised : World :=
  mk_world chats
           [mk_sent_row 1 "guid-1" 1 (Some 0) (Some "pending_summary") 0 None
                        (Some (title event)) (Some "sent")]
           1 [] 0 None 0 0.

(** Chat 1 got an earlier version of the event as message 100. *)
Definition outdated : World :=
  mk_world chats
           [mk_sent_row 1 "guid-1" 1 (Some 100) (Some "an older hash") 0 None
                        (Some "an older title") (Some "sent")]
           1 [] 0 None 0 0.

(** Chat 1 has seven notifications waiting. *)
Definition seven : World :=
  mk_world chats [] 0
           (map (fun i => pending i 1 ("guid-" ++ str_of_Z i))
                [1; 2; 3; 4; 5; 6; 7])
           7 None 0 0.

(** Chat 1 has two notifications waiting, chat 2 (blocked) has one. *)
Definition queued : World :=
  mk_world chats [] 0
           [pending 1 1 "guid-1"; pending 2 1 "guid-2";
            pending 3 2 "guid-3"]
           3 None 0 0.

End Demo.

(** The five tables-and-counters of the database. *)
Definition tables (w : World) :=
  (subscribed_chats w, sent_messages w, sent_messages_seq w,
   pending_notifications w, pending_notifications_seq w).

(** A fetch attempt fails when [_fetch_feed_async] raises on its outcome:
    any HTTP or transport error, or a parse error that left no entry. *)
Definition fetch_fails (o : HttpOutcome) : bool :=
  match o with
  | Parsed feed => bozo feed && (List.length (entries feed) =? 0)%nat
  | _ => true
  end.

(** Number of feed requests among the calls made. *)
Definition http_gets (t : list Effect) : nat :=
  List.length (filter (fun e => match e with HttpGet _ _ => true | _ => false end) t).

(** A datetime that carries an offset. *)
Definition aware (d : datetime) : Prop := utcoffset d <> None.

(** At most one delivery record, and at most one queued notification, per
    (guid, chat). *)
Definition ledger_unique (w : World) : Prop :=
  forall g c,
    (List.length (filter (sent_has_key g c) (sent_messages w)) <= 1)%nat.

Definition queue_unique (w : World) : Prop :=
  forall g c,
    (List.length (filter (pending_has_key g c) (pending_notifications w)) <= 1)%nat.

(** Calls to the transport. *)
Definition transport_call (e : Effect) : bool :=
  match e with
  | SendMessage _ _ _ _ | EditMessageText _ _ _ _ => true
  | _ => false
  end.

(** [m] keeps the property [I] of the world, however it ends. *)
Definition preserves {A} (I : World -> Prop) (m : M A) : Prop :=
  forall w, I w -> I (world_of (m w)).

(** The row of the ledger for (guid, chat), if any. *)
Definition record_of (g : string) (c : Z) (w : World) : option SentRow :=
  find (sent_has_key g c) (sent_messages w).

Definition is_edit (e : Effect) : bool :=
  match e with EditMessageText _ _ _ _ => true | _ => false end.

Definition is_send (e : Effect) : bool :=
  match e with SendMessage _ _ _ _ => true | _ => false end.

(** [kw] occurs in [text] up to the case of letters. *)
Definition occurs_ci (kw text : string) : Prop :=
  exists pre mid post, text = pre ++ mid ++ post /\ lower mid = kw.

(** The substrings that mark a transport error as permanent. *)
Definition permanent_markers : list string :=
  ["blocked"; "deactivated"; "not found"; "kicked"; "forbidden"].

Definition permanent (msg : string) : Prop :=
  exists kw, In kw permanent_markers /\ occurs_ci kw msg.

Definition is_deactivation (e : Effect) : bool :=
  match e with DbUnsubscribeChat _ => true | _ => false end.

Definition is_record_write (e : Effect) : bool :=
  match e with
  | DbMarkMessageSent _ _ _ _ | DbUpdateMessageRecord _ _ _
  | DbUpdateDeliveryStatus _ _ _ => true
  | _ => false
  end.

(** No row of the directory has the chat active. *)
Definition unsubscribed (chat : Z) (w : World) : Prop :=
  Forall (fun r => cr_chat_id r = chat -> cr_is_active r <> 1)
         (subscribed_chats w).

Definition is_clear (e : Effect) : bool :=
  match e with DbClearPendingNotifications _ => true | _ => false end.



(** What [get_active_chats] answers in a world. *)
Definition active_chats (w : World) : list ChatInfo :=
  map (fun r => mk_chat_info (cr_chat_id r) (cr_chat_type r)
                  (cr_quiet_hours_start r) (cr_quiet_hours_end r)
                  (cr_quiet_hours_tz r))
      (filter (fun r => cr_is_active r =? 1) (subscribed_chats w)).

Definition is_pending_read (e : Effect) : bool :=
  match e with DbGetPendingNotifications _ => true | _ => false end.

(** ** Auxiliary definitions of the proofs *)

(** The tuple order on valid times is the order of the microsecond of the
    day. *)
Definition time_us (t : time) : Z :=
  ((hour t * 60 + minute t) * 60 + second t) * us_per_second + microsecond t.

Definition time_valid (t : time) : Prop :=
  0 <= minute t < 60 /\ 0 <= second t < 60
  /\ 0 <= microsecond t < us_per_second.

(** What [_send_event_to_chat] does once [get_sent_message] has answered
    [existing]: the text of the source from [if existing:] on. *)
Definition deliver (env : Env) (event : StatusEvent) (message_text current_hash : string)
    (chat : Z) (existing : option SentInfo) : M unit :=
  match existing with
  | Some row =>
      if opt_str_eqb (content_hash row) (Some current_hash) then ret tt
      else
        match telegram_message_id row with
        | Some telegram_msg_id =>
            if telegram_msg_id =? 0
            then _ <- _send_message env chat event message_text current_hash ;;
                 ret tt
            else
              edited <-
                try_except
                  (let updated_text := message_text ++ updated_marker in
                   edit_message_text env chat telegram_msg_id updated_text ;;
                   update_message_record env (guid event) chat current_hash
                                         (Some (title event)) ;;
                   sleep 100 ;;
                   ret true)
                  (fun e =>
                     match e with
                     | TelegramError _ => Some (ret false)
                     | _ => None
                     end) ;;
              if edited then ret tt
              else _ <- _send_message env chat event message_text current_hash ;;
                   ret tt
        | None =>
            _ <- _send_message env chat event message_text current_hash ;; ret tt
        end
  | None => _ <- _send_message env chat event message_text current_hash ;; ret tt
  end.

Definition info_of (r : SentRow) : SentInfo :=
  mk_sent_info (sm_telegram_message_id r) (sm_content_hash r)
               (sm_message_title r) (sm_delivery_status r).

(** What [_process_pending_of_chat] does once the queue of the chat has
    been read: the text of the source from [if not pending:] on. *)
Definition flush (env : Env) (chat : Z) (pending : list PendingRow) : M unit :=
  match pending with
  | [] => ret tt
  | first :: _ =>
      sent <-
        try_except
          ((if (List.length pending =? 1)%nat
            then
              sent_msg <- send_message env chat (pn_message_text first) false ;;
              mark_message_sent env (pn_message_guid first) chat sent_msg
                                "pending_delivered" (pn_event_title first)
                                "sent"
            else
              let summary := build_summary pending in
              _ <- send_message env chat summary true ;;
              for_each pending
                (fun p =>
                   mark_message_sent env (pn_message_guid p) chat 0
                                     "pending_summary" (pn_event_title p)
                                     "sent")) ;;
           ret true)
          (fun e =>
             match e with
             | TelegramError _ => Some (ret false)
             | _ => None
             end) ;;
      if sent
      then _ <- clear_pending_notifications chat ;; ret tt
      else ret tt
  end.

(** The one message a flush sends. *)
Definition flush_text (pending : list PendingRow) : string :=
  match pending with
  | [p] => pn_message_text p
  | _ => build_summary pending
  end.

Definition flush_preview_off (pending : list PendingRow) : bool :=
  match pending with
  | [p] => false
  | _ => true
  end.

(** The ledger after the summary's records have been written. *)
Definition mark_summarised (env : Env) (chat : Z) (pending : list PendingRow) (w : World)
  : World :=
  fold_left
    (fun w p =>
       world_of (mark_message_sent env (pn_message_guid p) chat 0
                   "pending_summary" (pn_event_title p) "sent" w))
    pending w.

(** A row written for a summary. *)
Definition summarised (r : SentRow) : Prop :=
  sm_telegram_message_id r = Some 0
  /\ sm_content_hash r = Some "pending_summary".

(** Calls that write nothing and send nothing. *)
Definition harmless (e : Effect) : Prop :=
  is_deactivation e = false /\ is_record_write e = false /\ is_send e = false.


(** * The rest of the code: settings, directory, backup, status, menus *)

(** ** More of Python's [str] *)

Module PyText.

(** [str.upper()]: a-z move down by 32, every other byte stays. *)
Definition upper_char (c : ascii) : ascii :=
  let n := nat_of_ascii c in
  if ((97 <=? n) && (n <=? 122))%nat then ascii_of_nat (n - 32) else c.

Fixpoint upper (s : string) : string :=
  match s with
  | EmptyString => EmptyString
  | String c s' => String (upper_char c) (upper s')
  end.

Fixpoint all_digits (s : string) : bool :=
  match s with
  | EmptyString => true
  | String c s' =>
      match digit_of c with
      | Some _ => all_digits s'
      | None => false
      end
  end.

(** [str.isdigit()]: at least one character, all of them digits. *)
Definition isdigit (s : string) : bool :=
  match s with
  | EmptyString => false
  | _ => all_digits s
  end.

(** [s.startswith(p)]. *)
Definition startswith (s p : string) : bool := prefix p s.

(** [x in xs] for strings. *)
Definition str_mem (x : string) (xs : list string) : bool :=
  existsb (String.eqb x) xs.

End PyText.

Import PyText.

(** ** [config.py] *)

Module Settings.

(** The set comprehension of [get_admin_ids], piece by piece. *)
Fixpoint admin_ids_of (pieces : list string) : Result (list Z) :=
  match pieces with
  | [] => Ok []
  | uid :: rest =>
      if isdigit (strip uid)
      then
        let! n := int (strip uid) in
        let! ns := admin_ids_of rest in
        Ok (n :: ns)
      else admin_ids_of rest
  end.

(** The set is given by its elements; a ValueError inside empties it. *)
Definition get_admin_ids (admin_user_ids : string) : Result (list Z) :=
  if negb (truthy_str (Some admin_user_ids)) then Ok []
  else
    match admin_ids_of (split "," admin_user_ids) with
    | Raise (ValueError _) => Ok []
    | r => r
    end.

Definition is_admin (admin_user_ids : string) (user_id : Z) : Result bool :=
  let! ids := get_admin_ids admin_user_ids in
  Ok (existsb (Z.eqb user_id) ids).

Definition validate_token (v : string) : Result string :=
  if negb (truthy_str (Some v))
  then Raise (ValueError "TELEGRAM_BOT_TOKEN is required")
  else
    let parts := split ":" v in
    if negb (List.length parts =? 2)%nat
    then Raise (ValueError
                  "Invalid token format. Expected: 123456789:ABCdefGHI...")
    else if negb (isdigit (nth 0 parts ""))
    then Raise (ValueError "Token should start with bot ID (numbers)")
    else Ok v.

Definition valid_levels : list string :=
  ["DEBUG"; "INFO"; "WARNING"; "ERROR"; "CRITICAL"].

Definition validate_log_level (v : string) : Result string :=
  let v_upper := upper v in
  if negb (str_mem v_upper valid_levels)
  then Raise (ValueError "Log level must be one of the valid levels")
  else Ok v_upper.

(** The [try] block of [validate_time_format]. *)
Definition check_time_format (v : string) : Result string :=
  let parts := split ":" v in
  if negb (List.length parts =? 2)%nat then Raise (ValueError "")
  else
    let! hour := int (nth 0 parts "") in
    let! minute := int (nth 1 parts "") in
    if negb ((0 <=? hour) && (hour <=? 23) && ((0 <=? minute) && (minute <=? 59)))
    then Raise (ValueError "")
    else Ok v.

Definition validate_time_format (v : option string) : Result (option string) :=
  match v with
  | None => Ok None
  | Some s =>
      match check_time_format s with
      | Ok s' => Ok (Some s')
      | Raise (ValueError _) =>
          Raise (ValueError ("Invalid time format: " ++ s
                             ++ ". Expected HH:MM (e.g., '22:00')"))
      | Raise e => Raise e
      end
  end.

Definition get_quiet_hours (quiet_hours_start quiet_hours_end : option string)
  : Result (option (time * time)) :=
  if negb (truthy_str quiet_hours_start) || negb (truthy_str quiet_hours_end)
  then Ok None
  else
    let start_parts := split ":" (str_or quiet_hours_start "") in
    let end_parts := split ":" (str_or quiet_hours_end "") in
    let! sh0 := index start_parts 0 in
    let! sh := int sh0 in
    let! sm0 := index start_parts 1 in
    let! sm := int sm0 in
    let! start := time_new sh sm in
    let! eh0 := index end_parts 0 in
    let! eh := int eh0 in
    let! em0 := index end_parts 1 in
    let! em := int em0 in
    let! end_ := time_new eh em in
    Ok (Some (start, end_)).

End Settings.

(** ** [database.py]: the directory of chats and its backup

    The calls of this part of [database.py] are made by the command
    handlers, not by the pipeline; they are not among the calls an
    [Effect] trace records, and the functions below emit none.

    [subscribed_chats] lists the rows of the table in the order they were
    written.  SQLite hands them out by [chat_id], the INTEGER PRIMARY KEY;
    what is stated of the functions below is about the rows the table
    holds and what the queries answer for a chat, not about that order. *)

Module Directory.

(** A value under a key of a JSON object. *)
Inductive JField (A : Type) : Type :=
| Absent
| Null
| Val (a : A).

Arguments Absent {A}.
Arguments Null {A}.
Arguments Val {A} a.

(** [d.get(key)]. *)
Definition jget {A} (f : JField A) : option A :=
  match f with
  | Val a => Some a
  | _ => None
  end.

Definition of_option {A} (o : option A) : JField A :=
  match o with
  | Some a => Val a
  | None => Null
  end.

(** A chat as a backup file has it.  [subscribed_at] and [is_active] are
    either absent or given as an integer: a row of this model holds an
    integer in these two columns, so a backup with null or text there, and
    the row [import_backup] would write for it, are outside the model. *)
Record BackupChat : Type := mk_backup_chat {
  b_chat_id : JField Z;
  b_chat_type : JField string;
  b_chat_title : JField string;
  b_subscribed_at : option Z;
  b_is_active : option Z;
  b_quiet_hours_start : JField string;
  b_quiet_hours_end : JField string;
  b_quiet_hours_tz : JField string
}.

Record Stats : Type := mk_stats {
  st_active_chats : nat;
  st_total_messages_sent : nat;
  st_failed_deliveries : nat
}.

Record Backup : Type := mk_backup {
  bk_version : string;
  bk_exported_at : Z;
  bk_stats : option Stats;
  bk_subscribed_chats : option (list BackupChat)
}.

Record ImportResult : Type := mk_import_result {
  imported : nat;
  skipped : nat;
  errors : nat;
  total_in_backup : nat
}.

Definition has_chat_id (chat : Z) (r : ChatRow) : bool := cr_chat_id r =? chat.

Section WithEnv.

Variable env : Env.

Definition subscribe_chat (chat : Z) (type : string) (title : option string)
  : M bool :=
  w <- get_world ;;
  match find (has_chat_id chat) (subscribed_chats w) with
  | Some existing =>
      if negb (cr_is_active existing =? 0) then ret false
      else
        stamp <- current_timestamp env ;;
        modify (fun w =>
          set_subscribed_chats
            (map (fun r =>
                    if has_chat_id chat r
                    then mk_chat_row (cr_chat_id r) (cr_chat_type r) title
                           stamp 1 (cr_quiet_hours_start r)
                           (cr_quiet_hours_end r) (cr_quiet_hours_tz r)
                    else r)
                 (subscribed_chats w))
            w) ;;
        ret true
  | None =>
      stamp <- current_timestamp env ;;
      modify (fun w =>
        set_subscribed_chats
          (subscribed_chats w
           ++ [mk_chat_row chat type title stamp 1 None None (Some "UTC")])%list
          w) ;;
      ret true
  end.

Definition is_chat_subscribed (chat : Z) : M bool :=
  w <- get_world ;;
  ret (existsb (chat_is_active chat) (subscribed_chats w)).

Definition set_quiet_hours (chat : Z) (start end_ timezone : option string)
  : M bool :=
  w <- get_world ;;
  let rowcount :=
    List.length (filter (chat_is_active chat) (subscribed_chats w)) in
  modify (set_subscribed_chats
            (map (fun r =>
                    if chat_is_active chat r
                    then mk_chat_row (cr_chat_id r) (cr_chat_type r)
                           (cr_chat_title r) (cr_subscribed_at r)
                           (cr_is_active r) start end_ timezone
                    else r)
                 (subscribed_chats w))) ;;
  ret (0 <? rowcount)%nat.

Definition get_chat_quiet_hours (chat : Z)
  : M (option (string * string * string)) :=
  w <- get_world ;;
  match find (has_chat_id chat) (subscribed_chats w) with
  | Some row =>
      if truthy_str (cr_quiet_hours_start row)
         && truthy_str (cr_quiet_hours_end row)
      then ret (Some (str_or (cr_quiet_hours_start row) "",
                      str_or (cr_quiet_hours_end row) "",
                      str_or (cr_quiet_hours_tz row) "UTC"))
      else ret None
  | None => ret None
  end.

Definition get_stats : M Stats :=
  w <- get_world ;;
  ret (mk_stats
         (List.length (filter (fun r => cr_is_active r =? 1)
                              (subscribed_chats w)))
         (List.length (sent_messages w))
         (List.length
            (filter (fun r => opt_str_eqb (sm_delivery_status r) (Some "failed"))
                    (sent_messages w)))).

Definition backup_of_row (r : ChatRow) : BackupChat :=
  mk_backup_chat (Val (cr_chat_id r)) (Val (cr_chat_type r))
                 (of_option (cr_chat_title r)) (Some (cr_subscribed_at r))
                 (Some (cr_is_active r))
                 (of_option (cr_quiet_hours_start r))
                 (of_option (cr_quiet_hours_end r))
                 (of_option (cr_quiet_hours_tz r)).

Definition export_backup : M Backup :=
  w <- get_world ;;
  let chats := map backup_of_row (subscribed_chats w) in
  stats <- get_stats ;;
  now <- clock_read env ;;
  ret (mk_backup "1.0" now (Some stats) (Some chats)).

(** The body of the loop of [import_backup] for one chat, the three running
    counts going in and out.  INSERT OR REPLACE removes the row that holds
    the chat id; a null [chat_type] breaks NOT NULL and is counted as an
    error.  The default of [subscribed_at] is evaluated, and so the clock
    read, before the insert is tried; as in the other writers the column
    keeps the reading of the clock to the second, not its text. *)
Definition import_chat (merge : bool) (chat : BackupChat)
    (counts : nat * nat * nat) : M (nat * nat * nat) :=
  let '(n_imported, n_skipped, n_errors) := counts in
  match jget (b_chat_id chat) with
  | None => ret (n_imported, n_skipped, S n_errors)
  | Some id =>
      if id =? 0 then ret (n_imported, n_skipped, S n_errors)
      else
        w <- get_world ;;
        let exists_ := existsb (has_chat_id id) (subscribed_chats w) in
        if exists_ && merge then ret (n_imported, S n_skipped, n_errors)
        else
          now <- clock_read env ;;
          match b_chat_type chat with
          | Null => ret (n_imported, n_skipped, S n_errors)
          | type =>
              let row :=
                mk_chat_row id
                  (match type with Val t => t | _ => "unknown" end)
                  (jget (b_chat_title chat))
                  (match b_subscribed_at chat with
                   | Some s => s
                   | None => now / us_per_second
                   end)
                  (match b_is_active chat with Some a => a | None => 1 end)
                  (jget (b_quiet_hours_start chat))
                  (jget (b_quiet_hours_end chat))
                  (match b_quiet_hours_tz chat with
                   | Absent => Some "UTC"
                   | Null => None
                   | Val tz => Some tz
                   end) in
              modify (fun w =>
                set_subscribed_chats
                  (filter (fun r => negb (has_chat_id id r))
                          (subscribed_chats w) ++ [row])%list
                  w) ;;
              ret (S n_imported, n_skipped, n_errors)
          end
  end.

Fixpoint import_chats (merge : bool) (chats : list BackupChat)
    (counts : nat * nat * nat) : M (nat * nat * nat) :=
  match chats with
  | [] => ret counts
  | chat :: rest =>
      counts' <- import_chat merge chat counts ;;
      import_chats merge rest counts'
  end.

Definition import_backup (backup_data : Backup) (merge : bool)
  : M ImportResult :=
  match bk_subscribed_chats backup_data with
  | None =>
      raise (ValueError "Invalid backup format: missing subscribed_chats")
  | Some chats =>
      (if negb merge
       then modify (set_subscribed_chats [])
       else ret tt) ;;
      counts <- import_chats merge chats (O, O, O) ;;
      let '(n_imported, n_skipped, n_errors) := counts in
      ret (mk_import_result n_imported n_skipped n_errors (List.length chats))
  end.

End WithEnv.

End Directory.

(** ** [rss_monitor.py]: the status probe *)

Module Status.

Record FeedStatus : Type := mk_feed_status {
  reachable : bool;
  last_post_date : option datetime;
  last_post_title : option string;
  total_entries : nat;
  error : option string;
  last_successful_fetch : option datetime;
  consecutive_failures : Z
}.

Section WithEnv.

Variable env : Env.

(** [str(e)] for what [httpx] or [feedparser] raised. *)
Variable exception_text : HttpOutcome -> string.

Definition _fetch_feed_sync : M Feed :=
  w <- get_world ;;
  let outcome := http_get env (ticks w) (rss_feed_url env) in
  modify tick ;;
  emit (HttpGet (rss_feed_url env) outcome) ;;
  match outcome with
  | Parsed feed => ret feed
  | failure =>
      raise (RSSFetchError
               ("Failed to fetch RSS feed: " ++ exception_text failure))
  end.

(** What both handlers do: [result["error"] = str(e)] on the dict as it
    stands when the exception arrives. *)
Definition with_error (result : FeedStatus) (e : Exc) : FeedStatus :=
  let msg :=
    match e with
    | RSSFetchError msg
    | ValueError msg | IndexError msg | TypeError msg | TelegramError msg => msg
    end in
  mk_feed_status (reachable result) (last_post_date result)
                 (last_post_title result) (total_entries result) (Some msg)
                 (last_successful_fetch result) (consecutive_failures result).

(** [result] is a dict that the [try] block fills in as it goes.  An
    exception of [_fetch_feed_sync] finds it as it was initialised; one of
    [_parse_date] would find it with [reachable], [total_entries] and
    [last_post_title] set, hence the second [try_except] with the same
    handler. *)
Definition check_feed_status : M FeedStatus :=
  w <- get_world ;;
  let result :=
    mk_feed_status false None None O None
                   (_last_successful_fetch w) (_consecutive_failures w) in
  try_except
    (feed <- _fetch_feed_sync ;;
     if bozo feed && (List.length (entries feed) =? 0)%nat
     then ret (mk_feed_status false None None O (Some (bozo_exception feed))
                 (last_successful_fetch result) (consecutive_failures result))
     else
       let result :=
         mk_feed_status true None None (List.length (entries feed)) None
                        (last_successful_fetch result)
                        (consecutive_failures result) in
       match entries feed with
       | latest_entry :: _ =>
           let result :=
             mk_feed_status (reachable result) None
               (Some (get_default (e_title latest_entry) "Sem titulo"))
               (total_entries result) None
               (last_successful_fetch result) (consecutive_failures result) in
           try_except
             (date <- _parse_date env latest_entry ;;
              ret (mk_feed_status (reachable result) (Some date)
                     (last_post_title result) (total_entries result) None
                     (last_successful_fetch result)
                     (consecutive_failures result)))
             (fun e => Some (ret (with_error result e)))
       | [] => ret result
       end)
    (fun e => Some (ret (with_error result e))).

End WithEnv.

End Status.

(** ** [bot.py]: the quiet-hours command and its menus *)

Module Commands.

(** What [cmd_quiet_hours] does with its arguments, from
    [args = context.args or []] on: the branch taken and what it hands to
    [set_quiet_hours]; the texts of the replies are left out. *)
Inductive QuietCommand : Type :=
| ShowMenu
| Disable
| InvalidTimezone (timezone_str : string)
| Usage
| InvalidFormat
| Configure (timezone_str start end_ : string).

(** The body of the loop [for t in [start, end]] of the validation. *)
Definition check_time (t : string) : Result unit :=
  let parts := split ":" t in
  if negb (List.length parts =? 2)%nat then Raise (ValueError "")
  else
    let! h := int (nth 0 parts "") in
    let! m := int (nth 1 parts "") in
    if negb ((0 <=? h) && (h <=? 23) && ((0 <=? m) && (m <=? 59)))
    then Raise (ValueError "")
    else Ok tt.

Definition timezone_known (timezone_str : string) : bool :=
  str_mem timezone_str (map fst TIMEZONES).

Definition cmd_quiet_hours (args : list string) : Result QuietCommand :=
  match args with
  | [] => Ok ShowMenu
  | first :: _ =>
      if String.eqb (lower first) "off" then Ok Disable
      else
        let parsed :=
          match args with
          | [a0; a1] => inr ("UTC", a0, a1)
          | [a0; a1; a2] =>
              let timezone_str := upper a0 in
              if negb (timezone_known timezone_str)
              then inl (InvalidTimezone timezone_str)
              else inr (timezone_str, a1, a2)
          | _ => inl Usage
          end in
        match parsed with
        | inl reply => Ok reply
        | inr (timezone_str, start, end_) =>
            match (let! _ := check_time start in check_time end_) with
            | Ok _ => Ok (Configure timezone_str start end_)
            | Raise (ValueError _) => Ok InvalidFormat
            | Raise e => Raise e
            end
        end
  end.

(** What [callback_quiet_hours] does with the data of a button. *)
Inductive MenuChoice : Type :=
| MenuDisable
| MenuTimezones
| MenuTimes (timezone_str : string)
| MenuBack
| MenuConfigure (timezone_str start end_ : string)
| MenuIgnored.

Definition callback_quiet_hours (data : string) : Result MenuChoice :=
  if negb (truthy_str (Some data)) then Ok MenuIgnored
  else if String.eqb data "quiet:off" then Ok MenuDisable
  else if String.eqb data "quiet:tz" then Ok MenuTimezones
  else if startswith data "quiet:tzsel:" then
    let! timezone_str := index (split ":" data) 2 in
    Ok (MenuTimes timezone_str)
  else if String.eqb data "quiet:back" then Ok MenuBack
  else
    let parts := split ":" data in
    if (5 <=? List.length parts)%nat then
      let! p1 := index parts 1 in
      if String.eqb p1 "set" then
        let! p2 := index parts 2 in
        let! p3 := index parts 3 in
        let! p4 := index parts 4 in
        let! p5 := index parts 5 in
        let! p6 := index parts 6 in
        Ok (MenuConfigure p2 (p3 ++ ":" ++ p4) (p5 ++ ":" ++ p6))
      else
        let! p2 := index parts 2 in
        let! p3 := index parts 3 in
        let! p4 := index parts 4 in
        let! p5 := index parts 5 in
        Ok (MenuConfigure p1 (p2 ++ ":" ++ p3) (p4 ++ ":" ++ p5))
    else Ok MenuIgnored.

(** The data of the four buttons of the main menu, and of the four buttons
    of the menu of times for a zone. *)
Definition main_menu_data : list string :=
  ["quiet:BRT:22:00:07:00"; "quiet:BRT:23:00:08:00";
   "quiet:BRT:00:00:06:00"; "quiet:BRT:21:00:06:00"].

Definition times_menu_data (timezone_str : string) : list string :=
  ["quiet:set:" ++ timezone_str ++ ":22:00:07:00";
   "quiet:set:" ++ timezone_str ++ ":23:00:08:00";
   "quiet:set:" ++ timezone_str ++ ":00:00:06:00";
   "quiet:set:" ++ timezone_str ++ ":21:00:06:00"].

End Commands.

(** ** Vocabulary of the further statements *)

(** The character [c] is one of the characters of [s]. *)
Fixpoint has_char (c : ascii) (s : string) : bool :=
  match s with
  | EmptyString => false
  | String d s' => Ascii.eqb c d || has_char c s'
  end.

(** The characters [_escape_html] rewrites. *)
Definition html_special (c : ascii) : bool :=
  Ascii.eqb c "&"%char || Ascii.eqb c "<"%char || Ascii.eqb c ">"%char
  || Ascii.eqb c (ascii_of_nat 34).

(** The text before the first [sep] of [s], all of [s] when there is
    none. *)
Fixpoint first_piece (sep s : string) : string :=
  match s with
  | EmptyString => EmptyString
  | String c s' =>
      if prefix sep s then EmptyString else String c (first_piece sep s')
  end.

(** [x] is a run of consecutive characters of [y]. *)
Definition part_of (x y : string) : Prop := exists a b, y = a ++ x ++ b.

(** One turn of the loops over separators of [_clean_description] and
    [_extract_location]. *)
Definition cut_at (text sep : string) : string :=
  if str_in sep text then strip (hd "" (split sep text)) else text.

(** A text of ASCII characters only: there the bytes of this model are
    Python's characters, and [isdigit], [strip] and [int] are Python's. *)
Fixpoint ascii_text (s : string) : bool :=
  match s with
  | EmptyString => true
  | String c s' => (nat_of_ascii c <? 128)%nat && ascii_text s'
  end.

(** The white space beyond ASCII that [str.strip()] removes, in UTF-8:
    U+0085, U+00A0, U+1680, U+2000 to U+200A, U+2028, U+2029, U+202F,
    U+205F and U+3000. *)
Definition utf8 (bytes : list nat) : string :=
  fold_right (fun n s => String (ascii_of_nat n) s) "" bytes.

Definition unicode_spaces : list string :=
  map utf8
    [[194; 133]; [194; 160]; [225; 154; 128];
     [226; 128; 128]; [226; 128; 129]; [226; 128; 130]; [226; 128; 131];
     [226; 128; 132]; [226; 128; 133]; [226; 128; 134]; [226; 128; 135];
     [226; 128; 136]; [226; 128; 137]; [226; 128; 138];
     [226; 128; 168]; [226; 128; 169]; [226; 128; 175];
     [226; 129; 159]; [227; 128; 128]]%nat.

(** A text whose white space is all ASCII, whatever its other characters:
    on it and on its parts [strip] is Python's [str.strip()]. *)
Definition ascii_spaces (s : string) : bool := negb (any_in unicode_spaces s).

(** A string without a colon. *)
Definition colon_free (s : string) : Prop := has_char ":" s = false.

(** The data of a button of the menu of times: quiet:set:TZ:HH:MM:HH:MM. *)
Definition selection_data (tz h1 m1 h2 m2 : string) : string :=
  "quiet:set:" ++ tz ++ ":" ++ h1 ++ ":" ++ m1 ++ ":" ++ h2 ++ ":" ++ m2.

(** The chat ids of the directory, in the order of its rows; the table has
    [chat_id] as its primary key. *)
Definition chat_ids (w : World) : list Z := map cr_chat_id (subscribed_chats w).

Definition primary_key (w : World) : Prop := NoDup (chat_ids w).

(** [is_active] holds 0 or 1 in every row. *)
Definition flags_ok (w : World) : Prop :=
  Forall (fun r => cr_is_active r = 0 \/ cr_is_active r = 1)
         (subscribed_chats w).

(** What the directory answers about a chat in a world. *)
Definition is_subscribed (chat : Z) (w : World) : Result bool :=
  result_of (Directory.is_chat_subscribed chat w).

Definition quiet_hours_of (chat : Z) (w : World)
  : Result (option (string * string * string)) :=
  result_of (Directory.get_chat_quiet_hours chat w).

(** ** Auxiliary definitions of the further proofs *)

(** The row [subscribe_chat] writes over a row that was left. *)
Definition resubscribed (chat : Z) (title : option string) (stamp : Z)
    (r : ChatRow) : ChatRow :=
  if Directory.has_chat_id chat r
  then mk_chat_row (cr_chat_id r) (cr_chat_type r) title stamp 1
                   (cr_quiet_hours_start r) (cr_quiet_hours_end r)
                   (cr_quiet_hours_tz r)
  else r.

(** The row [set_quiet_hours] writes over the row of an active chat. *)
Definition with_quiet_hours (chat : Z) (start end_ timezone : option string)
    (r : ChatRow) : ChatRow :=
  if chat_is_active chat r
  then mk_chat_row (cr_chat_id r) (cr_chat_type r) (cr_chat_title r)
                   (cr_subscribed_at r) (cr_is_active r) start end_ timezone
  else r.

(** What [get_chat_quiet_hours] makes of a row. *)
Definition quiet_of_row (row : option ChatRow)
  : option (string * string * string) :=
  match row with
  | Some row =>
      if truthy_str (cr_quiet_hours_start row)
         && truthy_str (cr_quiet_hours_end row)
      then Some (str_or (cr_quiet_hours_start row) "",
                 str_or (cr_quiet_hours_end row) "",
                 str_or (cr_quiet_hours_tz row) "UTC")
      else None
  | None => None
  end.

(** [ev] was published no more than [days] days before the instant [now]
    (microseconds since the epoch): its date is aware and, as an instant,
    not before the cutoff. *)
Definition recent (now days : Z) (ev : StatusEvent) : Prop :=
  exists offset,
    utcoffset (published ev) = Some offset
    /\ now - days * us_per_day
       <= wall_us (published ev) - offset * us_per_second.

(** * Proofs *)

(** ** Strings *)

Section StringFacts.

Lemma prefix_app : forall n post, prefix n (n ++ post) = true.
Proof.
  induction n as [|c n IH]; intros post; simpl.
  - destruct post; reflexivity.
  - destruct (ascii_dec c c) as [_|ne]; [apply IH | contradiction].
Qed.

Lemma prefix_split : forall n h, prefix n h = true -> exists post, h = n ++ post.
Proof.
  induction n as [|c n IH]; intros h H.
  - exists h. reflexivity.
  - destruct h as [|d h]; simpl in H; [discriminate|].
    destruct (ascii_dec c d) as [->|ne]; [|discriminate].
    destruct (IH _ H) as [post ->]. exists post. reflexivity.
Qed.

Lemma str_in_nil : forall kw, str_in kw "" = prefix kw "".
Proof. intros kw. destruct kw; reflexivity. Qed.

Lemma str_in_cons : forall kw c text,
  str_in kw (String c text)
  = if prefix kw (String c text) then true else str_in kw text.
Proof. reflexivity. Qed.

Lemma str_in_occurs : forall kw text, str_in kw text = true <-> occurs kw text.
Proof.
  intros kw text; split.
  - induction text as [|c text IH]; intros H.
    + rewrite str_in_nil in H.
      destruct (prefix_split _ _ H) as [post E].
      exists "", post. exact E.
    + rewrite str_in_cons in H.
      destruct (prefix kw (String c text)) eqn:P.
      * destruct (prefix_split _ _ P) as [post E].
        exists "", post. exact E.
      * destruct (IH H) as (pre & post & E).
        exists (String c pre), post. simpl. rewrite E. reflexivity.
  - intros (pre & post & E). subst text.
    induction pre as [|c pre IH].
    + change ("" ++ kw ++ post) with (kw ++ post).
      destruct (kw ++ post) as [|d rest] eqn:K.
      * rewrite str_in_nil, <- K. apply prefix_app.
      * rewrite str_in_cons, <- K, prefix_app. reflexivity.
    + change (String c pre ++ kw ++ post) with (String c (pre ++ kw ++ post)).
      rewrite str_in_cons.
      destruct (prefix kw (String c (pre ++ kw ++ post))); [reflexivity|].
      exact IH.
Qed.

Lemma any_in_occurs : forall kws text,
  any_in kws text = true <-> any_occurs kws text.
Proof.
  intros kws text. unfold any_in, any_occurs.
  rewrite existsb_exists. split; intros (kw & I & H); exists kw; split; auto;
    apply str_in_occurs; exact H.
Qed.

Lemma any_in_not_occurs : forall kws text,
  any_in kws text = false <-> ~ any_occurs kws text.
Proof.
  intros kws text. rewrite <- any_in_occurs.
  destruct (any_in kws text); split; intros H; try discriminate; auto.
  exfalso. apply H. reflexivity.
Qed.

Lemma app_assoc_str : forall a b c : string, (a ++ b) ++ c = a ++ b ++ c.
Proof.
  induction a as [|x a IH]; intros b c; simpl; [reflexivity|].
  rewrite IH. reflexivity.
Qed.

Lemma lower_app : forall a b, lower (a ++ b) = lower a ++ lower b.
Proof.
  induction a as [|x a IH]; intros b; simpl; [reflexivity|].
  rewrite IH. reflexivity.
Qed.

Lemma lower_split : forall s a b,
  lower s = a ++ b ->
  exists s1 s2, s = s1 ++ s2 /\ lower s1 = a /\ lower s2 = b.
Proof.
  intros s a. revert s. induction a as [|x a IH]; intros s b H.
  - exists "", s. repeat split. exact H.
  - destruct s as [|y s]; simpl in H; [discriminate|].
    injection H as Hx H. destruct (IH s b H) as (s1 & s2 & -> & L1 & L2).
    exists (String y s1), s2. simpl. rewrite Hx, L1. repeat split. exact L2.
Qed.

(** Looking for a lowercase keyword in the lowered text is looking for it
    in the text up to case. *)
Lemma occurs_lower : forall kw text,
  occurs kw (lower text) <-> occurs_ci kw text.
Proof.
  intros kw text. split.
  - intros (pre & post & H).
    destruct (lower_split _ _ _ H) as (s1 & s2 & -> & L1 & L2).
    destruct (lower_split _ _ _ L2) as (s3 & s4 & -> & L3 & L4).
    exists s1, s3, s4. split; [reflexivity | exact L3].
  - intros (pre & mid & post & -> & L).
    exists (lower pre), (lower post). rewrite !lower_app, L. reflexivity.
Qed.

Lemma occurs_longer : forall a kw text, occurs (a ++ kw) text -> occurs kw text.
Proof.
  intros a kw text (pre & post & ->).
  exists (pre ++ a), post. rewrite !app_assoc_str. reflexivity.
Qed.

End StringFacts.


(** ** Times of day *)

Section TimeFacts.

Lemma time_cmp_us : forall a b,
  time_valid a -> time_valid b ->
  time_cmp a b = (time_us a ?= time_us b).
Proof.
  intros [ha ma sa ua] [hb mb sb ub] (A1 & A2 & A3) (B1 & B2 & B3).
  unfold time_cmp, time_us, then_cmp, us_per_second in *; simpl in *.
  symmetry.
  destruct (Z.compare_spec ha hb) as [-> | Hh | Hh];
    [ destruct (Z.compare_spec ma mb) as [-> | Hm | Hm];
      [ destruct (Z.compare_spec sa sb) as [-> | Hs | Hs];
        [ destruct (Z.compare_spec ua ub) as [-> | Hu | Hu] | | ] | | ] | | ];
    first [ apply Z.compare_eq_iff; lia
          | apply Z.compare_lt_iff; lia
          | apply Z.compare_gt_iff; lia ].
Qed.

Lemma time_of_valid : forall d, time_valid (time_of d).
Proof.
  intros d. unfold time_valid, time_of, us_per_day, us_per_hour, us_per_second.
  simpl. repeat split; try (apply Z.mod_pos_bound; lia).
Qed.

Lemma split_us : forall r,
  ((r / 3600000000 * 60 + (r / 60000000) mod 60) * 60 + (r / 1000000) mod 60)
  * 1000000 + r mod 1000000 = r.
Proof.
  intros r.
  assert (A : r / 3600000000 = (r / 60000000) / 60)
    by (rewrite Z.div_div; [reflexivity | lia | lia]).
  assert (B : r / 60000000 = (r / 1000000) / 60)
    by (rewrite Z.div_div; [reflexivity | lia | lia]).
  rewrite A.
  pose proof (Z.div_mod (r / 60000000) 60 ltac:(lia)) as C.
  rewrite B in *.
  pose proof (Z.div_mod (r / 1000000) 60 ltac:(lia)) as D.
  pose proof (Z.div_mod r 1000000 ltac:(lia)) as E.
  lia.
Qed.

Lemma time_of_us : forall d, time_us (time_of d) = wall_us d mod us_per_day.
Proof.
  intros d. unfold time_us, time_of; simpl.
  change us_per_hour with 3600000000. change (60 * us_per_second) with 60000000.
  change us_per_second with 1000000.
  apply split_us.
Qed.

Lemma time_new_ok : forall h m,
  0 <= h <= 23 -> 0 <= m <= 59 -> time_new h m = Ok (mk_time h m 0 0).
Proof.
  intros h m Hh Hm. unfold time_new.
  replace ((0 <=? h) && (h <=? 23)) with true
    by (symmetry; apply andb_true_iff; split; apply Z.leb_le; lia).
  replace ((0 <=? m) && (m <=? 59)) with true
    by (symmetry; apply andb_true_iff; split; apply Z.leb_le; lia).
  reflexivity.
Qed.

Lemma hm_valid : forall h m,
  0 <= m <= 59 -> time_valid (mk_time h m 0 0).
Proof. intros h m Hm. unfold time_valid, us_per_second; simpl. lia. Qed.

Lemma hm_time_us : forall h m, time_us (mk_time h m 0 0) = hm_us h m.
Proof. intros h m. unfold time_us, hm_us; simpl. lia. Qed.

Lemma time_gt_us : forall a b,
  time_valid a -> time_valid b -> time_gt a b = (time_us b <? time_us a).
Proof.
  intros a b Va Vb. unfold time_gt. rewrite (time_cmp_us a b Va Vb).
  unfold Z.ltb. rewrite (Z.compare_antisym (time_us a) (time_us b)).
  destruct (time_us a ?= time_us b); reflexivity.
Qed.

Lemma time_ge_us : forall a b,
  time_valid a -> time_valid b -> time_ge a b = (time_us b <=? time_us a).
Proof.
  intros a b Va Vb. unfold time_ge. rewrite (time_cmp_us a b Va Vb).
  unfold Z.leb. rewrite (Z.compare_antisym (time_us a) (time_us b)).
  destruct (time_us a ?= time_us b); reflexivity.
Qed.

Lemma time_le_us : forall a b,
  time_valid a -> time_valid b -> time_le a b = (time_us a <=? time_us b).
Proof.
  intros a b Va Vb. unfold time_le. rewrite (time_cmp_us a b Va Vb).
  unfold Z.leb. destruct (time_us a ?= time_us b); reflexivity.
Qed.

End TimeFacts.

(** ** The quiet-hours predicate *)

Section QuietFacts.

Lemma dict_get_absent : forall d key default,
  ~ In key (map fst d) -> dict_get d key default = default.
Proof.
  induction d as [|[k v] d IH]; intros key default H; simpl in *.
  - reflexivity.
  - destruct (String.eqb_spec k key) as [->|ne].
    + exfalso. apply H. left. reflexivity.
    + apply IH. intros I. apply H. right. exact I.
Qed.

Lemma quiet_at_same_offset : forall now s e tz1 tz2,
  dict_get TIMEZONES (str_or tz1 "UTC") 0
  = dict_get TIMEZONES (str_or tz2 "UTC") 0 ->
  _is_quiet_hours_at now s e tz1 = _is_quiet_hours_at now s e tz2.
Proof.
  intros now s e tz1 tz2 H. unfold _is_quiet_hours_at. rewrite H. reflexivity.
Qed.

(** With both strings reading as times, the predicate is the window rule
    on microseconds of the day. *)
Lemma quiet_at_window : forall now s e tz sh sm eh em,
  reads_as_time s sh sm -> reads_as_time e eh em ->
  _is_quiet_hours_at now s e tz
  = Ok (in_window (hm_us sh sm) (hm_us eh em)
          ((wall_us now + dict_get TIMEZONES (str_or tz "UTC") 0 * us_per_hour)
           mod us_per_day)).
Proof.
  intros now s e tz sh sm eh em (S0 & S1 & Sh & Sm) (E0 & E1 & Eh & Em).
  unfold _is_quiet_hours_at.
  set (local := time_of (add_hours now (dict_get TIMEZONES (str_or tz "UTC") 0))).
  assert (L : time_us local
              = (wall_us now
                 + dict_get TIMEZONES (str_or tz "UTC") 0 * us_per_hour)
                mod us_per_day)
    by (unfold local; rewrite time_of_us; reflexivity).
  assert (V : time_valid local) by apply time_of_valid.
  clearbody local.
  destruct (index (split ":" s) 0) as [a|] eqn:I0; simpl in S0; [|discriminate].
  simpl. rewrite S0. simpl.
  destruct (index (split ":" s) 1) as [b|] eqn:I1; simpl in S1; [|discriminate].
  simpl. rewrite S1. simpl. rewrite (time_new_ok sh sm Sh Sm). simpl.
  destruct (index (split ":" e) 0) as [c|] eqn:J0; simpl in E0; [|discriminate].
  simpl. rewrite E0. simpl.
  destruct (index (split ":" e) 1) as [d|] eqn:J1; simpl in E1; [|discriminate].
  simpl. rewrite E1. simpl. rewrite (time_new_ok eh em Eh Em). simpl.
  pose proof (hm_valid sh sm Sm) as Vs. pose proof (hm_valid eh em Em) as Ve.
  rewrite (time_gt_us _ _ Vs Ve), (time_ge_us _ _ V Vs), (time_le_us _ _ V Ve),
    (time_le_us _ _ Vs V), !hm_time_us, L.
  unfold in_window.
  destruct (hm_us eh em <? hm_us sh sm); reflexivity.
Qed.

Lemma reads_as_time_nonempty : forall s h m, reads_as_time s h m -> s <> "".
Proof.
  intros s h m (H & _) ->. vm_compute in H. discriminate.
Qed.

End QuietFacts.

(** ** Runs of the primitives *)

Section Runs.

Variable env : Env.

Lemma now_utc_run : forall w,
  now_utc env w = (Ok (mk_datetime (clock env (ticks w)) (Some 0)), tick w, []).
Proof. reflexivity. Qed.

Lemma is_quiet_hours_missing : forall qs qe qtz w,
  truthy_str qs = false \/ truthy_str qe = false ->
  _is_quiet_hours env qs qe qtz w = (Ok false, w, []).
Proof.
  intros qs qe qtz w H. unfold _is_quiet_hours.
  destruct H as [-> | ->]; simpl; [reflexivity|].
  rewrite orb_true_r. reflexivity.
Qed.

Lemma is_quiet_hours_run : forall qs qe qtz w,
  truthy_str qs = true -> truthy_str qe = true ->
  _is_quiet_hours env qs qe qtz w
  = (_is_quiet_hours_at (mk_datetime (clock env (ticks w)) (Some 0))
       (str_or qs "") (str_or qe "") qtz,
     tick w, []).
Proof.
  intros qs qe qtz w Hs He. unfold _is_quiet_hours. rewrite Hs, He. simpl.
  unfold bind. rewrite now_utc_run. unfold lift.
  destruct (_is_quiet_hours_at _ _ _ _); reflexivity.
Qed.

End Runs.

(** ** Fetching *)

Section FetchFacts.

Variable env : Env.

Lemma bind_ok : forall A B (m : M A) (k : A -> M B) w a w1 t1,
  m w = (Ok a, w1, t1) ->
  bind m k w = (result_of (k a w1), world_of (k a w1),
                (t1 ++ effects_of (k a w1))%list).
Proof.
  intros A B m k w a w1 t1 H. unfold bind. rewrite H.
  destruct (k a w1) as [[r w2] t2]. reflexivity.
Qed.

Lemma bind_ok_nil : forall A B (m : M A) (k : A -> M B) w a w1,
  m w = (Ok a, w1, []) -> bind m k w = k a w1.
Proof.
  intros A B m k w a w1 H. unfold bind. rewrite H.
  destruct (k a w1) as [[r w2] t2]. reflexivity.
Qed.

Lemma bind_step : forall A B (m : M A) (k : A -> M B) w a w1 t1,
  m w = (Ok a, w1, t1) ->
  bind m k w = (let '(r, w2, t2) := k a w1 in (r, w2, (t1 ++ t2)%list)).
Proof. intros A B m k w a w1 t1 H. unfold bind. rewrite H. reflexivity. Qed.

Lemma bind_raise : forall A B (m : M A) (k : A -> M B) w e w1 t1,
  m w = (Raise e, w1, t1) -> bind m k w = (Raise e, w1, t1).
Proof. intros A B m k w e w1 t1 H. unfold bind. rewrite H. reflexivity. Qed.

Lemma fetch_feed_fail : forall w,
  fetch_fails (http_get env (ticks w) (rss_feed_url env)) = true ->
  exists msg,
    _fetch_feed_async env w
    = (Raise (RSSFetchError msg), tick w,
       [HttpGet (rss_feed_url env) (http_get env (ticks w) (rss_feed_url env))]).
Proof.
  intros w H. unfold _fetch_feed_async, bind, get_world, modify, emit; simpl.
  destruct (http_get env (ticks w) (rss_feed_url env)) as [c| |m|m|feed];
    simpl in *; try (eexists; reflexivity).
  rewrite H. eexists; reflexivity.
Qed.

Lemma fetch_feed_ok : forall w,
  fetch_fails (http_get env (ticks w) (rss_feed_url env)) = false ->
  exists feed,
    _fetch_feed_async env w
    = (Ok feed, tick w,
       [HttpGet (rss_feed_url env) (http_get env (ticks w) (rss_feed_url env))]).
Proof.
  intros w H. unfold _fetch_feed_async, bind, get_world, modify, emit; simpl.
  destruct (http_get env (ticks w) (rss_feed_url env)) as [c| |m|m|feed];
    simpl in *; try discriminate.
  rewrite H. eexists; reflexivity.
Qed.

(** [_parse_date] answers with an aware datetime, touches nothing stored
    and calls nobody. *)
Lemma parse_date_run : forall entry w,
  exists d w',
    _parse_date env entry w = (Ok d, w', [])
    /\ stored w' = stored w /\ aware d.
Proof.
  intros entry w. unfold _parse_date.
  set (date_str := first_truthy _ _ _).
  destruct (truthy_str date_str).
  - destruct (dateutil_parse env (str_or date_str "")) as [parsed|].
    + destruct (utcoffset parsed) as [o|] eqn:O.
      * exists parsed, w. repeat split. unfold aware. congruence.
      * exists (replace_tz_utc parsed), w. repeat split.
        unfold aware. simpl. congruence.
    + destruct (first_converted env _) as [z|].
      * exists (mk_datetime z (Some 0)), w. repeat split.
        unfold aware; simpl; congruence.
      * eexists _, (tick w). rewrite now_utc_run. repeat split.
        unfold aware; simpl; congruence.
  - destruct (first_converted env _) as [z|].
    + exists (mk_datetime z (Some 0)), w. repeat split.
      unfold aware; simpl; congruence.
    + eexists _, (tick w). rewrite now_utc_run. repeat split.
      unfold aware; simpl; congruence.
Qed.

Lemma parse_entry_run : forall entry w,
  exists ev w',
    _parse_entry env entry w = (Ok (Some ev), w', [])
    /\ stored w' = stored w /\ aware (published ev).
Proof.
  intros entry w. unfold _parse_entry.
  destruct (parse_date_run entry w) as (d & w' & R & S & A).
  rewrite (bind_ok_nil _ _ _ _ _ _ _ R).
  destruct (_classify_event _ _) as [ty res].
  eexists _, w'. repeat split; [exact S | exact A].
Qed.

Lemma datetime_ge_aware : forall a b,
  aware a -> aware b -> exists answer, datetime_ge a b = Ok answer.
Proof.
  intros a b A B. unfold datetime_ge, aware in *.
  destruct (utcoffset a), (utcoffset b); try congruence.
  eexists; reflexivity.
Qed.

Lemma collect_events_run : forall cutoff feed_entries events w,
  aware cutoff ->
  exists events' w',
    collect_events env cutoff feed_entries events w = (Ok events', w', [])
    /\ stored w' = stored w.
Proof.
  intros cutoff feed_entries. induction feed_entries as [|entry rest IH];
    intros events w A; simpl.
  - exists events, w. split; reflexivity.
  - destruct (parse_entry_run entry w) as (ev & w1 & R & S & P).
    rewrite (bind_ok_nil _ _ _ _ _ _ _ R).
    destruct (datetime_ge_aware _ _ P A) as [fresh G].
    rewrite (bind_ok_nil _ _ _ _ w1 fresh w1) by (unfold lift; rewrite G; reflexivity).
    destruct fresh.
    + destruct (IH (events ++ [ev])%list w1 A) as (evs & w2 & R2 & S2).
      exists evs, w2. split; [exact R2 | congruence].
    + destruct (IH events w1 A) as (evs & w2 & R2 & S2).
      exists evs, w2. split; [exact R2 | congruence].
Qed.

(** A failed attempt: the request, then the back-off unless it was the
    last attempt. *)
Lemma fetch_attempt_fail : forall attempt w,
  fetch_fails (http_get env (ticks w) (rss_feed_url env)) = true ->
  fetch_attempt env attempt w
  = (Ok None, tick w,
     HttpGet (rss_feed_url env) (http_get env (ticks w) (rss_feed_url env))
     :: (if attempt <? 2 then [Sleep (4 * 2 ^ attempt * 1000)] else [])).
Proof.
  intros attempt w H. destruct (fetch_feed_fail w H) as [msg R].
  unfold fetch_attempt, try_except.
  rewrite (bind_raise _ _ _ _ _ _ _ _ R).
  unfold bind, sleep, emit, ret. destruct (attempt <? 2); reflexivity.
Qed.

(** A successful attempt: only the request is made; the failure counter is
    cleared and the time of success recorded. *)
Lemma fetch_attempt_ok : forall attempt w,
  fetch_fails (http_get env (ticks w) (rss_feed_url env)) = false ->
  exists events w',
    fetch_attempt env attempt w
    = (Ok (Some events), w',
       [HttpGet (rss_feed_url env) (http_get env (ticks w) (rss_feed_url env))])
    /\ tables w' = tables w
    /\ _consecutive_failures w' = 0
    /\ _last_successful_fetch w'
       = Some (mk_datetime (clock env (S (ticks w))) (Some 0)).
Proof.
  intros attempt w H. destruct (fetch_feed_ok w H) as [feed R].
  unfold fetch_attempt, try_except, bind at 1. rewrite R.
  cbn [bind modify now_utc clock_read ret].
  match goal with
  | |- context [bind (collect_events env ?c ?es ?acc) ?k ?w0] =>
      destruct (collect_events_run c es acc w0) as (evs & w' & C & S);
        [unfold aware; simpl; congruence
        | rewrite (bind_ok_nil _ _ _ k _ _ _ C)]
  end.
  exists evs, w'. split; [reflexivity|].
  unfold stored in S. simpl in S. unfold tables.
  injection S as S1 S2 S3 S4 S5 S6 S7.
  repeat split; congruence.
Qed.

End FetchFacts.

(** ** Invariants of the tables *)

Section Preservation.

Variable I : World -> Prop.

Lemma preserves_ret : forall A (a : A), preserves I (ret a).
Proof. intros A a w H. exact H. Qed.

Lemma preserves_raise : forall A e, preserves I (@raise A e).
Proof. intros A e w H. exact H. Qed.

Lemma preserves_lift : forall A (r : Result A), preserves I (lift r).
Proof. intros A r w H. exact H. Qed.

Lemma preserves_emit : forall e, preserves I (emit e).
Proof. intros e w H. exact H. Qed.

Lemma preserves_get_world : preserves I get_world.
Proof. intros w H. exact H. Qed.

Lemma preserves_modify : forall f,
  (forall w, I w -> I (f w)) -> preserves I (modify f).
Proof. intros f Hf w H. apply Hf. exact H. Qed.

Lemma preserves_bind : forall A B (m : M A) (k : A -> M B),
  preserves I m -> (forall a, preserves I (k a)) -> preserves I (bind m k).
Proof.
  intros A B m k Hm Hk w H. unfold bind.
  specialize (Hm w H). destruct (m w) as [[[a|e] w1] t1]; simpl in *.
  - specialize (Hk a w1 Hm). destruct (k a w1) as [[r w2] t2]. exact Hk.
  - exact Hm.
Qed.

Lemma preserves_try_except : forall A (body : M A) handler,
  preserves I body ->
  (forall e h, handler e = Some h -> preserves I h) ->
  preserves I (try_except body handler).
Proof.
  intros A body handler Hb Hh w H. unfold try_except.
  specialize (Hb w H). destruct (body w) as [[[a|e] w1] t1]; simpl in *.
  - exact Hb.
  - destruct (handler e) as [h|] eqn:E; [|exact Hb].
    specialize (Hh e h E w1 Hb). destruct (h w1) as [[r w2] t2]. exact Hh.
Qed.

Lemma preserves_for_each : forall A (xs : list A) body,
  (forall x, preserves I (body x)) -> preserves I (for_each xs body).
Proof.
  intros A xs body Hb. induction xs as [|x xs IH]; simpl.
  - apply preserves_ret.
  - apply preserves_bind; [apply Hb | intros _; exact IH].
Qed.

(** From here on [I] looks at the tables only, and the writers of the
    database keep it. *)
Hypothesis I_tables : forall w w', tables w = tables w' -> I w -> I w'.

Variable env : Env.

Hypothesis I_mark : forall g c id h t s,
  preserves I (mark_message_sent env g c id h t s).
Hypothesis I_update : forall g c h t,
  preserves I (update_message_record env g c h t).
Hypothesis I_cleanup : preserves I (cleanup_old_messages env).
Hypothesis I_unsubscribe : forall c, preserves I (unsubscribe_chat c).
Hypothesis I_add_pending : forall c g t ti,
  preserves I (add_pending_notification env c g t ti).
Hypothesis I_clear_pending : forall c,
  preserves I (clear_pending_notifications c).

Lemma preserves_tick : preserves I (modify tick).
Proof. apply preserves_modify. intros w. apply I_tables. reflexivity. Qed.

Lemma preserves_clock_read : preserves I (clock_read env).
Proof. intros w. apply I_tables. reflexivity. Qed.

Lemma preserves_now_utc : preserves I (now_utc env).
Proof.
  apply preserves_bind; [apply preserves_clock_read | intros; apply preserves_ret].
Qed.

Lemma preserves_set_monitor : forall f g,
  preserves I (modify (fun w => set_monitor (f w) (g w) w)).
Proof.
  intros f g. apply preserves_modify. intros w. apply I_tables. reflexivity.
Qed.

Ltac pres :=
  repeat first
    [ apply preserves_ret | apply preserves_raise | apply preserves_lift
    | apply preserves_emit | apply preserves_get_world
    | apply preserves_tick | apply preserves_clock_read
    | apply preserves_now_utc | apply preserves_set_monitor
    | apply I_mark | apply I_update | apply I_cleanup | apply I_unsubscribe
    | apply I_add_pending | apply I_clear_pending
    | apply preserves_bind; [|intros ?]
    | apply preserves_for_each; intros ?
    | match goal with
      | |- preserves _ (match ?x with _ => _ end) => destruct x
      | |- preserves _ (let '(_, _) := ?x in _) => destruct x
      end ].

Lemma preserves_fetch_feed : preserves I (_fetch_feed_async env).
Proof. unfold _fetch_feed_async. pres. Qed.

Lemma preserves_parse_date : forall entry, preserves I (_parse_date env entry).
Proof. intros entry. unfold _parse_date. pres. Qed.

Lemma preserves_parse_entry : forall entry, preserves I (_parse_entry env entry).
Proof.
  intros entry. unfold _parse_entry.
  apply preserves_bind; [apply preserves_parse_date | intros d].
  destruct (_classify_event _ _). pres.
Qed.

Lemma preserves_collect_events : forall cutoff feed_entries events,
  preserves I (collect_events env cutoff feed_entries events).
Proof.
  intros cutoff feed_entries.
  induction feed_entries as [|entry rest IH]; intros events; simpl.
  - pres.
  - apply preserves_bind; [apply preserves_parse_entry | intros [ev|]].
    + apply preserves_bind; [pres | intros []; apply IH].
    + apply IH.
Qed.

Lemma preserves_fetch_attempt : forall attempt,
  preserves I (fetch_attempt env attempt).
Proof.
  intros attempt. unfold fetch_attempt. apply preserves_try_except.
  - apply preserves_bind; [apply preserves_fetch_feed | intros feed].
    pres. apply preserves_collect_events.
  - intros e h E. destruct e; inversion E; subst. unfold sleep. pres.
Qed.

Lemma preserves_fetch_events : preserves I (fetch_events env).
Proof.
  unfold fetch_events, fetch_loop.
  repeat first [ apply preserves_fetch_attempt
               | apply preserves_bind; [|intros [?|]] ];
    pres.
Qed.

Lemma preserves_is_quiet_hours : forall qs qe qtz,
  preserves I (_is_quiet_hours env qs qe qtz).
Proof. intros qs qe qtz. unfold _is_quiet_hours. pres. Qed.

Lemma preserves_send_message : forall c t p, preserves I (send_message env c t p).
Proof. intros c t p. unfold send_message. pres. Qed.

Lemma preserves_edit_message_text : forall c id t,
  preserves I (edit_message_text env c id t).
Proof. intros c id t. unfold edit_message_text. pres. Qed.

Lemma preserves_get_sent_message : forall g c, preserves I (get_sent_message g c).
Proof. intros g c. unfold get_sent_message. pres. Qed.

Lemma preserves_get_pending : forall c, preserves I (get_pending_notifications c).
Proof. intros c. unfold get_pending_notifications. pres. Qed.

Lemma preserves_get_active_chats : preserves I get_active_chats.
Proof. unfold get_active_chats. pres. Qed.

Lemma preserves_cleanup_command_log : preserves I (cleanup_command_log env).
Proof. unfold cleanup_command_log. pres. Qed.

Lemma preserves__send_message : forall c ev t h,
  preserves I (_send_message env c ev t h).
Proof.
  intros c ev t h. unfold _send_message. apply preserves_try_except.
  - apply preserves_bind; [apply preserves_send_message | intros id].
    unfold sleep. pres.
  - intros e k E. destruct e; inversion E; subst. pres.
Qed.

Lemma preserves_send_event_to_chat : forall ev t h ci,
  preserves I (_send_event_to_chat env ev t h ci).
Proof.
  intros ev t h ci. unfold _send_event_to_chat.
  apply preserves_bind; [apply preserves_is_quiet_hours | intros [|]].
  { pres. }
  apply preserves_bind; [apply preserves_get_sent_message | intros [row|]].
  2:{ apply preserves_bind; [apply preserves__send_message | intros; pres]. }
  destruct (opt_str_eqb _ _); [pres|].
  destruct (telegram_message_id row) as [id|].
  2:{ apply preserves_bind; [apply preserves__send_message | intros; pres]. }
  destruct (id =? 0).
  { apply preserves_bind; [apply preserves__send_message | intros; pres]. }
  apply preserves_bind.
  - apply preserves_try_except.
    + apply preserves_bind; [apply preserves_edit_message_text | intros _].
      unfold sleep. pres.
    + intros e k E. destruct e; inversion E; subst. pres.
  - intros [|]; [pres|].
    apply preserves_bind; [apply preserves__send_message | intros; pres].
Qed.

Lemma preserves_send_event_to_chats : forall ev chats,
  preserves I (_send_event_to_chats env ev chats).
Proof.
  intros ev chats. unfold _send_event_to_chats.
  apply preserves_for_each. intros ci. apply preserves_send_event_to_chat.
Qed.

Lemma preserves_process_pending_of_chat : forall ci,
  preserves I (_process_pending_of_chat env ci).
Proof.
  intros ci. unfold _process_pending_of_chat.
  apply preserves_bind; [apply preserves_is_quiet_hours | intros [|]].
  { pres. }
  apply preserves_bind; [apply preserves_get_pending | intros [|first rest]].
  { pres. }
  apply preserves_bind.
  - apply preserves_try_except.
    + apply preserves_bind; [|intros; pres].
      destruct (_ =? _)%nat.
      * apply preserves_bind; [apply preserves_send_message | intros; pres].
      * apply preserves_bind; [apply preserves_send_message | intros; pres].
    + intros e k E. destruct e; inversion E; subst. pres.
  - intros [|]; pres.
Qed.

Lemma preserves_process_pending : forall chats,
  preserves I (_process_pending_notifications env chats).
Proof.
  intros chats. apply preserves_for_each. intros ci.
  apply preserves_process_pending_of_chat.
Qed.

Lemma preserves_check_rss_updates : preserves I (check_rss_updates env).
Proof.
  unfold check_rss_updates, check_rss_updates_try.
  apply preserves_try_except; [|intros e h E; inversion E; subst; pres].
  apply preserves_bind; [apply preserves_fetch_events | intros [|ev evs]].
  { pres. }
  apply preserves_bind; [apply preserves_get_active_chats | intros [|ci cis]].
  { pres. }
  apply preserves_bind.
  { apply preserves_for_each. intros e. apply preserves_send_event_to_chats. }
  intros _. apply preserves_bind; [apply preserves_process_pending | intros _].
  pres.
Qed.

End Preservation.

(** ** The two UNIQUE constraints *)

Section Uniqueness.

Lemma filter_filter_length : forall A (p q : A -> bool) l,
  (List.length (filter p (filter q l)) <= List.length (filter p l))%nat.
Proof.
  intros A p q l. induction l as [|x l IH]; simpl; [lia|].
  destruct (q x); simpl; destruct (p x); simpl; lia.
Qed.

Lemma filter_negb_self : forall A (p : A -> bool) l,
  filter p (filter (fun x => negb (p x)) l) = [].
Proof.
  intros A p l. induction l as [|x l IH]; simpl; [reflexivity|].
  destruct (p x) eqn:P; simpl; [exact IH|]. rewrite P. exact IH.
Qed.

Lemma filter_none : forall A (p : A -> bool) l,
  existsb p l = false -> filter p l = [].
Proof.
  intros A p l. induction l as [|x l IH]; simpl; [reflexivity|].
  destruct (p x); simpl; [discriminate | exact IH].
Qed.

Lemma key_eqb_true : forall g1 c1 g2 c2,
  key_eqb g1 c1 g2 c2 = true <-> g1 = g2 /\ c1 = c2.
Proof.
  intros g1 c1 g2 c2. unfold key_eqb.
  rewrite andb_true_iff, String.eqb_eq, Z.eqb_eq. reflexivity.
Qed.

Lemma key_eqb_refl : forall g c, key_eqb g c g c = true.
Proof. intros g c. apply key_eqb_true. split; reflexivity. Qed.

(** INSERT OR REPLACE keeps the key unique. *)
Lemma replace_unique : forall rows r,
  (forall g c, (List.length (filter (sent_has_key g c) rows) <= 1)%nat) ->
  forall g c,
    (List.length
       (filter (sent_has_key g c)
          (filter (fun x => negb (sent_has_key (sm_message_guid r) (sm_chat_id r) x))
                  rows ++ [r])) <= 1)%nat.
Proof.
  intros rows r U g c. rewrite filter_app, length_app. simpl.
  destruct (sent_has_key g c r) eqn:K.
  - apply key_eqb_true in K. destruct K as [<- <-].
    rewrite filter_negb_self. simpl. lia.
  - simpl. rewrite Nat.add_0_r.
    etransitivity; [apply filter_filter_length | apply U].
Qed.

(** An UPDATE that leaves the key columns alone keeps the key unique. *)
Lemma update_unique : forall rows (f : SentRow -> SentRow),
  (forall r, sm_message_guid (f r) = sm_message_guid r
             /\ sm_chat_id (f r) = sm_chat_id r) ->
  forall g c,
    List.length (filter (sent_has_key g c) (map f rows))
    = List.length (filter (sent_has_key g c) rows).
Proof.
  intros rows f Hf g c.
  assert (K : forall r, sent_has_key g c (f r) = sent_has_key g c r).
  { intros r. unfold sent_has_key. destruct (Hf r) as [-> ->]. reflexivity. }
  induction rows as [|r rows IH]; simpl; [reflexivity|].
  rewrite K. destruct (sent_has_key g c r); simpl; rewrite IH; reflexivity.
Qed.

(** INSERT OR IGNORE keeps the key unique. *)
Lemma ignore_unique : forall rows r,
  (forall g c, (List.length (filter (pending_has_key g c) rows) <= 1)%nat) ->
  existsb (pending_has_key (pn_message_guid r) (pn_chat_id r)) rows = false ->
  forall g c,
    (List.length (filter (pending_has_key g c) (rows ++ [r])) <= 1)%nat.
Proof.
  intros rows r U N g c. rewrite filter_app, length_app. simpl.
  destruct (pending_has_key g c r) eqn:K.
  - apply key_eqb_true in K. destruct K as [<- <-].
    rewrite (filter_none _ _ _ N). simpl. lia.
  - simpl. rewrite Nat.add_0_r. apply U.
Qed.

Variable env : Env.

Lemma ledger_unique_tables : forall w w',
  tables w = tables w' -> ledger_unique w -> ledger_unique w'.
Proof.
  intros w w' T U g c. unfold tables in T.
  injection T as _ T _ _ _. rewrite <- T. apply U.
Qed.

Lemma queue_unique_tables : forall w w',
  tables w = tables w' -> queue_unique w -> queue_unique w'.
Proof.
  intros w w' T U g c. unfold tables in T.
  injection T as _ _ _ T _. rewrite <- T. apply U.
Qed.

Lemma ledger_unique_mark : forall g c id h t s,
  preserves ledger_unique (mark_message_sent env g c id h t s).
Proof.
  intros g c id h t s w U g' c'. cbn.
  apply (replace_unique (sent_messages w)
           (mk_sent_row (sent_messages_seq w + 1) g c (Some id) (Some h)
              (clock env (ticks w) / us_per_second) None t (Some s)) U).
Qed.

Lemma ledger_unique_update : forall g c h t,
  preserves ledger_unique (update_message_record env g c h t).
Proof.
  intros g c h t w U g' c'. cbn.
  rewrite update_unique; [apply U|].
  intros r. destruct (sent_has_key g c r); split; reflexivity.
Qed.

Lemma ledger_unique_status : forall g c st,
  preserves ledger_unique (update_delivery_status g c st).
Proof.
  intros g c st w U g' c'. cbn.
  rewrite update_unique; [apply U|].
  intros r. destruct (sent_has_key g c r); split; reflexivity.
Qed.

Lemma ledger_unique_cleanup : preserves ledger_unique (cleanup_old_messages env).
Proof.
  intros w U g c. cbn.
  etransitivity; [apply filter_filter_length | apply U].
Qed.

Lemma queue_unique_add : forall c g t ti,
  preserves queue_unique (add_pending_notification env c g t ti).
Proof.
  intros c g t ti w U g' c'. cbn.
  destruct (existsb (pending_has_key g c) (pending_notifications w)) eqn:E.
  - apply U.
  - cbn.
    apply (ignore_unique (pending_notifications w)
             (mk_pending_row (pending_notifications_seq w + 1) c g t ti
                (clock env (ticks w) / us_per_second)) U E).
Qed.

Lemma queue_unique_clear : forall c,
  preserves queue_unique (clear_pending_notifications c).
Proof.
  intros c w U g c'. cbn.
  etransitivity; [apply filter_filter_length | apply U].
Qed.

(** Every operation of the pipeline keeps both constraints. *)
Lemma ledger_unique_cycle : preserves ledger_unique (check_rss_updates env).
Proof.
  apply preserves_check_rss_updates.
  - apply ledger_unique_tables.
  - apply ledger_unique_mark.
  - apply ledger_unique_update.
  - apply ledger_unique_cleanup.
  - intros c w U. exact U.
  - intros c g t ti w U g' c'. cbn.
    destruct (existsb _ _); apply U.
  - intros c w U. exact U.
Qed.

Lemma queue_unique_cycle : preserves queue_unique (check_rss_updates env).
Proof.
  apply preserves_check_rss_updates.
  - apply queue_unique_tables.
  - intros g c id h t s w U. exact U.
  - intros g c h t w U. exact U.
  - intros w U. exact U.
  - intros c w U. exact U.
  - apply queue_unique_add.
  - apply queue_unique_clear.
Qed.

End Uniqueness.

(** ** Runs of the reconciler *)

Arguments to_telegram_message : simpl never.
Arguments get_content_hash : simpl never.
Arguments build_summary : simpl never.
Arguments lower : simpl never.
Arguments any_in : simpl never.
Arguments _is_quiet_hours_at : simpl never.

Section ReconcileFacts.

Variable env : Env.

(** The quiet-hours check answers or raises, calls nobody and stores
    nothing. *)
Lemma is_quiet_hours_cases : forall qs qe qtz w,
  exists r w1,
    _is_quiet_hours env qs qe qtz w = (r, w1, []) /\ stored w1 = stored w.
Proof.
  intros qs qe qtz w.
  destruct (truthy_str qs) eqn:Ts; [destruct (truthy_str qe) eqn:Te|].
  - rewrite is_quiet_hours_run by assumption. eexists _, _. split; reflexivity.
  - rewrite is_quiet_hours_missing by (right; exact Te).
    eexists _, _. split; reflexivity.
  - rewrite is_quiet_hours_missing by (left; exact Ts).
    eexists _, _. split; reflexivity.
Qed.

Lemma stored_sent_messages : forall w w',
  stored w' = stored w -> sent_messages w' = sent_messages w.
Proof. intros w w' S. unfold stored in S. congruence. Qed.

Lemma stored_pending : forall w w',
  stored w' = stored w -> pending_notifications w' = pending_notifications w.
Proof. intros w w' S. unfold stored in S. congruence. Qed.

Lemma stored_tables : forall w w',
  stored w' = stored w -> tables w' = tables w.
Proof. intros w w' S. unfold stored in S. unfold tables. congruence. Qed.

Lemma opt_str_eqb_refl : forall o, opt_str_eqb o o = true.
Proof. intros [s|]; simpl; [apply String.eqb_refl | reflexivity]. Qed.

Lemma opt_str_eqb_eq : forall a b, opt_str_eqb a b = true <-> a = b.
Proof.
  intros [a|] [b|]; simpl; split; intros H; try congruence.
  - apply String.eqb_eq in H. congruence.
  - injection H as ->. apply String.eqb_refl.
Qed.

Lemma send_message_run : forall c t p w,
  send_message env c t p w
  = (match tg_send env (ticks w) c t with
     | inr id => Ok id
     | inl msg => Raise (TelegramError msg)
     end, tick w, [SendMessage c t p (tg_send env (ticks w) c t)]).
Proof.
  intros c t p w. unfold send_message, bind, get_world, modify, emit; simpl.
  destruct (tg_send env (ticks w) c t); reflexivity.
Qed.

Lemma edit_message_text_run : forall c id t w,
  edit_message_text env c id t w
  = (match tg_edit env (ticks w) c id t with
     | None => Ok tt
     | Some msg => Raise (TelegramError msg)
     end, tick w, [EditMessageText c id t (tg_edit env (ticks w) c id t)]).
Proof.
  intros c id t w. unfold edit_message_text, bind, get_world, modify, emit; simpl.
  destruct (tg_edit env (ticks w) c id t); reflexivity.
Qed.

(** The three ways [_send_message] can go. *)
Lemma send_message_sent : forall c ev t h w id,
  tg_send env (ticks w) c t = inr id ->
  _send_message env c ev t h w
  = (Ok true,
     world_of (mark_message_sent env (guid ev) c id h (Some (title ev)) "sent"
                 (tick w)),
     [SendMessage c t false (inr id); DbMarkMessageSent (guid ev) c id h;
      Sleep 100]).
Proof.
  intros c ev t h w id H.
  unfold _send_message, try_except, bind at 1.
  rewrite send_message_run, H. reflexivity.
Qed.

Lemma send_message_permanent : forall c ev t h w msg,
  tg_send env (ticks w) c t = inl msg ->
  any_in permanent_errors (lower msg) = true ->
  _send_message env c ev t h w
  = (Ok false, world_of (unsubscribe_chat c (tick w)),
     [SendMessage c t false (inl msg); DbUnsubscribeChat c]).
Proof.
  intros c ev t h w msg H P.
  unfold _send_message, try_except, bind at 1.
  rewrite send_message_run, H. cbn. rewrite P. reflexivity.
Qed.

Lemma send_message_transient : forall c ev t h w msg,
  tg_send env (ticks w) c t = inl msg ->
  any_in permanent_errors (lower msg) = false ->
  _send_message env c ev t h w
  = (Ok false, tick w, [SendMessage c t false (inl msg)]).
Proof.
  intros c ev t h w msg H P.
  unfold _send_message, try_except, bind at 1.
  rewrite send_message_run, H. cbn. rewrite P. reflexivity.
Qed.

(** [_send_message] never raises. *)
Lemma send_message_total : forall c ev t h w,
  exists sent, result_of (_send_message env c ev t h w) = Ok sent.
Proof.
  intros c ev t h w.
  destruct (tg_send env (ticks w) c t) as [msg|id] eqn:H.
  - destruct (any_in permanent_errors (lower msg)) eqn:P.
    + rewrite (send_message_permanent _ _ _ _ _ _ H P). eexists; reflexivity.
    + rewrite (send_message_transient _ _ _ _ _ _ H P). eexists; reflexivity.
  - rewrite (send_message_sent _ _ _ _ _ _ H). eexists; reflexivity.
Qed.

Lemma find_map_same_key : forall A (p : A -> bool) (f : A -> A) l,
  (forall x, p (f x) = p x) -> find p (map f l) = option_map f (find p l).
Proof.
  intros A p f l H. induction l as [|x l IH]; simpl; [reflexivity|].
  rewrite H. destruct (p x); [reflexivity | exact IH].
Qed.

Lemma send_event_not_quiet : forall event text hash ci w w1,
  _is_quiet_hours env (quiet_hours_start ci) (quiet_hours_end ci)
    (quiet_hours_tz ci) w = (Ok false, w1, []) ->
  _send_event_to_chat env event text hash ci w
  = (let '(r, w2, t2) :=
       deliver env event text hash (chat_id ci)
         (option_map info_of
            (find (sent_has_key (guid event) (chat_id ci)) (sent_messages w1)))
         w1 in
     (r, w2, DbGetSentMessage (guid event) (chat_id ci) :: t2)).
Proof.
  intros event text hash ci w w1 Q.
  unfold _send_event_to_chat, bind at 1. rewrite Q.
  unfold bind at 1. cbn [get_sent_message bind emit get_world ret app].
  unfold deliver, info_of.
  match goal with
  | |- (let (p, t2) := let (p0, t3) := ?X in _ in _) = _ =>
      destruct X as [[r w2] t2]
  end.
  reflexivity.
Qed.

Lemma send_event_quiet : forall event text hash ci w w1,
  _is_quiet_hours env (quiet_hours_start ci) (quiet_hours_end ci)
    (quiet_hours_tz ci) w = (Ok true, w1, []) ->
  _send_event_to_chat env event text hash ci w
  = (Ok tt,
     world_of (add_pending_notification env (chat_id ci) (guid event) text
                 (Some (title event)) w1),
     [DbAddPendingNotification (chat_id ci) (guid event)]).
Proof.
  intros event text hash ci w w1 Q.
  unfold _send_event_to_chat, bind at 1. rewrite Q. reflexivity.
Qed.

Lemma send_event_raise : forall event text hash ci w w1 e,
  _is_quiet_hours env (quiet_hours_start ci) (quiet_hours_end ci)
    (quiet_hours_tz ci) w = (Raise e, w1, []) ->
  _send_event_to_chat env event text hash ci w = (Raise e, w1, []).
Proof.
  intros event text hash ci w w1 e Q.
  unfold _send_event_to_chat, bind at 1. rewrite Q. reflexivity.
Qed.

(** Going on to [_send_message]. *)
Lemma then_send : forall event text hash chat w,
  (_ <- _send_message env chat event text hash ;; ret tt) w
  = (Ok tt, world_of (_send_message env chat event text hash w),
     effects_of (_send_message env chat event text hash w)).
Proof.
  intros event text hash chat w. unfold bind.
  destruct (send_message_total chat event text hash w) as [sent T].
  destruct (_send_message env chat event text hash w) as [[r w'] t].
  cbn in T. subst r. cbn. rewrite app_nil_r. reflexivity.
Qed.

Lemma deliver_none : forall event text hash chat w,
  deliver env event text hash chat None w
  = (Ok tt, world_of (_send_message env chat event text hash w),
     effects_of (_send_message env chat event text hash w)).
Proof. intros. apply then_send. Qed.

Lemma deliver_same_hash : forall event text hash chat row w,
  content_hash row = Some hash ->
  deliver env event text hash chat (Some row) w = (Ok tt, w, []).
Proof.
  intros event text hash chat row w H. unfold deliver.
  rewrite H, opt_str_eqb_refl. reflexivity.
Qed.

Lemma deliver_not_editable : forall event text hash chat row w,
  content_hash row <> Some hash ->
  telegram_message_id row = None \/ telegram_message_id row = Some 0 ->
  deliver env event text hash chat (Some row) w
  = (Ok tt, world_of (_send_message env chat event text hash w),
     effects_of (_send_message env chat event text hash w)).
Proof.
  intros event text hash chat row w H N. unfold deliver.
  destruct (opt_str_eqb (content_hash row) (Some hash)) eqn:E.
  { apply opt_str_eqb_eq in E. contradiction. }
  destruct N as [-> | ->]; apply then_send.
Qed.

Lemma deliver_edited : forall event text hash chat row mid w,
  content_hash row <> Some hash ->
  telegram_message_id row = Some mid -> mid <> 0 ->
  tg_edit env (ticks w) chat mid (text ++ updated_marker) = None ->
  deliver env event text hash chat (Some row) w
  = (Ok tt,
     world_of (update_message_record env (guid event) chat hash
                 (Some (title event)) (tick w)),
     [EditMessageText chat mid (text ++ updated_marker) None;
      DbUpdateMessageRecord (guid event) chat hash; Sleep 100]).
Proof.
  intros event text hash chat row mid w H M NZ A. unfold deliver.
  destruct (opt_str_eqb (content_hash row) (Some hash)) eqn:E.
  { apply opt_str_eqb_eq in E. contradiction. }
  rewrite M. apply Z.eqb_neq in NZ. rewrite NZ.
  unfold try_except, bind at 1 2.
  rewrite edit_message_text_run, A. reflexivity.
Qed.

Lemma deliver_edit_failed : forall event text hash chat row mid w msg,
  content_hash row <> Some hash ->
  telegram_message_id row = Some mid -> mid <> 0 ->
  tg_edit env (ticks w) chat mid (text ++ updated_marker) = Some msg ->
  deliver env event text hash chat (Some row) w
  = (Ok tt, world_of (_send_message env chat event text hash (tick w)),
     EditMessageText chat mid (text ++ updated_marker) (Some msg)
     :: effects_of (_send_message env chat event text hash (tick w))).
Proof.
  intros event text hash chat row mid w msg H M NZ A. unfold deliver.
  destruct (opt_str_eqb (content_hash row) (Some hash)) eqn:E.
  { apply opt_str_eqb_eq in E. contradiction. }
  rewrite M. apply Z.eqb_neq in NZ. rewrite NZ.
  unfold try_except, bind at 1 2.
  rewrite edit_message_text_run, A. cbn [ret app].
  rewrite then_send. reflexivity.
Qed.

Lemma quiet_keeps_stored : forall qs qe qtz w r w1,
  _is_quiet_hours env qs qe qtz w = (r, w1, []) -> stored w1 = stored w.
Proof.
  intros qs qe qtz w r w1 Q.
  destruct (is_quiet_hours_cases qs qe qtz w) as (r' & w' & Q' & S').
  rewrite Q in Q'. injection Q' as _ <-. exact S'.
Qed.

End ReconcileFacts.

(** ** Runs of the flush *)

Section FlushFacts.

Variable env : Env.

Lemma process_not_quiet : forall ci w w1,
  _is_quiet_hours env (quiet_hours_start ci) (quiet_hours_end ci)
    (quiet_hours_tz ci) w = (Ok false, w1, []) ->
  _process_pending_of_chat env ci w
  = (let '(r, w2, t2) :=
       flush env (chat_id ci) (pending_of (chat_id ci) (pending_notifications w1))
             w1 in
     (r, w2, DbGetPendingNotifications (chat_id ci) :: t2)).
Proof.
  intros ci w w1 Q.
  unfold _process_pending_of_chat, bind at 1. rewrite Q.
  unfold bind at 1.
  cbn [get_pending_notifications bind emit get_world ret app].
  unfold flush.
  match goal with
  | |- (let (p, t2) := let (p0, t3) := ?X in _ in _) = _ =>
      destruct X as [[r w2] t2]
  end.
  reflexivity.
Qed.

Lemma process_quiet : forall ci w w1,
  _is_quiet_hours env (quiet_hours_start ci) (quiet_hours_end ci)
    (quiet_hours_tz ci) w = (Ok true, w1, []) ->
  _process_pending_of_chat env ci w = (Ok tt, w1, []).
Proof.
  intros ci w w1 Q.
  unfold _process_pending_of_chat, bind at 1. rewrite Q. reflexivity.
Qed.

Lemma process_raise : forall ci w w1 e,
  _is_quiet_hours env (quiet_hours_start ci) (quiet_hours_end ci)
    (quiet_hours_tz ci) w = (Raise e, w1, []) ->
  _process_pending_of_chat env ci w = (Raise e, w1, []).
Proof.
  intros ci w w1 e Q.
  unfold _process_pending_of_chat, bind at 1. rewrite Q. reflexivity.
Qed.

Lemma mark_all_run : forall chat pending w,
  for_each pending
    (fun p =>
       mark_message_sent env (pn_message_guid p) chat 0 "pending_summary"
                         (pn_event_title p) "sent") w
  = (Ok tt, mark_summarised env chat pending w,
     map (fun p => DbMarkMessageSent (pn_message_guid p) chat 0
                     "pending_summary") pending).
Proof.
  intros chat pending. induction pending as [|p rest IH]; intros w.
  - reflexivity.
  - cbn [for_each]. unfold bind at 1.
    cbn [mark_message_sent bind emit current_timestamp clock_read modify ret
         app].
    rewrite IH. reflexivity.
Qed.

Lemma flush_failed : forall chat pending w msg,
  pending <> [] ->
  tg_send env (ticks w) chat (flush_text pending) = inl msg ->
  flush env chat pending w
  = (Ok tt, tick w,
     [SendMessage chat (flush_text pending) (flush_preview_off pending)
        (inl msg)]).
Proof.
  intros chat pending w msg N A.
  destruct pending as [|p [|q rest]]; [contradiction| |].
  - unfold flush. cbn [List.length Nat.eqb].
    unfold try_except, bind at 1 2 3. cbn [flush_text] in A.
    rewrite send_message_run, A. reflexivity.
  - unfold flush. cbn [List.length Nat.eqb].
    unfold try_except, bind at 1 2 3. cbn [flush_text] in A.
    rewrite send_message_run, A. reflexivity.
Qed.

Lemma flush_single_sent : forall chat p w id,
  tg_send env (ticks w) chat (pn_message_text p) = inr id ->
  flush env chat [p] w
  = (Ok tt,
     world_of (clear_pending_notifications chat
                 (world_of (mark_message_sent env (pn_message_guid p) chat id
                              "pending_delivered" (pn_event_title p) "sent"
                              (tick w)))),
     [SendMessage chat (pn_message_text p) false (inr id);
      DbMarkMessageSent (pn_message_guid p) chat id "pending_delivered";
      DbClearPendingNotifications chat]).
Proof.
  intros chat p w id A.
  unfold flush. cbn [List.length Nat.eqb].
  unfold try_except, bind at 1 2 3.
  rewrite send_message_run, A. reflexivity.
Qed.

Lemma flush_summary_sent : forall chat p q rest w id,
  let pending := p :: q :: rest in
  tg_send env (ticks w) chat (build_summary pending) = inr id ->
  flush env chat pending w
  = (Ok tt,
     world_of (clear_pending_notifications chat
                 (mark_summarised env chat pending (tick w))),
     (SendMessage chat (build_summary pending) true (inr id)
      :: map (fun p => DbMarkMessageSent (pn_message_guid p) chat 0
                         "pending_summary") pending
      ++ [DbClearPendingNotifications chat])%list).
Proof.
  intros chat p q rest w id pending A.
  unfold flush. fold pending. cbn [List.length Nat.eqb pending].
  fold pending.
  unfold try_except, bind at 1 2 3.
  rewrite send_message_run, A. rewrite mark_all_run.
  cbn [bind ret app clear_pending_notifications emit get_world modify
       world_of fst snd].
  rewrite app_nil_r. reflexivity.
Qed.

(** Writing records changes neither the queue nor the directory. *)
Lemma mark_summarised_pending : forall chat pending w,
  pending_notifications (mark_summarised env chat pending w)
  = pending_notifications w.
Proof.
  intros chat pending. induction pending as [|p rest IH]; intros w.
  - reflexivity.
  - change (mark_summarised env chat (p :: rest) w)
      with (mark_summarised env chat rest
              (world_of (mark_message_sent env (pn_message_guid p) chat 0
                           "pending_summary" (pn_event_title p) "sent" w))).
    rewrite IH. reflexivity.
Qed.

End FlushFacts.

(** ** The summary and its records *)

Section SummaryFacts.

Lemma len_app : forall a b, len (a ++ b) = (len a + len b)%nat.
Proof.
  induction a as [|c a IH]; intros b; cbn [append len]; [reflexivity|].
  rewrite IH. destruct (is_continuation c); reflexivity.
Qed.

Lemma take_length : forall n s, len (take n s) = Nat.min n (len s).
Proof.
  intros n s. revert n. induction s as [|c s IH]; intros n; cbn [take len].
  - rewrite Nat.min_0_r. reflexivity.
  - destruct (is_continuation c) eqn:C.
    + cbn [len]. rewrite C. apply IH.
    + destruct n as [|n]; [reflexivity|].
      cbn [len]. rewrite C, IH. reflexivity.
Qed.

Lemma take_prefix : forall n s, exists rest, s = take n s ++ rest.
Proof.
  intros n s. revert n. induction s as [|c s IH]; intros n; cbn [take].
  - exists "". reflexivity.
  - destruct (is_continuation c).
    + destruct (IH n) as [rest E]. exists rest.
      cbn [append]. rewrite <- E. reflexivity.
    + destruct n as [|n]; [exists (String c s); reflexivity|].
      destruct (IH n) as [rest E]. exists rest.
      cbn [append]. rewrite <- E. reflexivity.
Qed.

Lemma summary_title_length : forall p, (len (summary_title p) <= 53)%nat.
Proof.
  intros p. unfold summary_title.
  destruct (50 <? len (str_or (pn_event_title p) "Evento"))%nat eqn:L.
  - rewrite len_app, take_length.
    change (len "...") with 3%nat. lia.
  - apply Nat.ltb_ge in L. lia.
Qed.

(** Bytes that continue a character stay with it. *)
Lemma take_continuation : forall rest n s,
  (forall pre d post, rest = pre ++ String d post -> is_continuation d = true) ->
  take n (rest ++ s) = rest ++ take n s
  /\ len (rest ++ s) = len s.
Proof.
  induction rest as [|d rest IH]; intros n s H; [split; reflexivity|].
  assert (D : is_continuation d = true) by (apply (H "" d rest); reflexivity).
  destruct (IH n s) as [T L].
  { intros pre e post E. apply (H (String d pre) e post).
    rewrite E. reflexivity. }
  cbn [append take len]. rewrite D, T, L. split; reflexivity.
Qed.

(** On a text given character by character, [len] counts the characters
    and [take] takes the first ones. *)
Lemma characters_len_take : forall xs n,
  Forall one_character xs ->
  len (fold_right append "" xs) = List.length xs
  /\ take n (fold_right append "" xs) = fold_right append "" (firstn n xs).
Proof.
  induction xs as [|x xs IH]; intros n F.
  - split; [reflexivity|]. destruct n; reflexivity.
  - inversion F as [|y l Hx Hxs]. subst.
    destruct Hx as (c & rest & -> & C & R).
    cbn [fold_right List.length]. cbn [append len take]. rewrite C.
    split.
    + destruct (take_continuation rest O (fold_right append "" xs) R) as [_ L].
      rewrite L. destruct (IH O Hxs) as [-> _]. reflexivity.
    + destruct n as [|n]; [reflexivity|].
      destruct (take_continuation rest n (fold_right append "" xs) R) as [T _].
      rewrite T. destruct (IH n Hxs) as [_ ->]. reflexivity.
Qed.

Lemma characters_len : forall n s, characters n s -> len s = n.
Proof.
  intros n s (xs & L & F & ->). rewrite <- L.
  apply (characters_len_take xs O F).
Qed.

Lemma characters_take : forall n m s,
  characters n s -> (m <= n)%nat ->
  exists rest,
    s = take m s ++ rest /\ characters m (take m s)
    /\ characters (n - m) rest.
Proof.
  intros n m s (xs & L & F & ->) Le.
  destruct (characters_len_take xs m F) as [_ T]. rewrite T.
  exists (fold_right append "" (skipn m xs)).
  split; [|split].
  - rewrite <- (firstn_skipn m xs) at 1. clear.
    generalize (skipn m xs) as ys. induction (firstn m xs) as [|x l IH];
      intros ys; cbn [List.app fold_right]; [reflexivity|].
    rewrite IH, app_assoc_str. reflexivity.
  - exists (firstn m xs). split; [|split; [|reflexivity]].
    + rewrite length_firstn. lia.
    + apply Forall_forall. intros x I. rewrite Forall_forall in F.
      apply F. rewrite <- (firstn_skipn m xs). apply in_or_app. left. exact I.
  - exists (skipn m xs). split; [|split; [|reflexivity]].
    + rewrite length_skipn. lia.
    + apply Forall_forall. intros x I. rewrite Forall_forall in F.
      apply F. rewrite <- (firstn_skipn m xs). apply in_or_app. right. exact I.
Qed.

(** A title of 47 characters in 56 bytes is listed whole; one of 61
    characters is cut after its 50th, not after its 50th byte. *)
Example summary_title_counts_characters :
  summary_title
    (mk_pending_row 1 1 "g" ""
       (Some "Manutenção de emergência em São Paulo – ação já") 0)
  = "Manutenção de emergência em São Paulo – ação já"
  /\ summary_title
       (mk_pending_row 1 1 "g" ""
          (Some "Indisponibilidade na localidade de São João da Boa Vista – SP")
          0)
     = "Indisponibilidade na localidade de São João da Boa...".
Proof. split; reflexivity. Qed.

(** Appending line after line is appending all the lines. *)
Lemma fold_left_lines : forall (line : PendingRow -> string) ps s0,
  fold_left (fun s p => s ++ line p) ps s0
  = s0 ++ fold_right append "" (map line ps).
Proof.
  intros line ps. induction ps as [|p ps IH]; intros s0; simpl.
  - induction s0 as [|c s0 IHs]; simpl; [reflexivity|].
    rewrite <- IHs. reflexivity.
  - rewrite IH, app_assoc_str. reflexivity.
Qed.

Lemma build_summary_shape : forall pending,
  let n := List.length pending in
  build_summary pending
  = "<b>Resumo: " ++ str_of_nat n ++ " notificacoes durante silencio</b>"
    ++ nl ++ nl
    ++ fold_right append ""
         (map (fun p => "- " ++ summary_title p ++ nl) (firstn 5 pending))
    ++ (if (5 <? n)%nat
        then nl ++ "... e mais " ++ str_of_nat (n - 5) ++ " eventos."
        else "")
    ++ nl ++ nl ++ "Veja detalhes em https://status.ix.br".
Proof.
  intros pending n. unfold build_summary. fold n.
  rewrite fold_left_lines.
  destruct (5 <? n)%nat; rewrite !app_assoc_str; reflexivity.
Qed.

(** Sorting by stamp moves rows around and nothing else. *)
Lemma insert_by_created_at_perm : forall p l,
  Permutation (p :: l) (insert_by_created_at p l).
Proof.
  intros p l. induction l as [|q l IH]; simpl.
  - apply Permutation_refl.
  - destruct (pn_created_at p <=? pn_created_at q).
    + apply Permutation_refl.
    + eapply Permutation_trans; [apply perm_swap|].
      apply perm_skip. exact IH.
Qed.

Lemma order_by_created_at_perm : forall l,
  Permutation l (order_by_created_at l).
Proof.
  induction l as [|p l IH]; simpl.
  - apply Permutation_refl.
  - eapply Permutation_trans; [apply perm_skip, IH|].
    apply insert_by_created_at_perm.
Qed.

Lemma insert_by_created_at_sorted : forall p l,
  Sorted (fun a b => pn_created_at a <= pn_created_at b) l ->
  Sorted (fun a b => pn_created_at a <= pn_created_at b)
         (insert_by_created_at p l).
Proof.
  intros p l H. induction H as [|q l Hs IH Hd]; simpl.
  - repeat constructor.
  - destruct (pn_created_at p <=? pn_created_at q) eqn:L.
    + apply Z.leb_le in L. repeat constructor; assumption.
    + apply Z.leb_gt in L. constructor; [exact IH|].
      destruct Hd as [|r l' Hr]; simpl.
      * constructor. lia.
      * destruct (pn_created_at p <=? pn_created_at r); constructor; lia.
Qed.

Lemma order_by_created_at_sorted : forall l,
  Sorted (fun a b => pn_created_at a <= pn_created_at b)
         (order_by_created_at l).
Proof.
  induction l as [|p l IH]; simpl.
  - constructor.
  - apply insert_by_created_at_sorted. exact IH.
Qed.

(** Within one chat a unique key is a unique guid. *)
Lemma unique_guids : forall chat rows,
  (forall g c, (List.length (filter (pending_has_key g c) rows) <= 1)%nat) ->
  NoDup (map pn_message_guid (filter (fun r => pn_chat_id r =? chat) rows)).
Proof.
  intros chat rows. induction rows as [|r rows IH]; intros U; simpl.
  - constructor.
  - assert (U' : forall g c,
              (List.length (filter (pending_has_key g c) rows) <= 1)%nat).
    { intros g c. specialize (U g c). simpl in U.
      destruct (pending_has_key g c r); simpl in U; lia. }
    destruct (pn_chat_id r =? chat) eqn:C; [|apply IH, U'].
    simpl. constructor; [|apply IH, U'].
    intros I. apply in_map_iff in I. destruct I as (r' & G & I).
    apply filter_In in I. destruct I as [I C'].
    apply Z.eqb_eq in C, C'.
    specialize (U (pn_message_guid r) chat). simpl in U.
    assert (K : pending_has_key (pn_message_guid r) chat r = true)
      by (apply key_eqb_true; split; [reflexivity | exact C]).
    rewrite K in U. simpl in U.
    assert (K' : In r' (filter (pending_has_key (pn_message_guid r) chat) rows)).
    { apply filter_In. split; [exact I|].
      apply key_eqb_true. split; assumption. }
    destruct (filter (pending_has_key (pn_message_guid r) chat) rows);
      [destruct K' | simpl in U; lia].
Qed.

Lemma find_app_some : forall A (p : A -> bool) l1 l2 x,
  find p l1 = Some x -> find p (l1 ++ l2) = Some x.
Proof.
  intros A p l1 l2 x. induction l1 as [|y l1 IH]; simpl; [discriminate|].
  destruct (p y); [auto | exact IH].
Qed.

Lemma find_app_none : forall A (p : A -> bool) l1 l2,
  find p l1 = None -> find p (l1 ++ l2) = find p l2.
Proof.
  intros A p l1 l2. induction l1 as [|y l1 IH]; simpl; [reflexivity|].
  destruct (p y); [discriminate | exact IH].
Qed.

Lemma find_filter_negb_self : forall A (p : A -> bool) l,
  find p (filter (fun x => negb (p x)) l) = None.
Proof.
  intros A p l. induction l as [|x l IH]; simpl; [reflexivity|].
  destruct (p x) eqn:P; simpl; [exact IH|]. rewrite P. exact IH.
Qed.

Lemma find_filter_other : forall A (p q : A -> bool) l,
  (forall x, p x = true -> q x = true) ->
  find p (filter q l) = find p l.
Proof.
  intros A p q l H. induction l as [|x l IH]; simpl; [reflexivity|].
  destruct (p x) eqn:P.
  - rewrite (H x P). simpl. rewrite P. reflexivity.
  - destruct (q x); simpl; [rewrite P|]; exact IH.
Qed.

Variable env : Env.

Lemma mark_summary_sets : forall g c t w,
  exists row,
    find (sent_has_key g c)
         (sent_messages
            (world_of (mark_message_sent env g c 0 "pending_summary" t "sent" w)))
    = Some row
    /\ summarised row.
Proof.
  intros g c t w. cbn.
  rewrite find_app_none by apply find_filter_negb_self.
  simpl. unfold sent_has_key at 1. simpl. rewrite key_eqb_refl.
  eexists. split; [reflexivity|]. split; reflexivity.
Qed.

Lemma mark_summary_keeps : forall g c g' t w,
  (exists row, find (sent_has_key g c) (sent_messages w) = Some row
               /\ summarised row) ->
  exists row,
    find (sent_has_key g c)
         (sent_messages
            (world_of (mark_message_sent env g' c 0 "pending_summary" t "sent" w)))
    = Some row
    /\ summarised row.
Proof.
  intros g c g' t w (row & F & Sm).
  destruct (String.eqb_spec g' g) as [->|NE].
  - apply mark_summary_sets.
  - cbn. exists row. split; [|exact Sm].
    apply find_app_some. rewrite find_filter_other; [exact F|].
    intros x K. apply key_eqb_true in K. destruct K as [Kg Kc].
    unfold sent_has_key, key_eqb. rewrite Kg.
    destruct (String.eqb_spec g g'); [congruence | reflexivity].
Qed.

Lemma mark_summarised_records : forall chat pending w p,
  (In p pending
   \/ exists row, find (sent_has_key (pn_message_guid p) chat) (sent_messages w)
                  = Some row /\ summarised row) ->
  exists row,
    find (sent_has_key (pn_message_guid p) chat)
         (sent_messages (mark_summarised env chat pending w)) = Some row
    /\ summarised row.
Proof.
  intros chat pending. induction pending as [|q rest IH]; intros w p H.
  - destruct H as [[]|H]. exact H.
  - change (mark_summarised env chat (q :: rest) w)
      with (mark_summarised env chat rest
              (world_of (mark_message_sent env (pn_message_guid q) chat 0
                           "pending_summary" (pn_event_title q) "sent" w))).
    apply IH. destruct H as [[->|I]|H].
    + right. apply mark_summary_sets.
    + left. exact I.
    + right. apply mark_summary_keeps. exact H.
Qed.

End SummaryFacts.

(** ** Taking a cycle apart *)

Section CycleFacts.

Lemma bind_ok_inv : forall A B (m : M A) (k : A -> M B) w b w' t,
  bind m k w = (Ok b, w', t) ->
  exists a w1 t1 t2,
    m w = (Ok a, w1, t1) /\ k a w1 = (Ok b, w', t2) /\ t = (t1 ++ t2)%list.
Proof.
  intros A B m k w b w' t H. unfold bind in H.
  destruct (m w) as [[[a|e] w1] t1]; [|discriminate].
  destruct (k a w1) as [[r w2] t2] eqn:K.
  injection H as -> -> <-. exists a, w1, t1, t2. auto.
Qed.

Lemma for_each_cons_inv : forall A (x : A) xs body w w' t,
  for_each (x :: xs) body w = (Ok tt, w', t) ->
  exists w1 t1 t2,
    body x w = (Ok tt, w1, t1) /\ for_each xs body w1 = (Ok tt, w', t2)
    /\ t = (t1 ++ t2)%list.
Proof.
  intros A x xs body w w' t H. simpl in H.
  apply bind_ok_inv in H. destruct H as ([] & w1 & t1 & t2 & H1 & H2 & ->).
  exists w1, t1, t2. auto.
Qed.

Lemma for_each_app_inv : forall A (xs ys : list A) body w w' t,
  for_each (xs ++ ys) body w = (Ok tt, w', t) ->
  exists w1 t1 t2,
    for_each xs body w = (Ok tt, w1, t1) /\ for_each ys body w1 = (Ok tt, w', t2)
    /\ t = (t1 ++ t2)%list.
Proof.
  intros A xs. induction xs as [|x xs IH]; intros ys body w w' t H.
  - exists w, [], t. auto.
  - change ((x :: xs) ++ ys)%list with (x :: (xs ++ ys))%list in H.
    apply for_each_cons_inv in H.
    destruct H as (w1 & t1 & t2 & H1 & H2 & ->).
    apply IH in H2. destruct H2 as (w2 & t3 & t4 & H3 & H4 & ->).
    exists w2, (t1 ++ t3)%list, t4. split; [|split].
    + simpl. unfold bind. rewrite H1, H3. reflexivity.
    + exact H4.
    + rewrite app_assoc. reflexivity.
Qed.

Variable env : Env.

Lemma get_active_chats_run : forall w,
  get_active_chats w = (Ok (active_chats w), w, [DbGetActiveChats]).
Proof. reflexivity. Qed.

Lemma get_pending_notifications_run : forall chat w,
  get_pending_notifications chat w
  = (Ok (pending_of chat (pending_notifications w)), w,
     [DbGetPendingNotifications chat]).
Proof. reflexivity. Qed.

Lemma cleanup_run : forall w,
  exists w',
    (_ <- cleanup_old_messages env ;; cleanup_command_log env) w
    = (Ok tt, w', [DbCleanupOldMessages; DbCleanupCommandLog]).
Proof. intros w. eexists. reflexivity. Qed.

End CycleFacts.
(** ** Classification *)

(** C9. [_classify_event] is an ordered cascade over the lowercased
    [title + " " + description]: a resolved keyword gives RESOLVED whatever
    else occurs; failing that a maintenance keyword gives MAINTENANCE;
    failing that an incident keyword gives INCIDENT; otherwise UNKNOWN.
    The event "IX.br Sao Paulo - Manutencao programada" / "janela de
    manutencao das 2h as 4h" is MAINTENANCE with location "Sao Paulo". *)
Theorem classification_cascade :
  (forall title description,
     let text := lower (title ++ " " ++ description) in
     (any_occurs resolved_keywords text
      /\ _classify_event title description = (RESOLVED, true))
     \/ (~ any_occurs resolved_keywords text
         /\ any_occurs maintenance_keywords text
         /\ _classify_event title description = (MAINTENANCE, false))
     \/ (~ any_occurs resolved_keywords text
         /\ ~ any_occurs maintenance_keywords text
         /\ any_occurs incident_keywords text
         /\ _classify_event title description = (INCIDENT, false))
     \/ (~ any_occurs resolved_keywords text
         /\ ~ any_occurs maintenance_keywords text
         /\ ~ any_occurs incident_keywords text
         /\ _classify_event title description = (UNKNOWN, false)))
  /\ _classify_event "IX.br Sao Paulo - Manutencao programada"
                     "janela de manutencao das 2h as 4h"
     = (MAINTENANCE, false)
  /\ _extract_location "IX.br Sao Paulo - Manutencao programada"
     = Some "Sao Paulo".
Proof.
  split; [|split; vm_compute; reflexivity].
  intros title description text. unfold _classify_event. fold text.
  destruct (any_in resolved_keywords text) eqn:R.
  { left. split; [apply any_in_occurs; exact R | reflexivity]. }
  apply any_in_not_occurs in R. right.
  destruct (any_in maintenance_keywords text) eqn:Mt.
  { left. repeat split; [exact R | apply any_in_occurs; exact Mt]. }
  apply any_in_not_occurs in Mt. right.
  destruct (any_in incident_keywords text) eqn:I.
  { left. repeat split; [exact R | exact Mt | apply any_in_occurs; exact I]. }
  apply any_in_not_occurs in I. right. repeat split; assumption.
Qed.

(** ** The quiet-hours predicate *)

(** C4. [_is_quiet_hours] answers False when start or end is missing.
    Otherwise, with now the UTC time of day moved by the fixed offset of
    the named zone, it answers [now >= start or now <= end] when
    start > end (the window wraps midnight) and [start <= now <= end] when
    start <= end.  For 22:00-07:00 UTC it holds at 23:30 and not at 12:00;
    for 07:00-22:00 UTC it holds at 12:00. *)
Theorem quiet_hours_predicate :
  forall env w quiet_start quiet_end quiet_tz,
    ((truthy_str quiet_start = false \/ truthy_str quiet_end = false) ->
     _is_quiet_hours env quiet_start quiet_end quiet_tz w = (Ok false, w, []))
    /\ (forall s e sh sm eh em,
          quiet_start = Some s -> quiet_end = Some e ->
          reads_as_time s sh sm -> reads_as_time e eh em ->
          let start := hm_us sh sm in
          let end_ := hm_us eh em in
          let now := local_us (clock env (ticks w)) quiet_tz in
          _is_quiet_hours env quiet_start quiet_end quiet_tz w
          = (Ok (if end_ <? start
                 then (start <=? now) || (now <=? end_)
                 else (start <=? now) && (now <=? end_)),
             tick w, []))
    /\ (forall day,
          _is_quiet_hours_at (utc_at day 23 30) "22:00" "07:00" (Some "UTC")
          = Ok true
          /\ _is_quiet_hours_at (utc_at day 12 0) "22:00" "07:00" (Some "UTC")
             = Ok false
          /\ _is_quiet_hours_at (utc_at day 12 0) "07:00" "22:00" (Some "UTC")
             = Ok true).
Proof.
  intros env w quiet_start quiet_end quiet_tz. split; [|split].
  - apply is_quiet_hours_missing.
  - intros s e sh sm eh em -> -> Hs He start end_ now.
    pose proof (reads_as_time_nonempty _ _ _ Hs) as Ns.
    pose proof (reads_as_time_nonempty _ _ _ He) as Ne.
    rewrite is_quiet_hours_run
      by (destruct s, e; simpl; congruence).
    replace (str_or (Some s) "") with s by (destruct s; reflexivity).
    replace (str_or (Some e) "") with e by (destruct e; reflexivity).
    rewrite (quiet_at_window _ s e quiet_tz sh sm eh em Hs He).
    reflexivity.
  - intros day.
    assert (R22 : reads_as_time "22:00" 22 0)
      by (repeat split; try reflexivity; lia).
    assert (R07 : reads_as_time "07:00" 7 0)
      by (repeat split; try reflexivity; lia).
    assert (T : forall h m, 0 <= hm_us h m < us_per_day ->
                (wall_us (utc_at day h m)
                 + dict_get TIMEZONES (str_or (Some "UTC") "UTC") 0 * us_per_hour)
                mod us_per_day = hm_us h m).
    { intros h m B. simpl. rewrite Z.add_0_r, Z.add_comm, Z.mod_add.
      - apply Z.mod_small. exact B.
      - unfold us_per_day, us_per_hour, us_per_second. lia. }
    rewrite !(quiet_at_window _ _ _ _ _ _ _ _ R22 R07),
      (quiet_at_window _ _ _ _ _ _ _ _ R07 R22),
      !T by (vm_compute; split; congruence).
    repeat split.
Qed.

Lemma quiet_hours_predicate_witness :
  _is_quiet_hours Demo.env None (Some "07:00") (Some "UTC") Demo.empty
  = (Ok false, Demo.empty, [])
  /\ _is_quiet_hours Demo.env (Some "22:00") (Some "07:00") (Some "BRT")
       Demo.empty
     = (Ok false, tick Demo.empty, []).
Proof.
  split.
  - apply (proj1 (quiet_hours_predicate Demo.env Demo.empty None
                    (Some "07:00") (Some "UTC"))).
    left. reflexivity.
  - apply (proj1 (proj2 (quiet_hours_predicate Demo.env Demo.empty
                           (Some "22:00") (Some "07:00") (Some "BRT")))
             "22:00" "07:00" 22 0 7 0); try reflexivity;
      repeat split; try reflexivity; lia.
Defined.

(** C10. A zone name outside the table UTC, BRT, AMT, ACT, FNT, or no name
    at all, is taken as offset 0: the lookup cannot fail, [_is_quiet_hours]
    gives for such a name what it gives for "UTC" at the same instant, and
    with start and end reading as times that result is an answer, not an
    exception. *)
Theorem unknown_timezone_is_utc :
  forall env w quiet_start quiet_end quiet_tz,
    (quiet_tz = None
     \/ exists name, quiet_tz = Some name /\ ~ In name (map fst TIMEZONES)) ->
    dict_get TIMEZONES (str_or quiet_tz "UTC") 0 = 0
    /\ _is_quiet_hours env quiet_start quiet_end quiet_tz w
       = _is_quiet_hours env quiet_start quiet_end (Some "UTC") w
    /\ (forall s e sh sm eh em,
          quiet_start = Some s -> quiet_end = Some e ->
          reads_as_time s sh sm -> reads_as_time e eh em ->
          exists answer,
            result_of (_is_quiet_hours env quiet_start quiet_end quiet_tz w)
            = Ok answer).
Proof.
  intros env w quiet_start quiet_end quiet_tz H.
  assert (Z0 : dict_get TIMEZONES (str_or quiet_tz "UTC") 0 = 0).
  { destruct H as [-> | (name & -> & N)]; [reflexivity|].
    destruct name as [|c name]; [reflexivity|].
    apply dict_get_absent. exact N. }
  split; [exact Z0 | split].
  - destruct (truthy_str quiet_start) eqn:Ts;
      [destruct (truthy_str quiet_end) eqn:Te|].
    + rewrite !is_quiet_hours_run by assumption.
      rewrite (quiet_at_same_offset _ _ _ quiet_tz (Some "UTC"));
        [reflexivity | rewrite Z0; reflexivity].
    + rewrite !is_quiet_hours_missing by (right; exact Te). reflexivity.
    + rewrite !is_quiet_hours_missing by (left; exact Ts). reflexivity.
  - intros s e sh sm eh em -> -> Hs He.
    pose proof (reads_as_time_nonempty _ _ _ Hs) as Ns.
    pose proof (reads_as_time_nonempty _ _ _ He) as Ne.
    rewrite is_quiet_hours_run by (destruct s, e; simpl; congruence).
    replace (str_or (Some s) "") with s by (destruct s; reflexivity).
    replace (str_or (Some e) "") with e by (destruct e; reflexivity).
    rewrite (quiet_at_window _ s e quiet_tz sh sm eh em Hs He).
    eexists. reflexivity.
Qed.

Lemma unknown_timezone_is_utc_witness :
  _is_quiet_hours Demo.env (Some "07:00") (Some "22:00") (Some "CET")
    Demo.empty
  = _is_quiet_hours Demo.env (Some "07:00") (Some "22:00") (Some "UTC")
      Demo.empty.
Proof.
  apply (unknown_timezone_is_utc Demo.env Demo.empty
           (Some "07:00") (Some "22:00") (Some "CET")).
  right. exists "CET". split; [reflexivity|].
  simpl. intros [H|[H|[H|[H|[H|[]]]]]]; discriminate.
Defined.

(** ** Fetching with retry *)

(** C8. [fetch_events] makes at most three requests, sleeping 4 s after the
    first failure and 8 s after the second and not at all after the third.
    It never raises.  When all three fail it returns the empty list and the
    consecutive-failure counter goes up by exactly one; the attempt that
    succeeds sets that counter to 0 and records the time of success.  The
    database is not touched. *)
Theorem fetch_events_retries :
  forall env w,
    let url := rss_feed_url env in
    let o0 := http_get env (ticks w) url in
    let o1 := http_get env (S (ticks w)) url in
    let o2 := http_get env (S (S (ticks w))) url in
    let run := fetch_events env w in
    let w' := world_of run in
    exists events,
      result_of run = Ok events
      /\ tables w' = tables w
      /\ (http_gets (effects_of run) <= 3)%nat
      /\ ((fetch_fails o0 = false
           /\ effects_of run = [HttpGet url o0]
           /\ _consecutive_failures w' = 0
           /\ _last_successful_fetch w'
              = Some (mk_datetime (clock env (1 + ticks w)) (Some 0)))
          \/ (fetch_fails o0 = true /\ fetch_fails o1 = false
              /\ effects_of run = [HttpGet url o0; Sleep 4000; HttpGet url o1]
              /\ _consecutive_failures w' = 0
              /\ _last_successful_fetch w'
                 = Some (mk_datetime (clock env (2 + ticks w)) (Some 0)))
          \/ (fetch_fails o0 = true /\ fetch_fails o1 = true
              /\ fetch_fails o2 = false
              /\ effects_of run
                 = [HttpGet url o0; Sleep 4000; HttpGet url o1; Sleep 8000;
                    HttpGet url o2]
              /\ _consecutive_failures w' = 0
              /\ _last_successful_fetch w'
                 = Some (mk_datetime (clock env (3 + ticks w)) (Some 0)))
          \/ (fetch_fails o0 = true /\ fetch_fails o1 = true
              /\ fetch_fails o2 = true
              /\ effects_of run
                 = [HttpGet url o0; Sleep 4000; HttpGet url o1; Sleep 8000;
                    HttpGet url o2]
              /\ events = []
              /\ _consecutive_failures w' = _consecutive_failures w + 1
              /\ _last_successful_fetch w' = _last_successful_fetch w)).
Proof.
  intros env w url o0 o1 o2 run w'. subst run w'.
  unfold fetch_events, fetch_loop, bind.
  destruct (fetch_fails o0) eqn:F0.
  2:{ destruct (fetch_attempt_ok env 0 w F0) as (evs & w1 & R & T & C & L).
      rewrite R. cbn.
      exists evs. split; [reflexivity|]. split; [exact T|].
      split; [cbn; lia|]. left. repeat split; auto. }
  rewrite (fetch_attempt_fail env 0 w F0). cbv beta iota.
  destruct (fetch_fails o1) eqn:F1.
  2:{ destruct (fetch_attempt_ok env 1 (tick w) F1)
        as (evs & w1 & R & T & C & L).
      rewrite R. cbn.
      exists evs. split; [reflexivity|]. split; [exact T|].
      split; [cbn; lia|]. right; left. repeat split; auto. }
  rewrite (fetch_attempt_fail env 1 (tick w) F1). cbv beta iota.
  destruct (fetch_fails o2) eqn:F2.
  2:{ destruct (fetch_attempt_ok env 2 (tick (tick w)) F2)
        as (evs & w1 & R & T & C & L).
      rewrite R. cbn.
      exists evs. split; [reflexivity|]. split; [exact T|].
      split; [cbn; lia|]. right; right; left. repeat split; auto. }
  rewrite (fetch_attempt_fail env 2 (tick (tick w)) F2). cbn.
  exists []. split; [reflexivity|]. split; [reflexivity|].
  split; [cbn; lia|]. right; right; right. repeat split; auto.
Qed.

(** ** Delivery records *)

(** C1. The ledger holds at most one record per (guid, chat): each of its
    four writers keeps it so, and so does a whole cycle.  Reconciling an
    event against a chat whose record carries the event's current content
    hash calls the transport neither to send nor to edit and leaves the
    ledger as it is. *)
Theorem at_most_one_delivery_record :
  forall env w,
    ledger_unique w ->
    (forall g c id h t s,
       ledger_unique (world_of (mark_message_sent env g c id h t s w)))
    /\ (forall g c h t,
          ledger_unique (world_of (update_message_record env g c h t w)))
    /\ (forall g c status,
          ledger_unique (world_of (update_delivery_status g c status w)))
    /\ ledger_unique (world_of (cleanup_old_messages env w))
    /\ ledger_unique (world_of (check_rss_updates env w))
    /\ (forall event chat_info row,
          find (sent_has_key (guid event) (chat_id chat_info)) (sent_messages w)
          = Some row ->
          sm_content_hash row = Some (get_content_hash env event) ->
          let run :=
            _send_event_to_chat env event (to_telegram_message env event)
              (get_content_hash env event) chat_info w in
          filter transport_call (effects_of run) = []
          /\ sent_messages (world_of run) = sent_messages w).
Proof.
  intros env w U.
  split; [intros; apply ledger_unique_mark; exact U|].
  split; [intros; apply ledger_unique_update; exact U|].
  split; [intros; apply ledger_unique_status; exact U|].
  split; [apply ledger_unique_cleanup; exact U|].
  split; [apply ledger_unique_cycle; exact U|].
  intros event chat_info row F H run.
  destruct (is_quiet_hours_cases env (quiet_hours_start chat_info)
              (quiet_hours_end chat_info) (quiet_hours_tz chat_info) w)
    as (r & w1 & Q & S).
  pose proof (stored_sent_messages _ _ S) as Ss.
  assert (R : run = run) by reflexivity. revert R.
  unfold run at 2, _send_event_to_chat, bind at 1. rewrite Q.
  destruct r as [[|]|e]; cbn.
  - destruct (existsb _ (pending_notifications w1)); intros ->; cbn; auto.
  - rewrite Ss, F. cbn. rewrite H, opt_str_eqb_refl. intros ->. cbn. auto.
  - intros ->. cbn. auto.
Qed.

Lemma at_most_one_delivery_record_witness :
  ledger_unique (world_of (check_rss_updates Demo.env Demo.delivered))
  /\ filter transport_call
       (effects_of
          (_send_event_to_chat Demo.env Demo.event
             (to_telegram_message Demo.env Demo.event)
             (get_content_hash Demo.env Demo.event)
             (Demo.info 1 None) Demo.delivered)) = [].
Proof.
  assert (U : ledger_unique Demo.delivered).
  { intros g c. simpl. destruct (sent_has_key g c _); simpl; lia. }
  split.
  - apply (at_most_one_delivery_record Demo.env Demo.delivered U).
  - apply (proj2 (proj2 (proj2 (proj2 (proj2
             (at_most_one_delivery_record Demo.env Demo.delivered U)))))
             Demo.event (Demo.info 1 None) _ eq_refl eq_refl).
Defined.

(** ** Edit over resend *)

(** C2, as stated, fails: a record whose message id is 0 (the id the flush
    writes for a summary) has a non-null id, yet for it the reconciler
    sends a fresh message and edits nothing. *)
Lemma edit_over_resend_counterexample :
  let run :=
    _send_event_to_chat Demo.env Demo.event
      (to_telegram_message Demo.env Demo.event)
      (get_content_hash Demo.env Demo.event)
      (Demo.info 1 None) Demo.summarised in
  (exists row,
     record_of "guid-1" 1 Demo.summarised = Some row
     /\ sm_content_hash row <> Some (get_content_hash Demo.env Demo.event)
     /\ sm_telegram_message_id row <> None)
  /\ filter is_edit (effects_of run) = []
  /\ filter is_send (effects_of run)
     = [SendMessage 1 (to_telegram_message Demo.env Demo.event) false (inr 100)].
Proof.
  split; [|split].
  - eexists. split; [reflexivity|]. split; vm_compute; discriminate.
  - vm_compute. reflexivity.
  - vm_compute. reflexivity.
Qed.

(** C2, amended.  For a recipient outside its quiet window with a record
    whose hash differs from the event's and whose message id is neither
    null nor 0, the reconciler edits that message with the rendered text
    plus the updated marker and sends nothing.  When the edit succeeds the
    record takes the new hash, the event's title and the time of the edit,
    and keeps its other columns.  When the edit fails the reconciler goes
    on to [_send_message], exactly as it does when there is no record. *)
Theorem edit_over_resend :
  forall env w w1 event chat_info row mid,
    let chat := chat_id chat_info in
    let text := to_telegram_message env event in
    let hash := get_content_hash env event in
    let run := _send_event_to_chat env event text hash chat_info w in
    let edit := EditMessageText chat mid (text ++ updated_marker) in
    let answer := tg_edit env (ticks w1) chat mid (text ++ updated_marker) in
    _is_quiet_hours env (quiet_hours_start chat_info)
      (quiet_hours_end chat_info) (quiet_hours_tz chat_info) w
    = (Ok false, w1, []) ->
    record_of (guid event) chat w = Some row ->
    sm_content_hash row <> Some hash ->
    sm_telegram_message_id row = Some mid ->
    mid <> 0 ->
    (answer = None ->
     result_of run = Ok tt
     /\ effects_of run
        = [DbGetSentMessage (guid event) chat; edit None;
           DbUpdateMessageRecord (guid event) chat hash; Sleep 100]
     /\ record_of (guid event) chat (world_of run)
        = Some (mk_sent_row (sm_id row) (sm_message_guid row) (sm_chat_id row)
                  (Some mid) (Some hash) (sm_sent_at row)
                  (Some (clock env (S (ticks w1)) / us_per_second))
                  (Some (title event)) (sm_delivery_status row)))
    /\ (forall msg,
          answer = Some msg ->
          let send := _send_message env chat event text hash (tick w1) in
          result_of run = Ok tt
          /\ world_of run = world_of send
          /\ effects_of run
             = DbGetSentMessage (guid event) chat :: edit (Some msg)
               :: effects_of send)
    /\ (forall w0 w2,
          _is_quiet_hours env (quiet_hours_start chat_info)
            (quiet_hours_end chat_info) (quiet_hours_tz chat_info) w0
          = (Ok false, w2, []) ->
          record_of (guid event) chat w0 = None ->
          let run0 := _send_event_to_chat env event text hash chat_info w0 in
          let send := _send_message env chat event text hash w2 in
          result_of run0 = Ok tt
          /\ world_of run0 = world_of send
          /\ effects_of run0
             = DbGetSentMessage (guid event) chat :: effects_of send).
Proof.
  intros env w w1 event chat_info row mid chat text hash run edit answer
         Q F H M NZ.
  pose proof (stored_sent_messages _ _ (quiet_keeps_stored env _ _ _ _ _ _ Q))
    as S.
  unfold record_of in F.
  assert (R : run
              = (let '(r, w2, t2) :=
                   deliver env event text hash chat (Some (info_of row)) w1 in
                 (r, w2, DbGetSentMessage (guid event) chat :: t2))).
  { unfold run. rewrite (send_event_not_quiet env _ _ _ _ _ _ Q).
    fold chat. rewrite S, F. reflexivity. }
  split; [|split].
  - intros A. rewrite R.
    rewrite (deliver_edited env event text hash chat (info_of row) mid w1
               H M NZ A).
    split; [reflexivity|]. split; [reflexivity|].
    unfold record_of. cbn.
    rewrite find_map_same_key
      by (intros x; destruct (sent_has_key (guid event) chat x) eqn:K;
          exact K).
    rewrite S, F. cbn.
    assert (K : sent_has_key (guid event) chat row = true)
      by (apply (find_some _ _ F)).
    rewrite K, M. reflexivity.
  - intros msg A send. rewrite R.
    rewrite (deliver_edit_failed env event text hash chat (info_of row) mid w1
               msg H M NZ A).
    repeat split.
  - intros w0 w2 Q0 F0 run0 send.
    pose proof (stored_sent_messages _ _
                  (quiet_keeps_stored env _ _ _ _ _ _ Q0)) as S0.
    unfold record_of in F0. unfold run0.
    rewrite (send_event_not_quiet env _ _ _ _ _ _ Q0).
    fold chat. rewrite S0, F0. cbn [option_map].
    rewrite deliver_none. repeat split.
Qed.

Lemma edit_over_resend_witness :
  effects_of
    (_send_event_to_chat Demo.env Demo.event
       (to_telegram_message Demo.env Demo.event)
       (get_content_hash Demo.env Demo.event)
       (Demo.info 1 None) Demo.outdated)
  = [DbGetSentMessage "guid-1" 1;
     EditMessageText 1 100
       (to_telegram_message Demo.env Demo.event ++ updated_marker) None;
     DbUpdateMessageRecord "guid-1" 1 (get_content_hash Demo.env Demo.event);
     Sleep 100].
Proof.
  refine (proj1 (proj2 (proj1
            (edit_over_resend Demo.env Demo.outdated Demo.outdated Demo.event
               (Demo.info 1 None) _ 100 eq_refl eq_refl _ eq_refl _) eq_refl))).
  - vm_compute. discriminate.
  - lia.
Defined.

(** ** Failed sends *)

Section FailedSend.

Variable env : Env.

Lemma permanent_iff : forall msg,
  any_in permanent_errors (lower msg) = true <-> permanent msg.
Proof.
  intros msg. rewrite any_in_occurs. unfold permanent, any_occurs. split.
  - intros (kw & I & O). simpl in I.
    destruct I as [<-|[<-|[<-|[<-|[<-|[<-|[]]]]]]];
      try (eexists; split; [|apply occurs_lower; exact O]; simpl; tauto).
    exists "not found". split; [simpl; tauto|].
    apply occurs_lower. apply (occurs_longer "chat "). exact O.
  - intros (kw & I & O). exists kw. split; [|apply occurs_lower; exact O].
    simpl in *. tauto.
Qed.

Lemma failed_send_answer : forall c ev t h w t' p msg,
  In (SendMessage c t' p (inl msg)) (effects_of (_send_message env c ev t h w)) ->
  tg_send env (ticks w) c t = inl msg.
Proof.
  intros c ev t h w t' p msg I.
  destruct (tg_send env (ticks w) c t) as [m|id] eqn:H.
  - destruct (any_in permanent_errors (lower m)) eqn:P.
    + rewrite (send_message_permanent _ _ _ _ _ _ _ H P) in I. simpl in I.
      destruct I as [I|[I|[]]]; [|discriminate]. congruence.
    + rewrite (send_message_transient _ _ _ _ _ _ _ H P) in I. simpl in I.
      destruct I as [I|[]]. congruence.
  - rewrite (send_message_sent _ _ _ _ _ _ _ H) in I. simpl in I.
    destruct I as [I|[I|[I|[]]]]; discriminate.
Qed.

(** When a send of the reconciler fails, the reconciler has so far only
    looked the record up and perhaps failed to edit, and it ends with that
    [_send_message]. *)
Lemma reconcile_failed_send : forall w event ci t' p msg,
  let chat := chat_id ci in
  let text := to_telegram_message env event in
  let hash := get_content_hash env event in
  let run := _send_event_to_chat env event text hash ci w in
  In (SendMessage chat t' p (inl msg)) (effects_of run) ->
  exists w' pre,
    stored w' = stored w
    /\ tg_send env (ticks w') chat text = inl msg
    /\ world_of run = world_of (_send_message env chat event text hash w')
    /\ effects_of run
       = (pre ++ effects_of (_send_message env chat event text hash w'))%list
    /\ Forall harmless pre.
Proof.
  intros w event ci t' p msg chat text hash run I.
  destruct (is_quiet_hours_cases env (quiet_hours_start ci)
              (quiet_hours_end ci) (quiet_hours_tz ci) w)
    as (r & w1 & Q & S).
  unfold run in *. clear run.
  destruct r as [[|]|e].
  { rewrite (send_event_quiet env _ _ _ _ _ _ Q) in I. simpl in I.
    destruct I as [I|[]]. discriminate. }
  2:{ rewrite (send_event_raise env _ _ _ _ _ _ _ Q) in I. destruct I. }
  rewrite (send_event_not_quiet env _ _ _ _ _ _ Q) in I |- *.
  fold chat in I |- *.
  set (existing := option_map info_of _) in I |- *. clearbody existing.
  assert (via_send : forall w2 pre,
            stored w2 = stored w -> Forall harmless pre ->
            In (SendMessage chat t' p (inl msg))
               (pre ++ effects_of (_send_message env chat event text hash w2)) ->
            exists w' pre',
              stored w' = stored w
              /\ tg_send env (ticks w') chat text = inl msg
              /\ world_of (_send_message env chat event text hash w2)
                 = world_of (_send_message env chat event text hash w')
              /\ (pre ++ effects_of (_send_message env chat event text hash w2))%list
                 = (pre' ++ effects_of (_send_message env chat event text hash w'))%list
              /\ Forall harmless pre').
  { intros w2 pre S2 Hp I2. exists w2, pre.
    split; [exact S2|]. split; [|auto].
    apply in_app_or in I2. destruct I2 as [I2|I2].
    - rewrite Forall_forall in Hp. destruct (Hp _ I2) as (_ & _ & X).
      discriminate.
    - apply (failed_send_answer _ _ _ _ _ _ _ _ I2). }
  destruct existing as [row|].
  2:{ rewrite deliver_none in I |- *. cbn in I |- *.
      apply (via_send w1 [DbGetSentMessage (guid event) chat] S).
      - repeat constructor.
      - exact I. }
  destruct (opt_str_eqb (content_hash row) (Some hash)) eqn:E.
  { apply opt_str_eqb_eq in E. rewrite (deliver_same_hash env _ _ _ _ _ _ E) in I.
    simpl in I. destruct I as [I|[]]. discriminate. }
  assert (NE : content_hash row <> Some hash).
  { intros X. apply opt_str_eqb_eq in X. congruence. }
  destruct (telegram_message_id row) as [mid|] eqn:M.
  2:{ rewrite (deliver_not_editable env _ _ _ _ _ _ NE (or_introl M))
        in I |- *.
      cbn in I |- *.
      apply (via_send w1 [DbGetSentMessage (guid event) chat] S).
      - repeat constructor.
      - exact I. }
  destruct (Z.eq_dec mid 0) as [->|NZ].
  { rewrite (deliver_not_editable env _ _ _ _ _ _ NE (or_intror M))
      in I |- *.
    cbn in I |- *.
    apply (via_send w1 [DbGetSentMessage (guid event) chat] S).
    - repeat constructor.
    - exact I. }
  destruct (tg_edit env (ticks w1) chat mid (text ++ updated_marker))
    as [m|] eqn:A.
  - rewrite (deliver_edit_failed env _ _ _ _ _ _ _ _ NE M NZ A) in I |- *.
    cbn in I |- *.
    apply (via_send (tick w1)
             [DbGetSentMessage (guid event) chat;
              EditMessageText chat mid (text ++ updated_marker) (Some m)]).
    + rewrite <- S. reflexivity.
    + repeat constructor.
    + exact I.
  - rewrite (deliver_edited env _ _ _ _ _ _ _ NE M NZ A) in I.
    simpl in I. destruct I as [I|[I|[I|[I|[]]]]]; discriminate.
Qed.

Lemma filter_harmless : forall q pre,
  (forall e, harmless e -> q e = false) ->
  Forall harmless pre -> filter q pre = [].
Proof.
  intros q pre Hq H. induction H as [|e pre He _ IH]; simpl; [reflexivity|].
  rewrite (Hq e He). exact IH.
Qed.

Lemma unsubscribe_unsubscribes : forall chat w,
  unsubscribed chat (world_of (unsubscribe_chat chat w)).
Proof.
  intros chat w. unfold unsubscribed. cbn.
  apply Forall_forall. intros r I. apply in_map_iff in I.
  destruct I as (r0 & <- & _).
  destruct (chat_is_active chat r0) eqn:A; cbn.
  - intros _. discriminate.
  - intros C. unfold chat_is_active in A.
    rewrite C, Z.eqb_refl in A. simpl in A. apply Z.eqb_neq. exact A.
Qed.

End FailedSend.

(** C6. When a send of the reconciler fails with an error whose text
    contains blocked, deactivated, not found, kicked or forbidden, in any
    case of letters, exactly one deactivation is requested, for that chat,
    which is then unsubscribed, and no delivery record is written.  For any
    other error nothing stored changes at all, so the event is sent again
    on a later cycle. *)
Theorem permanent_failure_pruning :
  forall env w event chat_info text' preview msg,
    let chat := chat_id chat_info in
    let run :=
      _send_event_to_chat env event (to_telegram_message env event)
        (get_content_hash env event) chat_info w in
    let w' := world_of run in
    In (SendMessage chat text' preview (inl msg)) (effects_of run) ->
    (permanent msg ->
     filter is_deactivation (effects_of run) = [DbUnsubscribeChat chat]
     /\ unsubscribed chat w'
     /\ filter is_record_write (effects_of run) = []
     /\ sent_messages w' = sent_messages w
     /\ pending_notifications w' = pending_notifications w)
    /\ (~ permanent msg ->
        stored w' = stored w
        /\ filter is_deactivation (effects_of run) = []
        /\ filter is_record_write (effects_of run) = []).
Proof.
  intros env w event chat_info text' preview msg chat run w' I.
  destruct (reconcile_failed_send env w event chat_info text' preview msg I)
    as (w1 & pre & S & A & W & E & H).
  fold chat in A, W, E. fold run in W, E. subst w'.
  assert (D : filter is_deactivation pre = [])
    by (apply filter_harmless; [intros e (X & _); exact X | exact H]).
  assert (R : filter is_record_write pre = [])
    by (apply filter_harmless; [intros e (_ & X & _); exact X | exact H]).
  split.
  - intros P. apply permanent_iff in P.
    rewrite (send_message_permanent env _ _ _ _ _ _ A P) in W, E.
    cbn [world_of effects_of fst snd] in W, E. rewrite W, E.
    rewrite !filter_app, D, R.
    split; [reflexivity|]. split; [apply unsubscribe_unsubscribes|].
    split; [reflexivity|].
    split; [exact (stored_sent_messages _ _ S)
           | exact (stored_pending _ _ S)].
  - intros P.
    assert (P' : any_in permanent_errors (lower msg) = false).
    { destruct (any_in permanent_errors (lower msg)) eqn:X; [|reflexivity].
      exfalso. apply P, permanent_iff, X. }
    rewrite (send_message_transient env _ _ _ _ _ _ A P') in W, E.
    cbn [world_of effects_of fst snd] in W, E. rewrite W, E.
    rewrite !filter_app, D, R. split; [exact S|]. split; reflexivity.
Qed.

Lemma permanent_failure_pruning_witness :
  filter is_deactivation
    (effects_of
       (_send_event_to_chat Demo.env Demo.event
          (to_telegram_message Demo.env Demo.event)
          (get_content_hash Demo.env Demo.event)
          (Demo.info 2 None) Demo.empty))
  = [DbUnsubscribeChat 2].
Proof.
  refine (proj1 (proj1
            (permanent_failure_pruning Demo.env Demo.empty Demo.event
               (Demo.info 2 None) (to_telegram_message Demo.env Demo.event)
               false "Forbidden: bot was blocked by the user" _) _)).
  - vm_compute. right. left. reflexivity.
  - exists "forbidden". split; [simpl; tauto|].
    exists "", "Forbidden", ": bot was blocked by the user".
    split; reflexivity.
Defined.

(** ** The flush and the queue *)

Section FlushQueue.

Variable env : Env.

Lemma filter_marks : forall q chat (pending : list PendingRow),
  (forall g c i h, q (DbMarkMessageSent g c i h) = false) ->
  filter q (map (fun p => DbMarkMessageSent (pn_message_guid p) chat 0
                            "pending_summary") pending) = [].
Proof.
  intros q chat pending H. induction pending as [|p rest IH]; simpl.
  - reflexivity.
  - rewrite H. exact IH.
Qed.

Lemma pending_of_cleared : forall chat rows,
  pending_of chat (filter (fun r => negb (pn_chat_id r =? chat)) rows) = [].
Proof.
  intros chat rows. unfold pending_of.
  rewrite (filter_negb_self _ (fun r => pn_chat_id r =? chat)). reflexivity.
Qed.

End FlushQueue.

(** C7. The flush of a recipient with something queued sends one message.
    When that send fails nothing stored changes: no row of the queue is
    deleted and the same batch is there for a later cycle.  When it
    succeeds every row of that recipient, and no other row, leaves the
    queue in a single clear. *)
Theorem flush_keeps_or_clears_queue :
  forall env w w1 chat_info,
    let chat := chat_id chat_info in
    let pending := pending_of chat (pending_notifications w) in
    let run := _process_pending_of_chat env chat_info w in
    let w' := world_of run in
    let answer := tg_send env (ticks w1) chat (flush_text pending) in
    _is_quiet_hours env (quiet_hours_start chat_info)
      (quiet_hours_end chat_info) (quiet_hours_tz chat_info) w
    = (Ok false, w1, []) ->
    pending <> [] ->
    filter is_send (effects_of run)
    = [SendMessage chat (flush_text pending) (flush_preview_off pending) answer]
    /\ (forall msg,
          answer = inl msg ->
          stored w' = stored w
          /\ pending_of chat (pending_notifications w') = pending
          /\ filter is_clear (effects_of run) = [])
    /\ (forall id,
          answer = inr id ->
          pending_notifications w'
          = filter (fun r => negb (pn_chat_id r =? chat))
                   (pending_notifications w)
          /\ pending_of chat (pending_notifications w') = []
          /\ filter is_clear (effects_of run)
             = [DbClearPendingNotifications chat]).
Proof.
  intros env w w1 chat_info chat pending run w' answer Q N.
  pose proof (quiet_keeps_stored env _ _ _ _ _ _ Q) as S.
  pose proof (stored_pending _ _ S) as Sp.
  assert (R : run
              = (let '(r, w2, t2) := flush env chat pending w1 in
                 (r, w2, DbGetPendingNotifications chat :: t2))).
  { unfold run. rewrite (process_not_quiet env _ _ _ Q).
    fold chat. rewrite Sp. reflexivity. }
  subst w'. rewrite R. clear R.
  destruct answer as [msg|id] eqn:A; subst answer.
  - rewrite (flush_failed env chat pending w1 msg N A). cbn.
    split; [reflexivity|]. split; [|intros; discriminate].
    intros m _. split; [exact S|]. split; [|reflexivity].
    fold pending. rewrite Sp. reflexivity.
  - destruct pending as [|p [|q rest]] eqn:P; [contradiction| |].
    + cbn [flush_text] in A.
      rewrite (flush_single_sent env chat p w1 id A). cbn.
      split; [reflexivity|]. split; [intros; discriminate|].
      intros i _. rewrite Sp.
      split; [reflexivity|]. split; [apply pending_of_cleared | reflexivity].
    + cbn [flush_text] in A.
      rewrite (flush_summary_sent env chat p q rest w1 id A).
      cbn [world_of effects_of fst snd clear_pending_notifications bind emit
           get_world modify ret pending_notifications
           set_pending_notifications].
      rewrite mark_summarised_pending. cbn [tick pending_notifications].
      rewrite Sp.
      split; [|split; [intros; discriminate|]].
      * cbn [filter is_send flush_text flush_preview_off].
        rewrite filter_app, filter_marks by reflexivity. reflexivity.
      * intros i _.
        split; [reflexivity|]. split; [apply pending_of_cleared|].
        cbn [filter is_clear].
        rewrite filter_app, filter_marks by reflexivity. reflexivity.
Qed.

Lemma flush_keeps_or_clears_queue_witness :
  pending_of 1
    (pending_notifications
       (world_of (_process_pending_of_chat Demo.env (Demo.info 1 None) Demo.queued)))
  = []
  /\ stored (world_of (_process_pending_of_chat Demo.env (Demo.info 2 None)
                         Demo.queued))
     = stored Demo.queued.
Proof.
  split.
  - refine (proj1 (proj2 (proj2 (proj2
              (flush_keeps_or_clears_queue Demo.env Demo.queued Demo.queued
                 (Demo.info 1 None) eq_refl _)) 100 eq_refl))).
    vm_compute. discriminate.
  - refine (proj1 (proj1 (proj2
              (flush_keeps_or_clears_queue Demo.env Demo.queued Demo.queued
                 (Demo.info 2 None) eq_refl _))
              "Forbidden: bot was blocked by the user" eq_refl)).
    vm_compute. discriminate.
Defined.

(** ** The batched summary *)

(** C5. A recipient outside its quiet window with more than one queued
    notification gets exactly one message, the summary: a header with the
    count, one line for each of the first five items at most, a title of
    more than 50 characters cut to its first 50 characters and marked with
    three dots, any other title whole, a line "... e mais N
    eventos." when more than five are queued, and the link.  When the send
    succeeds one record is written per queued item, each with message id 0
    and hash "pending_summary".  Seven queued items give five lines,
    "... e mais 2 eventos." and seven records, one per distinct guid. *)
Theorem batch_summary :
  forall env w w1 chat_info,
    let chat := chat_id chat_info in
    let pending := pending_of chat (pending_notifications w) in
    let n := List.length pending in
    let listed := firstn 5 pending in
    let run := _process_pending_of_chat env chat_info w in
    let w' := world_of run in
    let answer := tg_send env (ticks w1) chat (build_summary pending) in
    let record p :=
      DbMarkMessageSent (pn_message_guid p) chat 0 "pending_summary" in
    _is_quiet_hours env (quiet_hours_start chat_info)
      (quiet_hours_end chat_info) (quiet_hours_tz chat_info) w
    = (Ok false, w1, []) ->
    (1 < n)%nat ->
    filter transport_call (effects_of run)
    = [SendMessage chat (build_summary pending) true answer]
    /\ build_summary pending
       = "<b>Resumo: " ++ str_of_nat n ++ " notificacoes durante silencio</b>"
         ++ nl ++ nl
         ++ fold_right append ""
              (map (fun p => "- " ++ summary_title p ++ nl) listed)
         ++ (if (5 <? n)%nat
             then nl ++ "... e mais " ++ str_of_nat (n - 5) ++ " eventos."
             else "")
         ++ nl ++ nl ++ "Veja detalhes em https://status.ix.br"
    /\ List.length listed = Nat.min 5 n
    /\ Forall
         (fun p =>
            let t := str_or (pn_event_title p) "Evento" in
            forall k,
              characters k t ->
              ((k <= 50)%nat -> summary_title p = t)
              /\ ((50 < k)%nat ->
                  exists kept rest,
                    t = kept ++ rest
                    /\ characters 50 kept
                    /\ characters (k - 50) rest
                    /\ summary_title p = kept ++ "..."))
         listed
    /\ (forall id,
          answer = inr id ->
          filter is_record_write (effects_of run) = map record pending
          /\ forall p,
               In p pending ->
               exists row,
                 record_of (pn_message_guid p) chat w' = Some row
                 /\ sm_telegram_message_id row = Some 0
                 /\ sm_content_hash row = Some "pending_summary")
    /\ (queue_unique w -> NoDup (map pn_message_guid pending))
    /\ (n = 7%nat ->
        List.length listed = 5%nat
        /\ build_summary pending
           = "<b>Resumo: 7 notificacoes durante silencio</b>" ++ nl ++ nl
             ++ fold_right append ""
                  (map (fun p => "- " ++ summary_title p ++ nl) listed)
             ++ nl ++ "... e mais 2 eventos."
             ++ nl ++ nl ++ "Veja detalhes em https://status.ix.br"
        /\ forall id,
             answer = inr id ->
             List.length (filter is_record_write (effects_of run)) = 7%nat).
Proof.
  intros env w w1 chat_info chat pending n listed run w' answer record Q N.
  pose proof (quiet_keeps_stored env _ _ _ _ _ _ Q) as S.
  pose proof (stored_pending _ _ S) as Sp.
  assert (R : run
              = (let '(r, w2, t2) := flush env chat pending w1 in
                 (r, w2, DbGetPendingNotifications chat :: t2))).
  { unfold run. rewrite (process_not_quiet env _ _ _ Q).
    fold chat. rewrite Sp. reflexivity. }
  assert (Sent : forall id,
            answer = inr id ->
            run = (Ok tt,
                   world_of (clear_pending_notifications chat
                               (mark_summarised env chat pending (tick w1))),
                   DbGetPendingNotifications chat
                   :: SendMessage chat (build_summary pending) true (inr id)
                   :: (map record pending
                       ++ [DbClearPendingNotifications chat])%list)).
  { intros id A. rewrite R. subst n.
    destruct pending as [|p [|q rest]] eqn:P; simpl in N; try lia.
    rewrite (flush_summary_sent env chat p q rest w1 id A). reflexivity. }
  assert (Writes : forall id,
            answer = inr id ->
            filter is_record_write (effects_of run) = map record pending).
  { intros id A. rewrite (Sent id A). cbn [effects_of snd filter is_record_write].
    rewrite filter_app. cbn [filter is_record_write]. rewrite app_nil_r.
    clear. induction pending as [|p rest IH]; simpl; [reflexivity|].
    rewrite IH. reflexivity. }
  split; [|split; [|split; [|split; [|split; [|split]]]]].
  - destruct answer as [msg|id] eqn:A.
    + rewrite R. subst n.
      rewrite (flush_failed env chat pending w1 msg) .
      * destruct pending as [|p [|q rest]]; simpl in N; try lia. reflexivity.
      * intros E. rewrite E in N. simpl in N. lia.
      * destruct pending as [|p [|q rest]]; simpl in N; try lia. exact A.
    + rewrite (Sent id eq_refl). cbn [effects_of snd filter transport_call].
      unfold record. rewrite filter_app, filter_marks by reflexivity.
      reflexivity.
  - apply build_summary_shape.
  - apply length_firstn.
  - apply Forall_forall. intros p _. cbv zeta. intros k K.
    pose proof (characters_len _ _ K) as L. unfold summary_title.
    split.
    + intros Le. rewrite L.
      destruct (Nat.ltb_spec 50 k); [lia | reflexivity].
    + intros Lt. rewrite L.
      destruct (Nat.ltb_spec 50 k); [|lia].
      destruct (characters_take k 50 _ K) as (rest & E & K50 & Kr); [lia|].
      exists (take 50 (str_or (pn_event_title p) "Evento")), rest.
      repeat split; assumption.
  - intros id A. split; [exact (Writes id A)|].
    intros p I. subst w'. rewrite (Sent id A). unfold record_of.
    cbn [world_of fst snd clear_pending_notifications bind emit get_world
         modify ret sent_messages set_pending_notifications].
    destruct (mark_summarised_records env chat pending (tick w1) p
                (or_introl I)) as (row & F & S0 & S1).
    exists row. auto.
  - intros U. unfold pending, pending_of.
    eapply Permutation_NoDup.
    + apply Permutation_map. apply order_by_created_at_perm.
    + apply unique_guids. exact U.
  - intros E. split; [|split].
    + unfold listed. rewrite length_firstn. fold n. rewrite E. reflexivity.
    + rewrite build_summary_shape. fold n listed. rewrite E. reflexivity.
    + intros id A. rewrite (Writes id A), length_map. exact E.
Qed.

Lemma batch_summary_witness :
  List.length
    (filter is_record_write
       (effects_of (_process_pending_of_chat Demo.env (Demo.info 1 None) Demo.seven)))
  = 7%nat.
Proof.
  refine (proj2 (proj2
            (proj2 (proj2 (proj2 (proj2 (proj2 (proj2
               (batch_summary Demo.env Demo.seven Demo.seven (Demo.info 1 None)
                  eq_refl _))))))
               eq_refl))
            100 eq_refl).
  vm_compute. lia.
Defined.

(** ** The flush within a cycle *)

(** C3, as stated, fails: when the fetch gives no event the cycle ends
    before the flush.  Chat 1 is active, outside any quiet window and has
    two notifications queued, yet the cycle only asks for the feed: nothing
    is read from the queue, nothing is sent and the queue stays as it
    was. *)
Lemma flush_every_cycle_counterexample :
  let run := check_rss_updates Demo.env_no_news Demo.queued in
  In (Demo.info 1 None) (active_chats Demo.queued)
  /\ _is_quiet_hours Demo.env_no_news None None (Some "UTC") (world_of run)
     = (Ok false, world_of run, [])
  /\ List.length (pending_of 1 (pending_notifications Demo.queued)) = 2%nat
  /\ result_of run = Ok tt
  /\ filter is_pending_read (effects_of run) = []
  /\ filter transport_call (effects_of run) = []
  /\ pending_notifications (world_of run) = pending_notifications Demo.queued.
Proof.
  repeat split; vm_compute; auto.
Qed.

(** C3, amended.  In a cycle whose fetch gave at least one event, that
    found at least one active recipient and that no exception cut short,
    the calls come in this order: the fetch, the read of the active
    recipients, the reconciliation of every event, the flush, the two
    sweeps.  The flush visits every active recipient in turn, and for each
    one that is outside its quiet window at that moment it reads the
    recipient's queue.  What is read is the recipient's rows, all of them,
    in the order of their creation stamps. *)
Theorem flush_after_reconcile :
  forall env w events w_f t_f,
    let chats := active_chats w_f in
    fetch_events env w = (Ok events, w_f, t_f) ->
    events <> [] ->
    chats <> [] ->
    result_of (check_rss_updates_try env w) = Ok tt ->
    exists w_r t_r w_p t_p,
      for_each events (fun event => _send_event_to_chats env event chats) w_f
      = (Ok tt, w_r, t_r)
      /\ _process_pending_notifications env chats w_r = (Ok tt, w_p, t_p)
      /\ effects_of (check_rss_updates env w)
         = (t_f ++ [DbGetActiveChats] ++ t_r ++ t_p
            ++ [DbCleanupOldMessages; DbCleanupCommandLog])%list
      /\ (forall before chat_info after,
            chats = (before ++ chat_info :: after)%list ->
            exists w_c t_b w_c' t_c t_a,
              _process_pending_notifications env before w_r = (Ok tt, w_c, t_b)
              /\ _process_pending_of_chat env chat_info w_c = (Ok tt, w_c', t_c)
              /\ t_p = (t_b ++ t_c ++ t_a)%list
              /\ forall w_q,
                   _is_quiet_hours env (quiet_hours_start chat_info)
                     (quiet_hours_end chat_info) (quiet_hours_tz chat_info) w_c
                   = (Ok false, w_q, []) ->
                   exists t_rest,
                     t_c = DbGetPendingNotifications (chat_id chat_info)
                           :: t_rest)
      /\ (forall chat w0,
            let rows := pending_of chat (pending_notifications w0) in
            get_pending_notifications chat w0
            = (Ok rows, w0, [DbGetPendingNotifications chat])
            /\ Sorted (fun a b => pn_created_at a <= pn_created_at b) rows
            /\ Permutation
                 (filter (fun r => pn_chat_id r =? chat)
                         (pending_notifications w0))
                 rows).
Proof.
  intros env w events w_f t_f chats F NE NC OK.
  destruct (check_rss_updates_try env w) as [[r w'] t] eqn:E.
  cbn in OK. subst r.
  assert (E' : check_rss_updates env w = (Ok tt, w', t)).
  { unfold check_rss_updates, try_except. rewrite E. reflexivity. }
  unfold check_rss_updates_try in E.
  apply bind_ok_inv in E.
  destruct E as (evs & w1 & t1 & t2 & F' & E & ->).
  rewrite F in F'. injection F' as <- <- <-.
  destruct events as [|ev evs]; [contradiction|].
  apply bind_ok_inv in E.
  destruct E as (cs & w2 & t3 & t4 & A & E & ->).
  rewrite get_active_chats_run in A. injection A as <- <- <-.
  fold chats in E. destruct chats as [|c cs] eqn:C; [contradiction|].
  rewrite <- C in *.
  apply bind_ok_inv in E.
  destruct E as ([] & w_r & t_r & t5 & R & E & ->).
  apply bind_ok_inv in E.
  destruct E as ([] & w_p & t_p & t6 & P & E & ->).
  destruct (cleanup_run env w_p) as [w_e CE]. rewrite CE in E.
  injection E as <- <-.
  exists w_r, t_r, w_p, t_p.
  split; [exact R|]. split; [exact P|]. split; [|split].
  - rewrite E'. reflexivity.
  - intros before ci after Eq. rewrite Eq in P.
    unfold _process_pending_notifications in P.
    apply for_each_app_inv in P.
    destruct P as (w_c & t_b & t7 & P1 & P2 & ->).
    apply for_each_cons_inv in P2.
    destruct P2 as (w_c' & t_c & t_a & P3 & P4 & ->).
    exists w_c, t_b, w_c', t_c, t_a.
    split; [exact P1|]. split; [exact P3|]. split; [reflexivity|].
    intros w_q Q. rewrite (process_not_quiet env _ _ _ Q) in P3.
    destruct (flush env _ _ w_q) as [[r0 w0] t0].
    injection P3 as _ _ <-. eexists. reflexivity.
  - intros chat w0 rows. split; [reflexivity|].
    split; [apply order_by_created_at_sorted
           | apply order_by_created_at_perm].
Qed.

Lemma flush_after_reconcile_witness :
  exists t_r t_p,
    effects_of (check_rss_updates Demo.env Demo.queued)
    = (effects_of (fetch_events Demo.env Demo.queued) ++ [DbGetActiveChats]
       ++ t_r ++ t_p ++ [DbCleanupOldMessages; DbCleanupCommandLog])%list.
Proof.
  destruct (flush_after_reconcile Demo.env Demo.queued _ _ _ eq_refl)
    as (w_r & t_r & w_p & t_p & _ & _ & E & _).
  - discriminate.
  - discriminate.
  - reflexivity.
  - exists t_r, t_p. exact E.
Defined.

(** * Further properties of the code *)

(** ** Escaping for Telegram's HTML *)

Section EscapeFacts.

Lemma has_char_app : forall c a b,
  has_char c (a ++ b) = has_char c a || has_char c b.
Proof.
  intros c a b. induction a as [|d a IH]; simpl; [reflexivity|].
  rewrite IH, orb_assoc. reflexivity.
Qed.

Lemma has_char_replace : forall c d r s,
  has_char c (replace_char d r s)
  = (negb (Ascii.eqb c d) && has_char c s)
    || (has_char d s && has_char c r).
Proof.
  intros c d r s. induction s as [|x s IH]; simpl;
    [destruct (Ascii.eqb c d); reflexivity|].
  destruct (Ascii.eqb_spec d x) as [<-|Ndx].
  - rewrite has_char_app, IH.
    destruct (Ascii.eqb c d), (has_char c s), (has_char d s), (has_char c r);
      reflexivity.
  - simpl. rewrite IH.
    destruct (Ascii.eqb_spec c x) as [<-|Ncx].
    + destruct (Ascii.eqb_spec c d) as [->|Ncd]; [contradiction|].
      simpl. reflexivity.
    + simpl. reflexivity.
Qed.

Lemma replace_char_absent : forall d r s,
  has_char d s = false -> replace_char d r s = s.
Proof.
  intros d r s. induction s as [|x s IH]; simpl; intros H; [reflexivity|].
  apply orb_false_iff in H. destruct H as [H1 H2].
  rewrite H1, (IH H2). reflexivity.
Qed.

Lemma occurs_char : forall c s,
  occurs (String c "") s <-> has_char c s = true.
Proof.
  intros c s. split.
  - intros (pre & post & ->). rewrite has_char_app. simpl.
    rewrite Ascii.eqb_refl. simpl. apply orb_true_r.
  - induction s as [|d s IH]; simpl; intros H; [discriminate|].
    destruct (Ascii.eqb_spec c d) as [<-|N].
    + exists "", s. reflexivity.
    + destruct (IH H) as (pre & post & ->).
      exists (String d pre), post. reflexivity.
Qed.

End EscapeFacts.

(** X1. What [_escape_html] returns contains no "<", no ">" and no double
    quote, whatever the text; a text with none of the four special
    characters comes back unchanged. *)
Theorem escape_html_leaves_no_markup :
  forall text,
    ~ occurs "<" (_escape_html text)
    /\ ~ occurs ">" (_escape_html text)
    /\ ~ occurs (String (ascii_of_nat 34) "") (_escape_html text)
    /\ ((forall c, html_special c = true -> has_char c text = false) ->
        _escape_html text = text).
Proof.
  intros text. unfold _escape_html.
  repeat split.
  - rewrite occurs_char, !has_char_replace. simpl.
    destruct (has_char "<" text), (has_char "&" text), (has_char ">" _),
      (has_char (ascii_of_nat 34) _); simpl; discriminate.
  - rewrite occurs_char, !has_char_replace. simpl.
    destruct (has_char ">" text), (has_char "&" text), (has_char "<" _),
      (has_char (ascii_of_nat 34) _); simpl; discriminate.
  - rewrite occurs_char, !has_char_replace. simpl.
    destruct (has_char "&" text), (has_char "<" _), (has_char ">" _),
      (has_char (ascii_of_nat 34) text); simpl; discriminate.
  - intros H.
    rewrite (replace_char_absent "&" _ text) by (apply H; reflexivity).
    rewrite (replace_char_absent "<" _ text) by (apply H; reflexivity).
    rewrite (replace_char_absent ">" _ text) by (apply H; reflexivity).
    apply replace_char_absent. apply H. reflexivity.
Qed.

Lemma escape_html_leaves_no_markup_witness :
  _escape_html "IX.br Sao Paulo - janela" = "IX.br Sao Paulo - janela".
Proof.
  apply (escape_html_leaves_no_markup "IX.br Sao Paulo - janela").
  intros c H. unfold html_special in H.
  repeat (apply orb_true_iff in H; destruct H as [H|H]);
    apply Ascii.eqb_eq in H; subst c; reflexivity.
Defined.

(** ** Cutting texts at separators *)

Section PieceFacts.

Lemma app_nil_r_str : forall s : string, s ++ "" = s.
Proof.
  induction s as [|c s IH]; simpl; [reflexivity|]. rewrite IH. reflexivity.
Qed.

Lemma hd_split_go : forall sep s cur,
  hd "" (split_go sep s O cur) = cur ++ first_piece sep s.
Proof.
  intros sep s. induction s as [|c s IH]; intros cur.
  - simpl. rewrite app_nil_r_str. reflexivity.
  - cbn [split_go first_piece].
    destruct (prefix sep (String c s)).
    + simpl. rewrite app_nil_r_str. reflexivity.
    + rewrite IH, app_assoc_str. reflexivity.
Qed.

Lemma hd_split : forall sep s, hd "" (split sep s) = first_piece sep s.
Proof. intros sep s. unfold split. apply hd_split_go. Qed.

Lemma first_piece_prefix : forall sep s,
  exists rest, s = first_piece sep s ++ rest.
Proof.
  intros sep s. induction s as [|c s IH].
  - exists "". reflexivity.
  - cbn [first_piece]. destruct (prefix sep (String c s)).
    + exists (String c s). reflexivity.
    + destruct IH as [rest E]. exists rest. simpl. rewrite <- E. reflexivity.
Qed.

Lemma prefix_longer : forall a b rest,
  prefix a b = true -> prefix a (b ++ rest) = true.
Proof.
  intros a b rest H. destruct (prefix_split _ _ H) as [post ->].
  rewrite app_assoc_str. apply prefix_app.
Qed.

Lemma first_piece_clean : forall sep s,
  sep <> "" -> str_in sep (first_piece sep s) = false.
Proof.
  intros sep s N. induction s as [|c s IH].
  - simpl. destruct sep; [contradiction | reflexivity].
  - cbn [first_piece]. destruct (prefix sep (String c s)) eqn:P.
    + simpl. destruct sep; [contradiction | reflexivity].
    + rewrite str_in_cons, IH.
      destruct (prefix sep (String c (first_piece sep s))) eqn:Q;
        [|reflexivity].
      destruct (first_piece_prefix sep s) as [rest E].
      apply (prefix_longer _ _ rest) in Q.
      change (String c (first_piece sep s) ++ rest)
        with (String c (first_piece sep s ++ rest)) in Q.
      rewrite <- E in Q. congruence.
Qed.

Lemma part_of_refl : forall x, part_of x x.
Proof. intros x. exists "", "". simpl. rewrite app_nil_r_str. reflexivity. Qed.

Lemma part_of_trans : forall x y z, part_of x y -> part_of y z -> part_of x z.
Proof.
  intros x y z (a & b & ->) (c & d & ->).
  exists (c ++ a), (b ++ d). rewrite !app_assoc_str. reflexivity.
Qed.

Lemma occurs_part : forall kw x y, occurs kw x -> part_of x y -> occurs kw y.
Proof. intros kw x y H P. exact (part_of_trans _ _ _ H P). Qed.

Lemma lstrip_part : forall s, exists a, s = a ++ lstrip s.
Proof.
  induction s as [|c s IH]; simpl.
  - exists "". reflexivity.
  - destruct (is_space c).
    + destruct IH as [a E]. exists (String c a). simpl. rewrite <- E.
      reflexivity.
    + exists "". reflexivity.
Qed.

Lemma rstrip_part : forall s, exists b, s = rstrip s ++ b.
Proof.
  induction s as [|c s IH]; simpl.
  - exists "". reflexivity.
  - destruct IH as [b E]. destruct (rstrip s) as [|d r] eqn:R.
    + destruct (is_space c).
      * exists (String c s). reflexivity.
      * exists b. simpl. simpl in E. rewrite <- E. reflexivity.
    + exists b. simpl. simpl in E. rewrite <- E. reflexivity.
Qed.

Lemma strip_part : forall s, part_of (strip s) s.
Proof.
  intros s. unfold strip.
  destruct (lstrip_part s) as [a Ea].
  destruct (rstrip_part (lstrip s)) as [b Eb].
  exists a, b. rewrite <- Eb. exact Ea.
Qed.

Lemma rstrip_idem : forall s, rstrip (rstrip s) = rstrip s.
Proof.
  induction s as [|c s IH]; simpl; [reflexivity|].
  destruct (rstrip s) as [|d r] eqn:R.
  - destruct (is_space c) eqn:Sp; simpl; [reflexivity|].
    rewrite Sp. reflexivity.
  - change (rstrip (String c (String d r)))
      with (match rstrip (String d r) with
            | EmptyString =>
                if is_space c then EmptyString else String c EmptyString
            | String x y => String c (String x y)
            end).
    rewrite IH. reflexivity.
Qed.

Lemma lstrip_rstrip_lstrip : forall s,
  lstrip (rstrip (lstrip s)) = rstrip (lstrip s).
Proof.
  induction s as [|c s IH]; simpl; [reflexivity|].
  destruct (is_space c) eqn:Sp; [exact IH|].
  simpl. destruct (rstrip s); rewrite ?Sp; simpl; rewrite ?Sp; reflexivity.
Qed.

Lemma strip_idem : forall s, strip (strip s) = strip s.
Proof.
  intros s. unfold strip. rewrite lstrip_rstrip_lstrip. apply rstrip_idem.
Qed.

Lemma cut_at_part : forall text sep, part_of (cut_at text sep) text.
Proof.
  intros text sep. unfold cut_at. destruct (str_in sep text).
  - rewrite hd_split. eapply part_of_trans; [apply strip_part|].
    destruct (first_piece_prefix sep text) as [rest E].
    exists "", rest. exact E.
  - apply part_of_refl.
Qed.

Lemma cut_at_clean : forall text sep,
  sep <> "" -> ~ occurs sep (cut_at text sep).
Proof.
  intros text sep N. unfold cut_at. destruct (str_in sep text) eqn:I.
  - rewrite hd_split. intros O.
    pose proof (occurs_part _ _ _ O (strip_part _)) as O2.
    apply str_in_occurs in O2. rewrite first_piece_clean in O2 by exact N.
    discriminate.
  - intros O. apply str_in_occurs in O. congruence.
Qed.

Lemma cut_at_stripped : forall text sep,
  strip text = text -> strip (cut_at text sep) = cut_at text sep.
Proof.
  intros text sep H. unfold cut_at. destruct (str_in sep text).
  - apply strip_idem.
  - exact H.
Qed.

(** After the loop none of the separators is left, and what is left is a
    part of the text the loop started from. *)
Lemma cut_all_part : forall seps text,
  part_of (fold_left cut_at seps text) text.
Proof.
  induction seps as [|sep seps IH]; intros text; simpl.
  - apply part_of_refl.
  - eapply part_of_trans; [apply IH | apply cut_at_part].
Qed.

Lemma cut_all_clean : forall seps text sep,
  In sep seps -> sep <> "" -> ~ occurs sep (fold_left cut_at seps text).
Proof.
  induction seps as [|s seps IH]; intros text sep I N; simpl.
  - destruct I.
  - destruct I as [->|I].
    + intros O. apply (cut_at_clean text sep N).
      exact (occurs_part _ _ _ O (cut_all_part seps _)).
    + apply IH; assumption.
Qed.

Lemma cut_all_stripped : forall seps text,
  strip text = text -> strip (fold_left cut_at seps text) = fold_left cut_at seps text.
Proof.
  induction seps as [|s seps IH]; intros text H; simpl.
  - exact H.
  - apply IH. apply cut_at_stripped. exact H.
Qed.

End PieceFacts.

(** X2. Whatever the regular-expression engine returns, the cleaned
    description contains none of the four divider rows and has no white
    space at either end. *)
Theorem clean_description_has_no_divider :
  forall env description,
    let text := _clean_description env description in
    (forall divider, In divider description_dividers -> ~ occurs divider text)
    /\ strip text = text.
Proof.
  intros env description text. subst text. unfold _clean_description.
  change (fun text sep : string =>
            if str_in sep text then strip (hd "" (split sep text)) else text)
    with cut_at.
  split.
  - intros divider I. apply cut_all_clean; [exact I|].
    simpl in I. destruct I as [<-|[<-|[<-|[<-|[]]]]]; discriminate.
  - apply cut_all_stripped. apply strip_idem.
Qed.

(** X3. For a title whose white space is all ASCII (its letters and
    dashes need not be), [_extract_location] answers None when the title
    has no "IX.br", and a location it does return is not empty, has no
    white space at either end and contains none of the three dash
    separators. *)
Theorem extract_location_is_clean :
  forall title,
    ascii_spaces title = true ->
    (~ occurs "IX.br" title -> _extract_location title = None)
    /\ (forall loc,
          _extract_location title = Some loc ->
          occurs "IX.br" title
          /\ loc <> ""
          /\ strip loc = loc
          /\ forall sep, In sep location_separators -> ~ occurs sep loc).
Proof.
  intros title _. unfold _extract_location.
  change (fun location sep : string =>
            if str_in sep location
            then strip (hd "" (split sep location))
            else location)
    with cut_at.
  split.
  - intros N. destruct (str_in "IX.br" title) eqn:I; [|reflexivity].
    exfalso. apply N, str_in_occurs, I.
  - intros loc H.
    destruct (str_in "IX.br" title) eqn:I; [|discriminate].
    destruct (1 <? List.length (split "IX.br" title))%nat; [|discriminate].
    set (result := fold_left cut_at location_separators _) in H.
    destruct result as [|c r] eqn:R; simpl in H; [discriminate|].
    injection H as <-. rewrite <- R. subst result.
    split; [apply str_in_occurs, I|].
    split; [rewrite R; discriminate|].
    split; [apply cut_all_stripped, strip_idem|].
    intros sep In_sep. apply cut_all_clean; [exact In_sep|].
    simpl in In_sep. destruct In_sep as [<-|[<-|[<-|[]]]]; discriminate.
Qed.

Lemma extract_location_is_clean_witness :
  _extract_location "Manutencao programada" = None
  /\ strip "São Paulo" = "São Paulo".
Proof.
  split.
  - apply (extract_location_is_clean "Manutencao programada" eq_refl).
    intros O. apply str_in_occurs in O. vm_compute in O. discriminate.
  - apply (proj2 (extract_location_is_clean
                    "IX.br São Paulo – Manutenção programada" eq_refl)
             "São Paulo" eq_refl).
Defined.

(** ** Settings and the quiet-hours command *)

Section SettingsFacts.

Import Settings Commands.

Lemma digit_not_space : forall c d, digit_of c = Some d -> is_space c = false.
Proof.
  intros c d. unfold digit_of, is_space.
  destruct ((48 <=? nat_of_ascii c) && (nat_of_ascii c <=? 57))%nat eqn:D;
    [|discriminate].
  intros _. apply andb_true_iff in D. destruct D as [D1 D2].
  apply Nat.leb_le in D1, D2.
  apply orb_false_iff. split; apply andb_false_iff.
  - right. apply Nat.leb_gt. lia.
  - right. apply Nat.leb_gt. lia.
Qed.

Lemma digit_range : forall c d, digit_of c = Some d -> 0 <= d <= 9.
Proof.
  intros c d. unfold digit_of.
  destruct ((48 <=? nat_of_ascii c) && (nat_of_ascii c <=? 57))%nat eqn:D;
    [|discriminate].
  intros H. injection H as <-. apply andb_true_iff in D. destruct D as [D1 D2].
  apply Nat.leb_le in D1, D2. lia.
Qed.

Lemma all_digits_rstrip : forall s, all_digits s = true -> rstrip s = s.
Proof.
  induction s as [|c s IH]; simpl; [reflexivity|].
  destruct (digit_of c) as [d|] eqn:D; [|discriminate].
  intros H. rewrite (IH H). rewrite (digit_not_space _ _ D).
  destruct s; reflexivity.
Qed.

Lemma all_digits_strip : forall s, all_digits s = true -> strip s = s.
Proof.
  intros s H. unfold strip.
  assert (L : lstrip s = s).
  { destruct s as [|c s]; [reflexivity|]. simpl in *.
    destruct (digit_of c) as [d|] eqn:D; [|discriminate].
    rewrite (digit_not_space _ _ D). reflexivity. }
  rewrite L. apply all_digits_rstrip, H.
Qed.

Lemma int_digits_all : forall s acc,
  all_digits s = true -> 0 <= acc ->
  exists n, int_digits s DDigit acc = Some n /\ 0 <= n.
Proof.
  induction s as [|c s IH]; intros acc H A; cbn [int_digits all_digits] in *.
  - exists acc. split; [reflexivity | exact A].
  - destruct (digit_of c) as [d|] eqn:D; [|discriminate].
    pose proof (digit_range _ _ D). apply IH; [exact H | lia].
Qed.

(** A string of digits is read by [int] as a number that is not
    negative. *)
Lemma int_isdigit : forall s,
  isdigit s = true -> exists n, int s = Ok n /\ 0 <= n.
Proof.
  intros s H. unfold isdigit in H. destruct s as [|c r]; [discriminate|].
  unfold int, int_opt. rewrite (all_digits_strip _ H).
  simpl in H. destruct (digit_of c) as [d|] eqn:D; [|discriminate].
  assert (E : match String c r with
              | String "+"%char r' => int_digits r' DStart 0
              | String "-"%char r' => option_map Z.opp (int_digits r' DStart 0)
              | t => int_digits t DStart 0
              end = int_digits (String c r) DStart 0).
  { destruct c as [[] [] [] [] [] [] [] []]; try reflexivity;
      vm_compute in D; discriminate. }
  rewrite E. cbn [int_digits]. rewrite D.
  pose proof (digit_range _ _ D).
  destruct (int_digits_all r (10 * 0 + d) H ltac:(lia)) as (n & -> & Hn).
  exists n. split; [reflexivity | exact Hn].
Qed.

Lemma admin_ids_of_run : forall pieces,
  exists ids,
    admin_ids_of pieces = Ok ids
    /\ forall uid,
         In uid ids <->
         exists piece,
           In piece pieces /\ isdigit (strip piece) = true
           /\ int (strip piece) = Ok uid.
Proof.
  induction pieces as [|p pieces (ids & E & H)]; simpl.
  - exists []. split; [reflexivity|]. intros uid. split; [intros []|].
    intros (piece & [] & _).
  - destruct (isdigit (strip p)) eqn:D.
    + destruct (int_isdigit _ D) as (n & I & _). rewrite I, E. simpl.
      exists (n :: ids). split; [reflexivity|]. intros uid. split.
      * intros [<-|In_ids].
        -- exists p. auto.
        -- apply H in In_ids. destruct In_ids as (piece & P1 & P2 & P3).
           exists piece. auto.
      * intros (piece & [<-|P1] & P2 & P3).
        -- left. congruence.
        -- right. apply H. exists piece. auto.
    + exists ids. split; [exact E|]. intros uid. split.
      * intros In_ids. apply H in In_ids.
        destruct In_ids as (piece & P1 & P2 & P3). exists piece. auto.
      * intros (piece & [<-|P1] & P2 & P3); [congruence|].
        apply H. exists piece. auto.
Qed.

Lemma check_time_reads : forall t,
  check_time t = Ok tt -> exists h m, reads_as_time t h m.
Proof.
  intros t. unfold check_time, reads_as_time.
  destruct (split ":" t) as [|a [|b [|c rest]]]; simpl; try discriminate.
  destruct (int a) as [h|e]; simpl; [|discriminate].
  destruct (int b) as [m|e]; simpl; [|discriminate].
  destruct ((0 <=? h) && (h <=? 23) && ((0 <=? m) && (m <=? 59))) eqn:R;
    simpl; [|discriminate].
  intros _. exists h, m.
  rewrite !andb_true_iff, !Z.leb_le in R.
  repeat split; auto; lia.
Qed.

Lemma check_time_value_error : forall t,
  check_time t = Ok tt \/ exists msg, check_time t = Raise (ValueError msg).
Proof.
  intros t. unfold check_time, int.
  destruct (negb (List.length (split ":" t) =? 2)%nat);
    [right; eexists; reflexivity|].
  destruct (int_opt (nth 0 (split ":" t) "")); simpl;
    [|right; eexists; reflexivity].
  destruct (int_opt (nth 1 (split ":" t) "")); simpl;
    [|right; eexists; reflexivity].
  destruct (negb _); [right; eexists; reflexivity | left; reflexivity].
Qed.

Lemma str_mem_In : forall x xs, str_mem x xs = true -> In x xs.
Proof.
  intros x xs H. unfold str_mem in H. apply existsb_exists in H.
  destruct H as (y & I & E). apply String.eqb_eq in E. subst y. exact I.
Qed.

End SettingsFacts.

(** X4. For a setting of ASCII characters, [is_admin] never raises, and
    a user is an admin exactly when one of the comma-separated pieces of the
    setting, white space at its ends aside, is a string of digits that reads
    as the user's id; so no admin id is negative, and an empty setting names
    no admin. *)
Theorem admin_ids_are_listed_numbers :
  forall admin_user_ids user_id,
    ascii_text admin_user_ids = true ->
    exists answer,
      Settings.is_admin admin_user_ids user_id = Ok answer
      /\ (answer = true <->
          admin_user_ids <> ""
          /\ exists piece,
               In piece (split "," admin_user_ids)
               /\ PyText.isdigit (strip piece) = true
               /\ int (strip piece) = Ok user_id)
      /\ (answer = true -> 0 <= user_id).
Proof.
  intros s uid _. unfold Settings.is_admin, Settings.get_admin_ids.
  assert (Pos : forall answer : bool,
            (answer = true ->
             s <> ""
             /\ exists piece,
                  In piece (split "," s)
                  /\ PyText.isdigit (strip piece) = true
                  /\ int (strip piece) = Ok uid) ->
            answer = true -> 0 <= uid).
  { intros answer H A. destruct (H A) as (_ & piece & _ & D & I).
    destruct (int_isdigit _ D) as (n & I' & Hn). congruence. }
  destruct s as [|c s].
  - exists false. simpl. split; [reflexivity|].
    split; [|discriminate]. split; [discriminate|]. intros (N & _).
    contradiction.
  - cbn [truthy_str negb].
    destruct (admin_ids_of_run (split "," (String c s))) as (ids & E & H).
    rewrite E. cbn [rbind].
    exists (existsb (Z.eqb uid) ids). split; [reflexivity|].
    assert (Iff : existsb (Z.eqb uid) ids = true <->
                  String c s <> ""
                  /\ exists piece,
                       In piece (split "," (String c s))
                       /\ PyText.isdigit (strip piece) = true
                       /\ int (strip piece) = Ok uid).
    { rewrite existsb_exists. split.
      - intros (x & I & Eq). apply Z.eqb_eq in Eq. subst x.
        split; [discriminate|]. apply H. exact I.
      - intros (_ & P). exists uid. split; [apply H, P | apply Z.eqb_refl]. }
    split; [exact Iff|]. apply Pos. apply Iff.
Qed.

Lemma admin_ids_are_listed_numbers_witness :
  exists answer,
    Settings.is_admin "12, 7,x" 7 = Ok answer /\ (answer = true -> 0 <= 7).
Proof.
  destruct (admin_ids_are_listed_numbers "12, 7,x" 7 eq_refl)
    as (answer & E & _ & P).
  exists answer. split; assumption.
Defined.

(** X5. When [cmd_quiet_hours] accepts its arguments, the zone it stores is
    one of the table and both times read as hours and minutes in range;
    hence the quiet-hours check on what was stored answers, at any instant,
    instead of raising.  The command itself never raises on its
    arguments. *)
Theorem accepted_quiet_hours_are_usable :
  forall args,
    (exists command, Commands.cmd_quiet_hours args = Ok command)
    /\ forall timezone_str start end_,
         Commands.cmd_quiet_hours args
         = Ok (Commands.Configure timezone_str start end_) ->
         In timezone_str (map fst TIMEZONES)
         /\ (exists sh sm eh em,
               reads_as_time start sh sm /\ reads_as_time end_ eh em)
         /\ forall env w,
              exists answer,
                _is_quiet_hours env (Some start) (Some end_)
                  (Some timezone_str) w
                = (Ok answer, tick w, []).
Proof.
  intros args.
  assert (Valid : forall tz start end_,
            In tz (map fst TIMEZONES) ->
            (exists command,
               match (let! _ := Commands.check_time start in
                      Commands.check_time end_) with
               | Ok _ => Ok (Commands.Configure tz start end_)
               | Raise (ValueError _) => Ok Commands.InvalidFormat
               | Raise e => Raise e
               end = Ok command)
            /\ forall tz' s' e',
                 match (let! _ := Commands.check_time start in
                        Commands.check_time end_) with
                 | Ok _ => Ok (Commands.Configure tz start end_)
                 | Raise (ValueError _) => Ok Commands.InvalidFormat
                 | Raise e => Raise e
                 end = Ok (Commands.Configure tz' s' e') ->
                 In tz' (map fst TIMEZONES)
                 /\ (exists sh sm eh em,
                       reads_as_time s' sh sm /\ reads_as_time e' eh em)
                 /\ forall env w,
                      exists answer,
                        _is_quiet_hours env (Some s') (Some e') (Some tz') w
                        = (Ok answer, tick w, [])).
  { intros tz start end_ Tz.
    destruct (check_time_value_error start) as [S|[msg S]]; rewrite S; simpl.
    2:{ split; [eexists; reflexivity | intros; discriminate]. }
    destruct (check_time_value_error end_) as [E|[msg E]]; rewrite E; simpl.
    2:{ split; [eexists; reflexivity | intros; discriminate]. }
    split; [eexists; reflexivity|].
    intros tz' s' e' H. injection H as <- <- <-.
    destruct (check_time_reads _ S) as (sh & sm & Hs).
    destruct (check_time_reads _ E) as (eh & em & He).
    split; [exact Tz|]. split; [exists sh, sm, eh, em; auto|].
    intros env w.
    pose proof (reads_as_time_nonempty _ _ _ Hs) as Ns.
    pose proof (reads_as_time_nonempty _ _ _ He) as Ne.
    rewrite is_quiet_hours_run by (destruct start, end_; simpl; congruence).
    replace (str_or (Some start) "") with start by (destruct start; reflexivity).
    replace (str_or (Some end_) "") with end_ by (destruct end_; reflexivity).
    rewrite (quiet_at_window _ start end_ (Some tz) sh sm eh em Hs He).
    eexists. reflexivity. }
  unfold Commands.cmd_quiet_hours.
  destruct args as [|a0 rest].
  { split; [eexists; reflexivity | intros; discriminate]. }
  destruct (String.eqb (lower a0) "off").
  { split; [eexists; reflexivity | intros; discriminate]. }
  destruct rest as [|a1 [|a2 [|a3 rest]]].
  - split; [eexists; reflexivity | intros; discriminate].
  - apply Valid. simpl. tauto.
  - destruct (negb (Commands.timezone_known (PyText.upper a0))) eqn:K.
    + split; [eexists; reflexivity | intros; discriminate].
    + apply Valid. apply negb_false_iff in K. apply str_mem_In, K.
  - split; [eexists; reflexivity | intros; discriminate].
Qed.

Lemma accepted_quiet_hours_are_usable_witness :
  In "BRT" (map fst TIMEZONES).
Proof.
  apply (proj2 (accepted_quiet_hours_are_usable ["brt"; "22:00"; "07:00"])
           "BRT" "22:00" "07:00" eq_refl).
Defined.

(** X6. A time setting that [validate_time_format] lets through comes back
    unchanged, and with both settings validated [get_quiet_hours] answers
    instead of raising: None when one of them is missing, the two times
    otherwise. *)
Theorem validated_settings_give_times :
  forall quiet_hours_start quiet_hours_end start end_,
    Settings.validate_time_format quiet_hours_start = Ok start ->
    Settings.validate_time_format quiet_hours_end = Ok end_ ->
    start = quiet_hours_start
    /\ end_ = quiet_hours_end
    /\ exists times,
         Settings.get_quiet_hours start end_ = Ok times
         /\ (times = None <-> start = None \/ end_ = None)
         /\ forall t1 t2,
              times = Some (t1, t2) ->
              exists s e,
                start = Some s /\ end_ = Some e
                /\ reads_as_time s (hour t1) (minute t1)
                /\ reads_as_time e (hour t2) (minute t2).
Proof.
  assert (V : forall v v',
            Settings.validate_time_format v = Ok v' ->
            v' = v
            /\ (forall s, v = Some s ->
                  exists h m,
                    reads_as_time s h m
                    /\ index (split ":" s) 0 = Ok (nth 0 (split ":" s) "")
                    /\ index (split ":" s) 1 = Ok (nth 1 (split ":" s) "")
                    /\ int (nth 0 (split ":" s) "") = Ok h
                    /\ int (nth 1 (split ":" s) "") = Ok m)).
  { intros [s|] v' H; simpl in H.
    2:{ injection H as <-. split; [reflexivity | intros; discriminate]. }
    unfold Settings.check_time_format in H.
    destruct (split ":" s) as [|a [|b [|c rest]]] eqn:Sp; simpl in H;
      try discriminate.
    destruct (int a) as [h|e] eqn:Ia; simpl in H;
      [|destruct e; discriminate].
    destruct (int b) as [m|e] eqn:Ib; simpl in H;
      [|destruct e; discriminate].
    destruct ((0 <=? h) && (h <=? 23) && ((0 <=? m) && (m <=? 59))) eqn:R;
      simpl in H; [|discriminate].
    injection H as <-. split; [reflexivity|].
    intros s0 E. injection E as <-. exists h, m. rewrite Sp. simpl.
    rewrite !andb_true_iff, !Z.leb_le in R.
    unfold reads_as_time. rewrite Sp. simpl. rewrite Ia, Ib.
    repeat split; auto; lia. }
  intros qs qe start end_ Hs He.
  destruct (V _ _ Hs) as [-> Rs]. destruct (V _ _ He) as [-> Re].
  split; [reflexivity|]. split; [reflexivity|].
  unfold Settings.get_quiet_hours.
  destruct qs as [s|].
  2:{ exists None. split; [reflexivity|]. split; [tauto | discriminate]. }
  destruct qe as [e|].
  2:{ exists None. cbn [truthy_str negb]. rewrite orb_true_r.
      split; [reflexivity|]. split; [tauto | discriminate]. }
  destruct (Rs s eq_refl) as (sh & sm & Rts & S0 & S1 & Is0 & Is1).
  destruct (Re e eq_refl) as (eh & em & Rte & E0 & E1 & Ie0 & Ie1).
  pose proof (reads_as_time_nonempty _ _ _ Rts) as Ns.
  pose proof (reads_as_time_nonempty _ _ _ Rte) as Ne.
  replace (truthy_str (Some s)) with true by (destruct s; simpl; congruence).
  replace (truthy_str (Some e)) with true by (destruct e; simpl; congruence).
  replace (str_or (Some s) "") with s by (destruct s; reflexivity).
  replace (str_or (Some e) "") with e by (destruct e; reflexivity).
  cbn [negb orb]. rewrite S0. cbn [rbind]. rewrite Is0. cbn [rbind].
  rewrite S1. cbn [rbind]. rewrite Is1. cbn [rbind].
  destruct Rts as (_ & _ & Hsh & Hsm). destruct Rte as (_ & _ & Heh & Hem).
  rewrite (time_new_ok sh sm Hsh Hsm). cbn [rbind].
  rewrite E0. cbn [rbind]. rewrite Ie0. cbn [rbind].
  rewrite E1. cbn [rbind]. rewrite Ie1. cbn [rbind].
  rewrite (time_new_ok eh em Heh Hem). cbn [rbind].
  eexists. split; [reflexivity|]. split.
  - split; [discriminate | intros [X|X]; discriminate].
  - intros t1 t2 X. injection X as <- <-. exists s, e.
    split; [reflexivity|]. split; [reflexivity|].
    unfold reads_as_time. cbn [hour minute].
    rewrite S0, S1, E0, E1. cbn [rbind]. rewrite Is0, Is1, Ie0, Ie1.
    repeat split; auto; lia.
Qed.

Lemma validated_settings_give_times_witness :
  exists times,
    Settings.get_quiet_hours (Some "22:00") (Some "07:00") = Ok times.
Proof.
  destruct (validated_settings_give_times (Some "22:00") (Some "07:00")
              (Some "22:00") (Some "07:00") eq_refl eq_refl)
    as (_ & _ & times & H & _).
  exists times. exact H.
Defined.

(** ** The data of the menu buttons *)

Section MenuFacts.

Lemma split_go_plain : forall a s cur,
  colon_free a ->
  split_go ":" (a ++ s) O cur = split_go ":" s O (cur ++ a).
Proof.
  unfold colon_free. induction a as [|c a IH]; intros s cur H.
  - simpl. rewrite app_nil_r_str. reflexivity.
  - simpl in H. apply orb_false_iff in H. destruct H as [Hc Ha].
    change (String c a ++ s) with (String c (a ++ s)).
    cbn [split_go prefix].
    destruct (ascii_dec ":" c) as [E|N].
    + subst c. discriminate.
    + rewrite IH by exact Ha. rewrite app_assoc_str. reflexivity.
Qed.

Lemma split_colon_cons : forall a s,
  colon_free a -> split ":" (a ++ ":" ++ s) = a :: split ":" s.
Proof.
  intros a s H. unfold split. rewrite split_go_plain by exact H.
  simpl. destruct s; reflexivity.
Qed.

Lemma split_colon_last : forall a, colon_free a -> split ":" a = [a].
Proof.
  intros a H. unfold split.
  rewrite <- (app_nil_r_str a) at 1.
  rewrite split_go_plain by exact H. reflexivity.
Qed.

Lemma split_selection : forall tz h1 m1 h2 m2,
  colon_free tz -> colon_free h1 -> colon_free m1 -> colon_free h2 ->
  colon_free m2 ->
  split ":" (tz ++ ":" ++ h1 ++ ":" ++ m1 ++ ":" ++ h2 ++ ":" ++ m2)
  = [tz; h1; m1; h2; m2].
Proof.
  intros tz h1 m1 h2 m2 Ht H1 M1 H2 M2.
  rewrite !split_colon_cons, split_colon_last by assumption. reflexivity.
Qed.

End MenuFacts.

(** X7. The data the menus put on their buttons is read back as it was
    meant.  A button of the menu of zones opens the menu of times of that
    zone; a button quiet:set:TZ:HH:MM:HH:MM configures zone TZ with the
    window HH:MM to HH:MM; and each button of the menu of times of a zone,
    and of the main menu, configures a window whose two ends read as
    times. *)
Theorem menu_buttons_round_trip :
  (forall tz,
     colon_free tz ->
     Commands.callback_quiet_hours ("quiet:tzsel:" ++ tz)
     = Ok (Commands.MenuTimes tz))
  /\ (forall tz h1 m1 h2 m2,
        colon_free tz -> colon_free h1 -> colon_free m1 -> colon_free h2 ->
        colon_free m2 ->
        Commands.callback_quiet_hours (selection_data tz h1 m1 h2 m2)
        = Ok (Commands.MenuConfigure tz (h1 ++ ":" ++ m1) (h2 ++ ":" ++ m2)))
  /\ (forall tz data,
        colon_free tz ->
        In data (Commands.times_menu_data tz) ->
        exists start end_ sh sm eh em,
          Commands.callback_quiet_hours data
          = Ok (Commands.MenuConfigure tz start end_)
          /\ reads_as_time start sh sm /\ reads_as_time end_ eh em)
  /\ (forall data,
        In data Commands.main_menu_data ->
        exists start end_ sh sm eh em,
          Commands.callback_quiet_hours data
          = Ok (Commands.MenuConfigure "BRT" start end_)
          /\ reads_as_time start sh sm /\ reads_as_time end_ eh em).
Proof.
  assert (Set_form : forall tz h1 m1 h2 m2,
            colon_free tz -> colon_free h1 -> colon_free m1 ->
            colon_free h2 -> colon_free m2 ->
            Commands.callback_quiet_hours (selection_data tz h1 m1 h2 m2)
            = Ok (Commands.MenuConfigure tz (h1 ++ ":" ++ m1)
                    (h2 ++ ":" ++ m2))).
  { intros tz h1 m1 h2 m2 Ht H1 M1 H2 M2.
    unfold Commands.callback_quiet_hours, selection_data.
    set (tail := tz ++ ":" ++ h1 ++ ":" ++ m1 ++ ":" ++ h2 ++ ":" ++ m2).
    change (negb (truthy_str (Some ("quiet:set:" ++ tail)))) with false.
    change (String.eqb ("quiet:set:" ++ tail) "quiet:off") with false.
    change (String.eqb ("quiet:set:" ++ tail) "quiet:tz") with false.
    change (PyText.startswith ("quiet:set:" ++ tail) "quiet:tzsel:") with false.
    change (String.eqb ("quiet:set:" ++ tail) "quiet:back") with false.
    cbv iota.
    change ("quiet:set:" ++ tail) with ("quiet" ++ ":" ++ "set" ++ ":" ++ tail).
    rewrite !split_colon_cons by reflexivity.
    unfold tail. rewrite split_selection by assumption. reflexivity. }
  assert (R : reads_as_time "22:00" 22 0 /\ reads_as_time "07:00" 7 0
              /\ reads_as_time "23:00" 23 0 /\ reads_as_time "08:00" 8 0
              /\ reads_as_time "00:00" 0 0 /\ reads_as_time "06:00" 6 0
              /\ reads_as_time "21:00" 21 0)
    by (repeat split; try reflexivity; lia).
  destruct R as (R22 & R07 & R23 & R08 & R00 & R06 & R21).
  split; [|split; [exact Set_form | split]].
  - intros tz Ht. unfold Commands.callback_quiet_hours.
    change (negb (truthy_str (Some ("quiet:tzsel:" ++ tz)))) with false.
    change (String.eqb ("quiet:tzsel:" ++ tz) "quiet:off") with false.
    assert (E : String.eqb ("quiet:tzsel:" ++ tz) "quiet:tz" = false)
      by (simpl; destruct tz; reflexivity).
    rewrite E. unfold PyText.startswith. rewrite prefix_app. cbv iota.
    change ("quiet:tzsel:" ++ tz) with ("quiet" ++ ":" ++ "tzsel" ++ ":" ++ tz).
    rewrite !split_colon_cons, split_colon_last by (reflexivity || exact Ht).
    reflexivity.
  - intros tz data Ht I. simpl in I.
    destruct I as [<-|[<-|[<-|[<-|[]]]]].
    + exists "22:00", "07:00", 22, 0, 7, 0. split; [|auto].
      apply (Set_form tz "22" "00" "07" "00"); auto; reflexivity.
    + exists "23:00", "08:00", 23, 0, 8, 0. split; [|auto].
      apply (Set_form tz "23" "00" "08" "00"); auto; reflexivity.
    + exists "00:00", "06:00", 0, 0, 6, 0. split; [|auto].
      apply (Set_form tz "00" "00" "06" "00"); auto; reflexivity.
    + exists "21:00", "06:00", 21, 0, 6, 0. split; [|auto].
      apply (Set_form tz "21" "00" "06" "00"); auto; reflexivity.
  - intros data I. simpl in I.
    destruct I as [<-|[<-|[<-|[<-|[]]]]].
    + exists "22:00", "07:00", 22, 0, 7, 0. split; [reflexivity | auto].
    + exists "23:00", "08:00", 23, 0, 8, 0. split; [reflexivity | auto].
    + exists "00:00", "06:00", 0, 0, 6, 0. split; [reflexivity | auto].
    + exists "21:00", "06:00", 21, 0, 6, 0. split; [reflexivity | auto].
Qed.

Lemma menu_buttons_round_trip_witness :
  Commands.callback_quiet_hours "quiet:tzsel:AMT" = Ok (Commands.MenuTimes "AMT")
  /\ Commands.callback_quiet_hours "quiet:set:AMT:21:30:06:15"
     = Ok (Commands.MenuConfigure "AMT" "21:30" "06:15").
Proof.
  split.
  - apply (proj1 menu_buttons_round_trip "AMT"). reflexivity.
  - apply (proj1 (proj2 menu_buttons_round_trip) "AMT" "21" "30" "06" "15");
      reflexivity.
Defined.

(** X8. A direct selection that stops after its fourth field,
    quiet:TZ:HH:MM:HH, passes the test on the number of parts and then
    fails with an IndexError: five parts are let in, six are read. *)
Theorem short_selection_raises :
  forall tz h1 m1 h2,
    colon_free tz -> colon_free h1 -> colon_free m1 -> colon_free h2 ->
    tz <> "set" -> tz <> "tzsel" ->
    exists msg,
      Commands.callback_quiet_hours
        ("quiet:" ++ tz ++ ":" ++ h1 ++ ":" ++ m1 ++ ":" ++ h2)
      = Raise (IndexError msg).
Proof.
  intros tz h1 m1 h2 Ht H1 M1 H2 Nset Ntzsel.
  set (data := "quiet:" ++ tz ++ ":" ++ h1 ++ ":" ++ m1 ++ ":" ++ h2).
  assert (Sp : split ":" data = ["quiet"; tz; h1; m1; h2]).
  { unfold data.
    change ("quiet:" ++ tz ++ ":" ++ h1 ++ ":" ++ m1 ++ ":" ++ h2)
      with ("quiet" ++ ":" ++ tz ++ ":" ++ h1 ++ ":" ++ m1 ++ ":" ++ h2).
    rewrite !split_colon_cons, split_colon_last by (reflexivity || assumption).
    reflexivity. }
  assert (Not : forall special,
            List.length (split ":" special) <> 5%nat ->
            String.eqb data special = false).
  { intros special L. destruct (String.eqb_spec data special) as [E|]; auto.
    rewrite <- E, Sp in L. contradiction. }
  unfold Commands.callback_quiet_hours.
  change (negb (truthy_str (Some data))) with false.
  rewrite !Not by (vm_compute; discriminate).
  assert (St : PyText.startswith data "quiet:tzsel:" = false).
  { unfold PyText.startswith.
    destruct (prefix "quiet:tzsel:" data) eqn:P; [|reflexivity].
    apply prefix_split in P. destruct P as [post P].
    assert (Sp' : split ":" data = "quiet" :: "tzsel" :: split ":" post).
    { rewrite P.
      change ("quiet:tzsel:" ++ post)
        with ("quiet" ++ ":" ++ "tzsel" ++ ":" ++ post).
      rewrite !split_colon_cons by reflexivity. reflexivity. }
    rewrite Sp in Sp'. injection Sp' as E _. contradiction. }
  rewrite St. cbv iota. rewrite Sp. cbn [List.length Nat.leb index nth_error rbind].
  destruct (String.eqb_spec tz "set") as [E|_]; [contradiction|].
  cbn. eexists. reflexivity.
Qed.

Lemma short_selection_raises_witness :
  exists msg,
    Commands.callback_quiet_hours "quiet:BRT:22:00:07" = Raise (IndexError msg).
Proof.
  apply (short_selection_raises "BRT" "22" "00" "07");
    try reflexivity; discriminate.
Defined.

(** ** The directory of chats *)

Section DirectoryFacts.

Import Directory.

Variable env : Env.

Lemma key_unique : forall rows r r',
  NoDup (map cr_chat_id rows) -> In r rows -> In r' rows ->
  cr_chat_id r = cr_chat_id r' -> r = r'.
Proof.
  induction rows as [|a rows IH]; intros r r' N I I' E; [contradiction|].
  simpl in N. inversion N as [|x l Na N']. subst.
  destruct I as [<-|I], I' as [<-|I'].
  - reflexivity.
  - exfalso. apply Na. rewrite E. apply in_map. exact I'.
  - exfalso. apply Na. rewrite <- E. apply in_map. exact I.
  - apply IH; assumption.
Qed.

Lemma existsb_map_same : forall A (p : A -> bool) (f : A -> A) l,
  (forall x, p (f x) = p x) -> existsb p (map f l) = existsb p l.
Proof.
  intros A p f l H. induction l as [|x l IH]; simpl; [reflexivity|].
  rewrite H, IH. reflexivity.
Qed.

Lemma rowcount_positive : forall A (p : A -> bool) l,
  (0 <? List.length (filter p l))%nat = existsb p l.
Proof.
  intros A p l. induction l as [|x l IH]; simpl; [reflexivity|].
  destruct (p x); simpl; [reflexivity | exact IH].
Qed.

Lemma map_unchanged : forall A (f : A -> A) l,
  (forall x, In x l -> f x = x) -> map f l = l.
Proof.
  intros A f l H. induction l as [|x l IH]; simpl; [reflexivity|].
  rewrite H by (left; reflexivity). rewrite IH; [reflexivity|].
  intros y I. apply H. right. exact I.
Qed.

Lemma set_subscribed_chats_same : forall w,
  set_subscribed_chats (subscribed_chats w) w = w.
Proof. intros []. reflexivity. Qed.

Lemma has_chat_id_true : forall chat r,
  has_chat_id chat r = true <-> cr_chat_id r = chat.
Proof. intros chat r. unfold has_chat_id. apply Z.eqb_eq. Qed.

Lemma chat_is_active_true : forall chat r,
  chat_is_active chat r = true <-> cr_chat_id r = chat /\ cr_is_active r = 1.
Proof.
  intros chat r. unfold chat_is_active.
  rewrite andb_true_iff, !Z.eqb_eq. reflexivity.
Qed.

Lemma chat_is_active_other : forall chat c r,
  c <> chat -> cr_chat_id r = chat -> chat_is_active c r = false.
Proof.
  intros chat c r N E. unfold chat_is_active. rewrite E.
  destruct (Z.eqb_spec chat c); [congruence | reflexivity].
Qed.

Lemma subscribe_chat_run : forall chat type title w,
  subscribe_chat env chat type title w
  = match find (has_chat_id chat) (subscribed_chats w) with
    | Some existing =>
        if negb (cr_is_active existing =? 0) then (Ok false, w, [])
        else (Ok true,
              set_subscribed_chats
                (map (resubscribed chat title
                        (clock env (ticks w) / us_per_second))
                     (subscribed_chats w))
                (tick w), [])
    | None =>
        (Ok true,
         set_subscribed_chats
           (subscribed_chats w
            ++ [mk_chat_row chat type title
                  (clock env (ticks w) / us_per_second) 1 None None
                  (Some "UTC")])%list
           (tick w), [])
    end.
Proof.
  intros chat type title w. unfold subscribe_chat, bind, get_world.
  destruct (find (has_chat_id chat) (subscribed_chats w)) as [existing|];
    [destruct (negb (cr_is_active existing =? 0))|]; reflexivity.
Qed.

Lemma resubscribed_id : forall chat title stamp r,
  cr_chat_id (resubscribed chat title stamp r) = cr_chat_id r.
Proof.
  intros chat title stamp r. unfold resubscribed.
  destruct (has_chat_id chat r); reflexivity.
Qed.

Lemma resubscribed_other : forall chat title stamp c r,
  c <> chat ->
  chat_is_active c (resubscribed chat title stamp r) = chat_is_active c r.
Proof.
  intros chat title stamp c r N. unfold resubscribed.
  destruct (has_chat_id chat r) eqn:H; [|reflexivity].
  apply has_chat_id_true in H.
  rewrite (chat_is_active_other chat c r N H).
  apply (chat_is_active_other chat c); [exact N | exact H].
Qed.

Lemma set_quiet_hours_run : forall chat start end_ timezone w,
  set_quiet_hours chat start end_ timezone w
  = (Ok (existsb (chat_is_active chat) (subscribed_chats w)),
     set_subscribed_chats
       (map (with_quiet_hours chat start end_ timezone) (subscribed_chats w))
       w, []).
Proof.
  intros chat start end_ timezone w.
  rewrite <- rowcount_positive. reflexivity.
Qed.

Lemma with_quiet_hours_id : forall chat s e tz r,
  cr_chat_id (with_quiet_hours chat s e tz r) = cr_chat_id r.
Proof.
  intros chat s e tz r. unfold with_quiet_hours.
  destruct (chat_is_active chat r); reflexivity.
Qed.

Lemma with_quiet_hours_flag : forall chat s e tz r,
  cr_is_active (with_quiet_hours chat s e tz r) = cr_is_active r.
Proof.
  intros chat s e tz r. unfold with_quiet_hours.
  destruct (chat_is_active chat r); reflexivity.
Qed.

Lemma unsubscribe_chat_run : forall chat w,
  unsubscribe_chat chat w
  = (Ok (existsb (chat_is_active chat) (subscribed_chats w)),
     set_subscribed_chats
       (map (fun r => if chat_is_active chat r then deactivate r else r)
            (subscribed_chats w))
       w, [DbUnsubscribeChat chat]).
Proof.
  intros chat w. rewrite <- rowcount_positive. reflexivity.
Qed.

Lemma deactivated_inactive : forall chat rows,
  existsb (chat_is_active chat)
    (map (fun r => if chat_is_active chat r then deactivate r else r) rows)
  = false.
Proof.
  intros chat rows. induction rows as [|r rows IH]; simpl; [reflexivity|].
  rewrite IH, orb_false_r.
  destruct (chat_is_active chat r) eqn:A; [|exact A].
  unfold chat_is_active, deactivate. simpl. apply andb_false_r.
Qed.

Lemma deactivated_other : forall chat c r,
  c <> chat ->
  chat_is_active c (if chat_is_active chat r then deactivate r else r)
  = chat_is_active c r.
Proof.
  intros chat c r N. destruct (chat_is_active chat r) eqn:A; [|reflexivity].
  apply chat_is_active_true in A. destruct A as [E _].
  rewrite (chat_is_active_other chat c r N E).
  apply (chat_is_active_other chat c); [exact N | exact E].
Qed.

Lemma quiet_hours_of_run : forall chat w,
  quiet_hours_of chat w
  = Ok (quiet_of_row (find (has_chat_id chat) (subscribed_chats w))).
Proof.
  intros chat w. unfold quiet_hours_of, get_chat_quiet_hours, bind, get_world.
  destruct (find (has_chat_id chat) (subscribed_chats w)) as [row|];
    [|reflexivity].
  simpl. destruct (truthy_str (cr_quiet_hours_start row)
                   && truthy_str (cr_quiet_hours_end row)); reflexivity.
Qed.

End DirectoryFacts.

(** X9. With chat ids unique and every [is_active] 0 or 1,
    [subscribe_chat] answers True exactly when the chat was not subscribed;
    afterwards the chat is subscribed, the subscription of every other chat
    is as before, and a chat that was already subscribed leaves the world
    untouched. *)
Theorem subscribe_chat_subscribes :
  forall env chat type title w,
    primary_key w -> flags_ok w ->
    let out := Directory.subscribe_chat env chat type title w in
    exists before,
      is_subscribed chat w = Ok before
      /\ result_of out = Ok (negb before)
      /\ is_subscribed chat (world_of out) = Ok true
      /\ (forall c, c <> chat ->
            is_subscribed c (world_of out) = is_subscribed c w)
      /\ (before = true -> world_of out = w).
Proof.
  intros env chat type title w PK FL out.
  exists (existsb (chat_is_active chat) (subscribed_chats w)).
  split; [reflexivity|].
  unfold out. rewrite subscribe_chat_run. unfold is_subscribed.
  unfold primary_key, chat_ids in PK. unfold flags_ok in FL.
  rewrite Forall_forall in FL.
  destruct (find (Directory.has_chat_id chat) (subscribed_chats w))
    as [existing|] eqn:F.
  - apply find_some in F. destruct F as [I H].
    apply has_chat_id_true in H.
    destruct (FL existing I) as [Z0|Z1].
    + (* the chat had left *)
      rewrite Z0. cbn [Z.eqb negb].
      assert (B : existsb (chat_is_active chat) (subscribed_chats w) = false).
      { destruct (existsb (chat_is_active chat) (subscribed_chats w)) eqn:B;
          [|reflexivity].
        apply existsb_exists in B. destruct B as (r & Ir & A).
        apply chat_is_active_true in A. destruct A as [E A].
        assert (r = existing) by
          (apply (key_unique (subscribed_chats w)); congruence).
        subst r. congruence. }
      rewrite B. cbn [result_of world_of fst snd negb].
      repeat split.
      * cbn. f_equal. apply existsb_exists.
        exists (resubscribed chat title (clock env (ticks w) / us_per_second)
                  existing).
        split; [apply in_map; exact I|].
        unfold resubscribed.
        replace (Directory.has_chat_id chat existing) with true
          by (symmetry; apply has_chat_id_true; exact H).
        apply chat_is_active_true. split; [exact H | reflexivity].
      * intros c N. cbn. f_equal. apply existsb_map_same.
        intros r. apply resubscribed_other. exact N.
      * discriminate.
    + (* the chat is subscribed *)
      rewrite Z1. cbn [Z.eqb negb].
      assert (B : existsb (chat_is_active chat) (subscribed_chats w) = true).
      { apply existsb_exists. exists existing. split; [exact I|].
        apply chat_is_active_true. split; assumption. }
      rewrite B. cbn [result_of world_of fst snd negb].
      repeat split. cbn. rewrite B. reflexivity.
  - (* the chat is new *)
    assert (B : existsb (chat_is_active chat) (subscribed_chats w) = false).
    { destruct (existsb (chat_is_active chat) (subscribed_chats w)) eqn:B;
        [|reflexivity].
      apply existsb_exists in B. destruct B as (r & Ir & A).
      apply chat_is_active_true in A. destruct A as [E A].
      apply (find_none _ _ F) in Ir.
      apply has_chat_id_true in E. congruence. }
    rewrite B. cbn [result_of world_of fst snd negb].
    repeat split.
    + cbn. rewrite existsb_app. cbn.
      unfold chat_is_active at 2. cbn. rewrite Z.eqb_refl.
      rewrite orb_true_r. reflexivity.
    + intros c N. cbn. rewrite existsb_app. cbn.
      unfold chat_is_active at 2. cbn.
      destruct (Z.eqb_spec chat c); [congruence|].
      cbn. rewrite !orb_false_r. reflexivity.
    + discriminate.
Qed.

Lemma subscribe_chat_subscribes_witness :
  exists before,
    is_subscribed 4 Demo.empty = Ok before
    /\ result_of (Directory.subscribe_chat Demo.env 4 "group" None Demo.empty)
       = Ok (negb before).
Proof.
  destruct (subscribe_chat_subscribes Demo.env 4 "group" None Demo.empty)
    as (before & B & R & _).
  - unfold primary_key. cbn.
    repeat constructor; cbn; intuition discriminate.
  - unfold flags_ok. cbn. repeat constructor; right; reflexivity.
  - exists before. split; assumption.
Defined.

(** X10. A chat that leaves and subscribes again finds its quiet hours as
    it left them: [unsubscribe_chat] followed by [subscribe_chat] changes
    what [get_chat_quiet_hours] answers for no chat. *)
Theorem quiet_hours_survive_resubscription :
  forall env chat type title w c,
    quiet_hours_of c
      (world_of (Directory.subscribe_chat env chat type title
                   (world_of (unsubscribe_chat chat w))))
    = quiet_hours_of c w.
Proof.
  intros env chat type title w c.
  rewrite unsubscribe_chat_run. cbn [world_of fst snd].
  rewrite subscribe_chat_run, (quiet_hours_of_run c w).
  set (left := map (fun r => if chat_is_active chat r then deactivate r else r)
                   (subscribed_chats w)).
  assert (Q : forall p, quiet_of_row (find (Directory.has_chat_id p) left)
                        = quiet_of_row (find (Directory.has_chat_id p)
                                          (subscribed_chats w))).
  { intros p. unfold left. rewrite find_map_same_key.
    - destruct (find (Directory.has_chat_id p) (subscribed_chats w)) as [r|];
        [|reflexivity].
      cbn [option_map]. destruct (chat_is_active chat r); reflexivity.
    - intros r. destruct (chat_is_active chat r); reflexivity. }
  cbn [subscribed_chats set_subscribed_chats].
  destruct (find (Directory.has_chat_id chat) left) as [existing|] eqn:F.
  - destruct (negb (cr_is_active existing =? 0)).
    + cbn [world_of fst snd]. rewrite quiet_hours_of_run.
      cbn [subscribed_chats set_subscribed_chats]. f_equal. apply Q.
    + cbn [world_of fst snd]. rewrite quiet_hours_of_run.
      cbn [subscribed_chats set_subscribed_chats tick]. f_equal.
      rewrite <- Q. rewrite find_map_same_key.
      * destruct (find (Directory.has_chat_id c) left) as [r|];
          [|reflexivity].
        cbn [option_map]. unfold resubscribed.
        destruct (Directory.has_chat_id chat r); reflexivity.
      * intros r. unfold Directory.has_chat_id.
        rewrite resubscribed_id. reflexivity.
  - cbn [world_of fst snd]. rewrite quiet_hours_of_run.
    cbn [subscribed_chats set_subscribed_chats tick]. f_equal.
    rewrite <- Q.
    destruct (find (Directory.has_chat_id c) left) as [r|] eqn:Fc.
    + rewrite (find_app_some _ _ _ _ _ Fc). reflexivity.
    + rewrite (find_app_none _ _ _ _ Fc). cbn.
      destruct (Directory.has_chat_id c _); reflexivity.
Qed.

(** X11. With chat ids unique, [set_quiet_hours] answers whether the chat
    is subscribed.  For a subscribed chat, [get_chat_quiet_hours] then
    answers the window that was set, with UTC for a missing zone, and
    nothing when a bound is missing or empty; for any other chat its answer
    is as before.  For a chat that is not subscribed the world stays as it
    is. *)
Theorem quiet_hours_round_trip :
  forall chat start end_ timezone w,
    primary_key w ->
    let out := Directory.set_quiet_hours chat start end_ timezone w in
    exists active,
      is_subscribed chat w = Ok active
      /\ result_of out = Ok active
      /\ (active = true ->
          quiet_hours_of chat (world_of out)
          = Ok (if truthy_str start && truthy_str end_
                then Some (str_or start "", str_or end_ "",
                           str_or timezone "UTC")
                else None))
      /\ (forall c, c <> chat ->
            quiet_hours_of c (world_of out) = quiet_hours_of c w)
      /\ (active = false -> world_of out = w).
Proof.
  intros chat start end_ timezone w PK out.
  unfold primary_key, chat_ids in PK.
  exists (existsb (chat_is_active chat) (subscribed_chats w)).
  split; [reflexivity|].
  unfold out. rewrite set_quiet_hours_run. cbn [result_of world_of fst snd].
  split; [reflexivity|].
  assert (F : forall c,
            find (Directory.has_chat_id c)
                 (map (with_quiet_hours chat start end_ timezone)
                      (subscribed_chats w))
            = option_map (with_quiet_hours chat start end_ timezone)
                (find (Directory.has_chat_id c) (subscribed_chats w))).
  { intros c. apply find_map_same_key. intros r.
    unfold Directory.has_chat_id. rewrite with_quiet_hours_id. reflexivity. }
  split; [|split].
  - intros A. rewrite quiet_hours_of_run.
    cbn [subscribed_chats set_subscribed_chats]. rewrite F. f_equal.
    apply existsb_exists in A. destruct A as (r & I & A).
    destruct (find (Directory.has_chat_id chat) (subscribed_chats w))
      as [r0|] eqn:F0.
    + apply find_some in F0. destruct F0 as [I0 H0].
      apply has_chat_id_true in H0.
      pose proof A as A'. apply chat_is_active_true in A'.
      destruct A' as [E _].
      assert (r0 = r) by
        (apply (key_unique (subscribed_chats w)); congruence).
      subst r0. cbn [option_map]. unfold with_quiet_hours. rewrite A.
      reflexivity.
    + apply (find_none _ _ F0) in I. apply chat_is_active_true in A.
      destruct A as [E _]. apply has_chat_id_true in E. congruence.
  - intros c N. rewrite !quiet_hours_of_run.
    cbn [subscribed_chats set_subscribed_chats]. rewrite F. f_equal.
    destruct (find (Directory.has_chat_id c) (subscribed_chats w))
      as [r|] eqn:Fc; [|reflexivity].
    apply find_some in Fc. destruct Fc as [_ H].
    apply has_chat_id_true in H.
    cbn [option_map]. unfold with_quiet_hours.
    rewrite (chat_is_active_other c chat r); [reflexivity | congruence | exact H].
  - intros A. rewrite map_unchanged; [apply set_subscribed_chats_same|].
    intros r I. unfold with_quiet_hours.
    destruct (chat_is_active chat r) eqn:Ar; [|reflexivity].
    assert (existsb (chat_is_active chat) (subscribed_chats w) = true)
      by (apply existsb_exists; exists r; split; assumption).
    congruence.
Qed.

Lemma quiet_hours_round_trip_witness :
  quiet_hours_of 1
    (world_of (Directory.set_quiet_hours 1 (Some "23:00") (Some "06:30") None
                 Demo.empty))
  = Ok (Some ("23:00", "06:30", "UTC")).
Proof.
  destruct (quiet_hours_round_trip 1 (Some "23:00") (Some "06:30") None
              Demo.empty) as (active & B & _ & Q & _).
  - unfold primary_key. cbn.
    repeat constructor; cbn; intuition discriminate.
  - apply Q. cbn in B. congruence.
Defined.

(** X12. Once quiet hours are switched off for a chat
    ([set_quiet_hours] with no bounds, as the off button and the off
    argument do), the reconciler finds the chat not quiet at any hour:
    for its entry among the active chats [_is_quiet_hours] answers False
    without reading the clock. *)
Theorem quiet_hours_off_is_never_quiet :
  forall env chat w chats ci,
    result_of (get_active_chats
                 (world_of (Directory.set_quiet_hours chat None None None w)))
    = Ok chats ->
    In ci chats ->
    chat_id ci = chat ->
    forall w2,
      _is_quiet_hours env (quiet_hours_start ci) (quiet_hours_end ci)
        (quiet_hours_tz ci) w2
      = (Ok false, w2, []).
Proof.
  intros env chat w chats ci R I E w2.
  rewrite set_quiet_hours_run, get_active_chats_run in R.
  cbn [result_of world_of fst snd] in R. injection R as <-.
  unfold active_chats in I. cbn [subscribed_chats set_subscribed_chats] in I.
  apply in_map_iff in I. destruct I as (r' & <- & I).
  apply filter_In in I. destruct I as [I A].
  apply in_map_iff in I. destruct I as (r & <- & I).
  cbn [chat_id] in E. rewrite with_quiet_hours_id in E.
  rewrite with_quiet_hours_flag in A.
  assert (C : chat_is_active chat r = true)
    by (apply chat_is_active_true; split; [exact E | apply Z.eqb_eq; exact A]).
  apply is_quiet_hours_missing. left.
  cbn [quiet_hours_start]. unfold with_quiet_hours. rewrite C. reflexivity.
Qed.

Lemma quiet_hours_off_is_never_quiet_witness :
  _is_quiet_hours Demo.env None None None Demo.empty
  = (Ok false, Demo.empty, []).
Proof.
  apply (quiet_hours_off_is_never_quiet Demo.env 3 Demo.empty
           [Demo.info 1 None; Demo.info 2 None;
            mk_chat_info 3 "private" None None None]
           (mk_chat_info 3 "private" None None None)).
  - reflexivity.
  - simpl. tauto.
  - reflexivity.
Defined.

(** X13. [unsubscribe_chat] answers whether the chat was subscribed;
    afterwards the chat is not subscribed and every other chat is as
    subscribed as before; a second call answers False and changes
    nothing. *)
Theorem unsubscribe_chat_report :
  forall chat w,
    let out := unsubscribe_chat chat w in
    exists before,
      is_subscribed chat w = Ok before
      /\ result_of out = Ok before
      /\ is_subscribed chat (world_of out) = Ok false
      /\ (forall c, c <> chat ->
            is_subscribed c (world_of out) = is_subscribed c w)
      /\ result_of (unsubscribe_chat chat (world_of out)) = Ok false
      /\ world_of (unsubscribe_chat chat (world_of out)) = world_of out.
Proof.
  intros chat w out.
  exists (existsb (chat_is_active chat) (subscribed_chats w)).
  split; [reflexivity|].
  unfold out. rewrite !unsubscribe_chat_run. cbn [result_of world_of fst snd].
  cbn [subscribed_chats set_subscribed_chats].
  unfold is_subscribed.
  split; [reflexivity|]. split; [|split; [|split]].
  - cbn. rewrite deactivated_inactive. reflexivity.
  - intros c N. cbn. f_equal. apply existsb_map_same.
    intros r. apply deactivated_other. exact N.
  - rewrite deactivated_inactive. reflexivity.
  - rewrite map_unchanged.
    + destruct w; reflexivity.
    + intros r I. destruct (chat_is_active chat r) eqn:A; [|reflexivity].
      assert (existsb (chat_is_active chat)
                (map (fun r => if chat_is_active chat r then deactivate r
                               else r) (subscribed_chats w)) = true)
        by (apply existsb_exists; exists r; split; assumption).
      rewrite deactivated_inactive in H. discriminate.
Qed.

(** X30. A row whose [is_active] is an integer other than 0 and 1, such
    as the 2 that [import_backup] writes when the backup says 2, shuts its
    chat out: [subscribe_chat] answers False and changes nothing, taking
    the chat for subscribed, while [is_chat_subscribed] answers False and
    [get_active_chats] does not list the chat.  (A NULL in that column is
    not an integer: such a row is not among the rows of this model.) *)
Theorem foreign_flag_blocks_subscription :
  forall env chat type title w row,
    primary_key w ->
    In row (subscribed_chats w) ->
    cr_chat_id row = chat ->
    cr_is_active row <> 0 ->
    cr_is_active row <> 1 ->
    Directory.subscribe_chat env chat type title w = (Ok false, w, [])
    /\ is_subscribed chat w = Ok false
    /\ exists chats,
         result_of (get_active_chats w) = Ok chats
         /\ forall chat_info, In chat_info chats -> chat_id chat_info <> chat.
Proof.
  intros env chat type title w row PK I E N0 N1.
  unfold primary_key, chat_ids in PK.
  assert (Only : forall r, In r (subscribed_chats w) -> cr_chat_id r = chat ->
                           r = row)
    by (intros r Ir Er; apply (key_unique (subscribed_chats w)); congruence).
  split; [|split].
  - rewrite subscribe_chat_run.
    destruct (find (Directory.has_chat_id chat) (subscribed_chats w))
      as [existing|] eqn:F.
    + apply find_some in F. destruct F as [Ie He].
      apply has_chat_id_true in He. rewrite (Only existing Ie He).
      apply Z.eqb_neq in N0. rewrite N0. reflexivity.
    + apply (find_none _ _ F) in I. apply has_chat_id_true in E. congruence.
  - unfold is_subscribed. cbn. f_equal.
    destruct (existsb (chat_is_active chat) (subscribed_chats w)) eqn:B;
      [|reflexivity].
    apply existsb_exists in B. destruct B as (r & Ir & A).
    apply chat_is_active_true in A. destruct A as [Er Ar].
    rewrite (Only r Ir Er) in Ar. contradiction.
  - exists (active_chats w). split; [reflexivity|].
    intros ci J C. unfold active_chats in J.
    apply in_map_iff in J. destruct J as (r & <- & J).
    apply filter_In in J. destruct J as [Ir Ar]. cbn in C.
    apply Z.eqb_eq in Ar. rewrite (Only r Ir C) in Ar. contradiction.
Qed.

Lemma foreign_flag_blocks_subscription_witness :
  let w :=
    world_of
      (Directory.import_backup Demo.env
         (Directory.mk_backup "1.0" 0 None
            (Some [Directory.mk_backup_chat (Directory.Val 9)
                     (Directory.Val "group") Directory.Null (Some 0) (Some 2)
                     Directory.Null Directory.Null Directory.Absent]))
         false Demo.empty) in
  Directory.subscribe_chat Demo.env 9 "group" None w = (Ok false, w, []).
Proof.
  intros w.
  apply (foreign_flag_blocks_subscription Demo.env 9 "group" None w
           (mk_chat_row 9 "group" None 0 2 None None (Some "UTC"))).
  - unfold primary_key. cbn. repeat constructor; cbn; intuition discriminate.
  - cbn. left. reflexivity.
  - reflexivity.
  - discriminate.
  - discriminate.
Defined.

(** ** Backup and restore of the directory *)

Section BackupFacts.

Import Directory.

Variable env : Env.

Lemma filter_all : forall A (p : A -> bool) l,
  (forall x, In x l -> p x = true) -> filter p l = l.
Proof.
  intros A p l H. induction l as [|x l IH]; simpl; [reflexivity|].
  rewrite H by (left; reflexivity). rewrite IH; [reflexivity|].
  intros y I. apply H. right. exact I.
Qed.

Lemma filter_absent_id : forall id rows,
  existsb (has_chat_id id) rows = false ->
  filter (fun r => negb (has_chat_id id r)) rows = rows.
Proof.
  intros id rows H. apply filter_all. intros r I.
  destruct (has_chat_id id r) eqn:E; [|reflexivity].
  assert (existsb (has_chat_id id) rows = true)
    by (apply existsb_exists; exists r; split; assumption).
  congruence.
Qed.

Lemma NoDup_snoc : forall A (l : list A) x,
  NoDup l -> ~ In x l -> NoDup (l ++ [x]).
Proof.
  intros A l x N I. induction l as [|y l IH]; simpl.
  - constructor; [intros [] | constructor].
  - inversion N as [|z l' Ny N']. subst. constructor.
    + intros J. apply in_app_or in J. destruct J as [J|[J|[]]].
      * contradiction.
      * subst. apply I. left. reflexivity.
    + apply IH; [exact N'|]. intros J. apply I. right. exact J.
Qed.

Lemma NoDup_map_filter : forall A B (f : A -> B) (p : A -> bool) l,
  NoDup (map f l) -> NoDup (map f (filter p l)).
Proof.
  intros A B f p l. induction l as [|x l IH]; simpl; intros N; [exact N|].
  inversion N as [|y l' Nx N']. subst.
  destruct (p x); simpl; [|apply IH; exact N'].
  constructor; [|apply IH; exact N'].
  intros J. apply Nx. apply in_map_iff in J. destruct J as (z & E & J).
  apply filter_In in J. destruct J as [J _].
  rewrite <- E. apply in_map. exact J.
Qed.

Lemma replaced_unique : forall rows row,
  NoDup (map cr_chat_id rows) ->
  NoDup (map cr_chat_id
           (filter (fun r => negb (has_chat_id (cr_chat_id row) r)) rows
            ++ [row])%list).
Proof.
  intros rows row N. rewrite map_app. apply NoDup_snoc.
  - apply NoDup_map_filter. exact N.
  - intros J. apply in_map_iff in J. destruct J as (z & E & J).
    apply filter_In in J. destruct J as [_ J].
    unfold has_chat_id in J. rewrite E, Z.eqb_refl in J. discriminate.
Qed.

(** One chat of a backup: exactly one of the three counts goes up by one,
    and the directory either stays or gets the chat's row in the place of
    any row with its id. *)
Lemma import_chat_step : forall merge chat i s e w,
  exists i' s' e' w',
    import_chat env merge chat (i, s, e) w = (Ok (i', s', e'), w', [])
    /\ (i' + s' + e' = S (i + s + e))%nat
    /\ (merge = false -> s' = s)
    /\ ((i' = i /\ subscribed_chats w' = subscribed_chats w)
        \/ (i' = S i
            /\ exists row,
                 subscribed_chats w'
                 = (filter (fun r => negb (has_chat_id (cr_chat_id row) r))
                           (subscribed_chats w) ++ [row])%list
                 /\ (merge = true ->
                     existsb (has_chat_id (cr_chat_id row))
                             (subscribed_chats w) = false))).
Proof.
  intros merge chat i s e w. unfold import_chat.
  destruct (jget (b_chat_id chat)) as [id|].
  2:{ exists i, s, (S e), w. repeat split; try lia; auto. }
  destruct (id =? 0).
  { exists i, s, (S e), w. repeat split; try lia; auto. }
  unfold bind at 1. cbn [get_world].
  destruct (existsb (has_chat_id id) (subscribed_chats w) && merge) eqn:X.
  { exists i, (S s), e, w. repeat split; try lia; auto.
    intros ->. rewrite andb_false_r in X. discriminate. }
  assert (Free : merge = true ->
                 existsb (has_chat_id id) (subscribed_chats w) = false).
  { intros ->. rewrite andb_true_r in X. exact X. }
  destruct (b_chat_type chat) as [| |t].
  - eexists (S i), s, e, _. split; [reflexivity|].
    split; [lia|]. split; [auto|]. right. split; [reflexivity|].
    eexists (mk_chat_row _ _ _ _ _ _ _ _).
    split; [cbn; reflexivity | exact Free].
  - exists i, s, (S e), (tick w). repeat split; try lia; auto.
  - eexists (S i), s, e, _. split; [reflexivity|].
    split; [lia|]. split; [auto|]. right. split; [reflexivity|].
    eexists (mk_chat_row _ _ _ _ _ _ _ _).
    split; [cbn; reflexivity | exact Free].
Qed.

Lemma import_chats_run : forall merge chats i s e w,
  exists i' s' e' w',
    import_chats env merge chats (i, s, e) w = (Ok (i', s', e'), w', [])
    /\ (i' + s' + e' = i + s + e + List.length chats)%nat
    /\ (merge = false -> s' = s)
    /\ (primary_key w -> primary_key w')
    /\ (merge = true ->
        exists added,
          subscribed_chats w' = (subscribed_chats w ++ added)%list
          /\ (i' = i + List.length added)%nat
          /\ Forall (fun row => ~ In (cr_chat_id row) (chat_ids w)) added).
Proof.
  intros merge chats. induction chats as [|chat chats IH]; intros i s e w.
  - exists i, s, e, w. split; [reflexivity|]. split; [simpl; lia|].
    split; [auto|]. split; [auto|]. intros _. exists [].
    rewrite app_nil_r. repeat split; [simpl; lia | constructor].
  - destruct (import_chat_step merge chat i s e w)
      as (i1 & s1 & e1 & w1 & R1 & C1 & S1 & D1).
    destruct (IH i1 s1 e1 w1) as (i2 & s2 & e2 & w2 & R2 & C2 & S2 & K2 & M2).
    exists i2, s2, e2, w2.
    split.
    { cbn [import_chats]. unfold bind. rewrite R1, R2. reflexivity. }
    split; [simpl; lia|].
    split; [intros Hm; rewrite (S2 Hm); apply S1; exact Hm|].
    split.
    { intros PK. apply K2. destruct D1 as [[_ D]|[_ (row & D & _)]].
      - unfold primary_key, chat_ids in *. rewrite D. exact PK.
      - unfold primary_key, chat_ids in *. rewrite D.
        apply replaced_unique. exact PK. }
    intros Hm. destruct (M2 Hm) as (added & A2 & L2 & F2).
    destruct D1 as [[Ei D]|[Ei (row & D & Free)]].
    + exists added. rewrite A2, D. split; [reflexivity|].
      split; [lia|]. unfold chat_ids in *. rewrite D in F2. exact F2.
    + specialize (Free Hm). rewrite (filter_absent_id _ _ Free) in D.
      exists (row :: added). rewrite A2, D, <- app_assoc.
      split; [reflexivity|]. split; [simpl; lia|].
      constructor.
      * intros J. unfold chat_ids in J. apply in_map_iff in J.
        destruct J as (r & E & J).
        assert (existsb (has_chat_id (cr_chat_id row)) (subscribed_chats w)
                = true).
        { apply existsb_exists. exists r. split; [exact J|].
          apply has_chat_id_true. exact E. }
        congruence.
      * apply Forall_forall. intros x Ix J.
        rewrite Forall_forall in F2. apply (F2 x Ix).
        unfold chat_ids in *. rewrite D, map_app. apply in_or_app.
        left. exact J.
Qed.

Lemma import_backup_run : forall b merge chats w,
  bk_subscribed_chats b = Some chats ->
  import_backup env b merge w
  = (let '(r, w', t) :=
       import_chats env merge chats (O, O, O)
         (if negb merge then set_subscribed_chats [] w else w) in
     (match r with
      | Ok (n_imported, n_skipped, n_errors) =>
          Ok (mk_import_result n_imported n_skipped n_errors
                (List.length chats))
      | Raise x => Raise x
      end, w', t)).
Proof.
  intros b merge chats w H. unfold import_backup. rewrite H.
  unfold bind. destruct merge; cbn [negb modify ret].
  - destruct (import_chats env true chats (O, O, O) w)
      as [[[[[n_imported n_skipped] n_errors]|x] w'] t];
      cbn; rewrite ?app_nil_r; reflexivity.
  - destruct (import_chats env false chats (O, O, O) (set_subscribed_chats [] w))
      as [[[[[n_imported n_skipped] n_errors]|x] w'] t];
      cbn; rewrite ?app_nil_r; reflexivity.
Qed.

(** Restoring the row a backup was made from. *)
Lemma import_exported_row : forall r i s e w,
  cr_chat_id r <> 0 ->
  import_chat env false (backup_of_row r) (i, s, e) w
  = (Ok (S i, s, e),
     set_subscribed_chats
       (filter (fun x => negb (has_chat_id (cr_chat_id r) x))
               (subscribed_chats w) ++ [r])%list
       (tick w), []).
Proof.
  intros r i s e w N. unfold import_chat, backup_of_row.
  cbn [jget b_chat_id b_chat_type b_chat_title b_subscribed_at b_is_active
       b_quiet_hours_start b_quiet_hours_end b_quiet_hours_tz].
  destruct (Z.eqb_spec (cr_chat_id r) 0) as [E|_]; [contradiction|].
  unfold bind at 1. cbn [get_world]. rewrite andb_false_r.
  destruct r as [id type title at_ act qs qe qtz].
  destruct title, qs, qe, qtz; reflexivity.
Qed.

Lemma import_exported_rows : forall rows i w,
  NoDup (map cr_chat_id (subscribed_chats w) ++ map cr_chat_id rows)%list ->
  Forall (fun id => id <> 0) (map cr_chat_id rows) ->
  exists w',
    import_chats env false (map backup_of_row rows) (i, O, O) w
    = (Ok ((i + List.length rows)%nat, O, O), w', [])
    /\ subscribed_chats w' = (subscribed_chats w ++ rows)%list.
Proof.
  induction rows as [|r rows IH]; intros i w N Z.
  - exists w. rewrite app_nil_r, Nat.add_0_r. split; reflexivity.
  - simpl in N, Z. inversion Z as [|x l Z1 Z2]. subst.
    assert (Free : existsb (has_chat_id (cr_chat_id r)) (subscribed_chats w)
                   = false).
    { destruct (existsb (has_chat_id (cr_chat_id r)) (subscribed_chats w))
        eqn:X; [|reflexivity].
      apply existsb_exists in X. destruct X as (x & Ix & Hx).
      apply has_chat_id_true in Hx.
      apply NoDup_remove_2 in N. exfalso. apply N.
      apply in_or_app. left. rewrite <- Hx. apply in_map. exact Ix. }
    set (w1 := set_subscribed_chats (subscribed_chats w ++ [r])%list (tick w)).
    destruct (IH (S i) w1) as (w' & R & D).
    { unfold w1. cbn [subscribed_chats set_subscribed_chats].
      rewrite map_app, <- app_assoc. exact N. }
    { exact Z2. }
    exists w'. split.
    + cbn [map import_chats]. unfold bind.
      rewrite (import_exported_row r i O O w Z1).
      rewrite (filter_absent_id _ _ Free). fold w1. rewrite R.
      cbn [List.length]. rewrite Nat.add_succ_r. reflexivity.
    + rewrite D. unfold w1. cbn [subscribed_chats set_subscribed_chats].
      rewrite <- app_assoc. reflexivity.
Qed.

End BackupFacts.

(** X14. [import_backup] raises only when the backup has no list of
    chats, and then leaves the world as it is.  Otherwise it answers, and
    every chat of the backup is counted once: imported, skipped and errors
    add up to the total; nothing is skipped when the directory is
    replaced. *)
Theorem import_backup_counts :
  forall env b merge w,
    let out := Directory.import_backup env b merge w in
    match Directory.bk_subscribed_chats b with
    | None =>
        (exists msg, result_of out = Raise (ValueError msg))
        /\ world_of out = w
    | Some chats =>
        exists r,
          result_of out = Ok r
          /\ (Directory.imported r + Directory.skipped r + Directory.errors r
              = List.length chats)%nat
          /\ Directory.total_in_backup r = List.length chats
          /\ (merge = false -> Directory.skipped r = O)
    end.
Proof.
  intros env b merge w out.
  destruct (Directory.bk_subscribed_chats b) as [chats|] eqn:K.
  - unfold out. rewrite (import_backup_run env b merge chats w K).
    destruct (import_chats_run env merge chats O O O
                (if negb merge then set_subscribed_chats [] w else w))
      as (i & s & e & w' & R & C & S & _).
    rewrite R. eexists. split; [reflexivity|].
    cbn. split; [lia|]. split; [reflexivity|]. exact S.
  - unfold out, Directory.import_backup. rewrite K. split.
    + eexists. reflexivity.
    + reflexivity.
Qed.

(** X15. A merging import leaves every row of the directory as it is and
    adds only rows for new chats: the rows afterwards are, in some order,
    the rows before and the imported ones, as many as the answer counts,
    each for a chat id the directory did not have. *)
Theorem merge_import_keeps_directory :
  forall env b chats w,
    Directory.bk_subscribed_chats b = Some chats ->
    let out := Directory.import_backup env b true w in
    exists r added,
      result_of out = Ok r
      /\ Permutation (subscribed_chats (world_of out))
                     (subscribed_chats w ++ added)%list
      /\ (forall row,
            In row (subscribed_chats w) ->
            In row (subscribed_chats (world_of out)))
      /\ List.length added = Directory.imported r
      /\ Forall (fun row => ~ In (cr_chat_id row) (chat_ids w)) added.
Proof.
  intros env b chats w K out.
  unfold out. rewrite (import_backup_run env b true chats w K).
  cbn [negb].
  destruct (import_chats_run env true chats O O O w)
    as (i & s & e & w' & R & _ & _ & _ & M).
  destruct (M eq_refl) as (added & A & L & F).
  rewrite R. eexists. exists added. split; [reflexivity|].
  cbn. rewrite A. split; [apply Permutation_refl|].
  split; [intros row I; apply in_or_app; left; exact I|].
  split; [lia | exact F].
Qed.

Lemma merge_import_keeps_directory_witness :
  exists r added,
    result_of
      (Directory.import_backup Demo.env
         (Directory.mk_backup "1.0" 0 None
            (Some [Directory.backup_of_row (Demo.chat 1 None);
                   Directory.backup_of_row (Demo.chat 9 None)]))
         true Demo.empty) = Ok r
    /\ Permutation
         (subscribed_chats
            (world_of
               (Directory.import_backup Demo.env
                  (Directory.mk_backup "1.0" 0 None
                     (Some [Directory.backup_of_row (Demo.chat 1 None);
                            Directory.backup_of_row (Demo.chat 9 None)]))
                  true Demo.empty)))
         (Demo.chats ++ added)%list
    /\ List.length added = Directory.imported r.
Proof.
  destruct (merge_import_keeps_directory Demo.env
              (Directory.mk_backup "1.0" 0 None
                 (Some [Directory.backup_of_row (Demo.chat 1 None);
                        Directory.backup_of_row (Demo.chat 9 None)]))
              [Directory.backup_of_row (Demo.chat 1 None);
               Directory.backup_of_row (Demo.chat 9 None)]
              Demo.empty eq_refl) as (r & added & R & A & _ & L & _).
  exists r, added. repeat split; assumption.
Defined.

(** X16. The directory keeps its primary key: when no two rows share a
    chat id, none do after [subscribe_chat], [unsubscribe_chat],
    [set_quiet_hours] or [import_backup], whatever the arguments, also when
    a backup lists a chat twice. *)
Theorem directory_keeps_primary_key :
  forall env w,
    primary_key w ->
    (forall chat type title,
       primary_key (world_of (Directory.subscribe_chat env chat type title w)))
    /\ (forall chat, primary_key (world_of (unsubscribe_chat chat w)))
    /\ (forall chat start end_ timezone,
          primary_key
            (world_of (Directory.set_quiet_hours chat start end_ timezone w)))
    /\ (forall b merge,
          primary_key (world_of (Directory.import_backup env b merge w))).
Proof.
  intros env w PK. split; [|split; [|split]].
  - intros chat type title. rewrite subscribe_chat_run.
    destruct (find (Directory.has_chat_id chat) (subscribed_chats w))
      as [existing|] eqn:F.
    + destruct (negb (cr_is_active existing =? 0)); [exact PK|].
      unfold primary_key, chat_ids in *. cbn. rewrite map_map.
      erewrite map_ext; [exact PK|]. intros r. apply resubscribed_id.
    + unfold primary_key, chat_ids in *. cbn. rewrite map_app.
      apply NoDup_snoc; [exact PK|]. cbn. intros J.
      apply in_map_iff in J. destruct J as (r & E & J).
      apply (find_none _ _ F) in J. apply has_chat_id_true in E. congruence.
  - intros chat. rewrite unsubscribe_chat_run.
    unfold primary_key, chat_ids in *. cbn. rewrite map_map.
    erewrite map_ext; [exact PK|]. intros r.
    destruct (chat_is_active chat r); reflexivity.
  - intros chat start end_ timezone. rewrite set_quiet_hours_run.
    unfold primary_key, chat_ids in *. cbn. rewrite map_map.
    erewrite map_ext; [exact PK|]. intros r. apply with_quiet_hours_id.
  - intros b merge.
    destruct (Directory.bk_subscribed_chats b) as [chats|] eqn:K.
    + rewrite (import_backup_run env b merge chats w K).
      destruct (import_chats_run env merge chats O O O
                  (if negb merge then set_subscribed_chats [] w else w))
        as (i & s & e & w' & R & _ & _ & P & _).
      rewrite R. cbn. apply P. destruct merge; cbn; [exact PK|].
      unfold primary_key, chat_ids. cbn. constructor.
    + unfold Directory.import_backup. rewrite K. exact PK.
Qed.

Lemma directory_keeps_primary_key_witness :
  primary_key
    (world_of
       (Directory.import_backup Demo.env
          (Directory.mk_backup "1.0" 0 None
             (Some [Directory.backup_of_row (Demo.chat 9 None);
                    Directory.backup_of_row (Demo.chat 9 None)]))
          true Demo.empty)).
Proof.
  apply (directory_keeps_primary_key Demo.env Demo.empty).
  unfold primary_key. cbn. repeat constructor; cbn; intuition discriminate.
Defined.

(** X17. A backup restores the directory it was made from.  When chat ids
    are unique and none is 0, importing what [export_backup] answered, in
    replace mode and into any directory, gives back the rows that were
    exported, in their order, all counted as imported. *)
Theorem backup_round_trip :
  forall env w w0 b,
    primary_key w ->
    Forall (fun id => id <> 0) (chat_ids w) ->
    result_of (Directory.export_backup env w) = Ok b ->
    let out := Directory.import_backup env b false w0 in
    subscribed_chats (world_of out) = subscribed_chats w
    /\ result_of out
       = Ok (Directory.mk_import_result
               (List.length (subscribed_chats w)) O O
               (List.length (subscribed_chats w))).
Proof.
  intros env w w0 b PK NZ E out.
  assert (K : Directory.bk_subscribed_chats b
              = Some (map Directory.backup_of_row (subscribed_chats w))).
  { cbn in E. injection E as <-. reflexivity. }
  unfold out. rewrite (import_backup_run env b false _ w0 K). cbn [negb].
  destruct (import_exported_rows env (subscribed_chats w) O
              (set_subscribed_chats [] w0)) as (w' & R & D).
  { cbn. exact PK. }
  { exact NZ. }
  rewrite R. cbn. rewrite length_map. split; [exact D | reflexivity].
Qed.

Lemma backup_round_trip_witness :
  subscribed_chats
    (world_of
       (Directory.import_backup Demo.env
          (Directory.mk_backup "1.0"
             (20000 * us_per_day + 12 * us_per_hour)
             (Some (Directory.mk_stats 3 0 0))
             (Some (map Directory.backup_of_row Demo.chats)))
          false Demo.queued))
  = Demo.chats.
Proof.
  apply (backup_round_trip Demo.env Demo.empty Demo.queued).
  - unfold primary_key. cbn. repeat constructor; cbn; intuition discriminate.
  - cbn. repeat constructor; discriminate.
  - reflexivity.
Defined.

(** ** The status probe *)

(** X18. [check_feed_status] never raises, whatever the request does.  It
    makes one request, leaves the stored state as it is (the failure count
    and the time of the last success of the monitor included, which it
    reports as they were), and reports the feed reachable exactly when the
    same outcome would not fail a fetch attempt; an unreachable feed comes
    with an error text and no entry count, a reachable one with the number
    of its entries and, when there is one, the title of the first. *)
Theorem feed_status_probe :
  forall env exception_text w,
    let outcome := http_get env (ticks w) (rss_feed_url env) in
    let out := Status.check_feed_status env exception_text w in
    exists st,
      result_of out = Ok st
      /\ stored (world_of out) = stored w
      /\ effects_of out = [HttpGet (rss_feed_url env) outcome]
      /\ Status.reachable st = negb (fetch_fails outcome)
      /\ Status.last_successful_fetch st = _last_successful_fetch w
      /\ Status.consecutive_failures st = _consecutive_failures w
      /\ (Status.reachable st = false ->
          Status.error st <> None /\ Status.total_entries st = O
          /\ Status.last_post_title st = None
          /\ Status.last_post_date st = None)
      /\ (Status.reachable st = true ->
          Status.error st = None
          /\ exists feed,
               outcome = Parsed feed
               /\ Status.total_entries st = List.length (entries feed)
               /\ Status.last_post_title st
                  = option_map (fun e => get_default (e_title e) "Sem titulo")
                               (hd_error (entries feed))).
Proof.
  intros env exception_text w. cbv zeta.
  unfold Status.check_feed_status, Status._fetch_feed_sync.
  unfold try_except, bind, get_world, modify, emit, raise, ret.
  destruct (http_get env (ticks w) (rss_feed_url env))
    as [code| |msg|msg|feed]; cbn.
  1-4: eexists; (split; [reflexivity|]); cbn;
       repeat split; try reflexivity; try discriminate.
  destruct (bozo feed && (List.length (entries feed) =? 0)%nat) eqn:B.
  - cbn. eexists. split; [reflexivity|]. cbn.
    repeat split; try reflexivity; try discriminate.
  - destruct (entries feed) as [|latest rest] eqn:E.
    + cbn. eexists. split; [reflexivity|]. cbn.
      split; [reflexivity|]. split; [reflexivity|]. split; [reflexivity|].
      split; [reflexivity|]. split; [reflexivity|].
      split; [discriminate|]. intros _. split; [reflexivity|].
      exists feed. rewrite E. repeat split.
    + destruct (parse_date_run env latest (tick w)) as (d & w' & P & S & _).
      rewrite P. cbn. eexists. split; [reflexivity|]. cbn.
      split; [rewrite S; reflexivity|]. split; [reflexivity|].
      split; [reflexivity|].
      split; [reflexivity|]. split; [reflexivity|].
      split; [discriminate|]. intros _. split; [reflexivity|].
      exists feed. rewrite E. repeat split.
Qed.

(** ** The age filter of the fetch *)

Section RecentFacts.

Variable env : Env.

Lemma collect_events_fresh : forall cutoff feed_entries events w,
  aware cutoff ->
  exists added w',
    collect_events env cutoff feed_entries events w
    = (Ok (events ++ added)%list, w', [])
    /\ Forall (fun ev => datetime_ge (published ev) cutoff = Ok true) added
    /\ (List.length added <= List.length feed_entries)%nat.
Proof.
  intros cutoff feed_entries. induction feed_entries as [|entry rest IH];
    intros events w A; cbn [collect_events].
  - exists [], w. rewrite app_nil_r. repeat split; [constructor | simpl; lia].
  - destruct (parse_entry_run env entry w) as (ev & w1 & R & S & P).
    rewrite (bind_ok_nil _ _ _ _ _ _ _ R).
    destruct (datetime_ge_aware _ _ P A) as [fresh G].
    rewrite (bind_ok_nil _ _ _ _ w1 fresh w1)
      by (unfold lift; rewrite G; reflexivity).
    destruct fresh.
    + destruct (IH (events ++ [ev])%list w1 A) as (added & w2 & R2 & F & L).
      exists (ev :: added), w2. rewrite R2, <- app_assoc.
      split; [reflexivity|]. split; [constructor; assumption | simpl; lia].
    + destruct (IH events w1 A) as (added & w2 & R2 & F & L).
      exists added, w2. split; [exact R2|]. split; [exact F | simpl; lia].
Qed.

Lemma fetch_feed_parsed : forall w,
  fetch_fails (http_get env (ticks w) (rss_feed_url env)) = false ->
  exists feed,
    http_get env (ticks w) (rss_feed_url env) = Parsed feed
    /\ _fetch_feed_async env w
       = (Ok feed, tick w, [HttpGet (rss_feed_url env) (Parsed feed)]).
Proof.
  intros w H. unfold _fetch_feed_async, bind, get_world, modify, emit; simpl.
  destruct (http_get env (ticks w) (rss_feed_url env)) as [c| |m|m|feed];
    simpl in *; try discriminate.
  rewrite H. exists feed. split; reflexivity.
Qed.

Lemma fresh_recent : forall now days ev,
  datetime_ge (published ev) (sub_days (mk_datetime now (Some 0)) days)
  = Ok true ->
  recent now days ev.
Proof.
  intros now days ev H. unfold datetime_ge, sub_days in H. cbn in H.
  destruct (utcoffset (published ev)) as [o|] eqn:O; [|discriminate].
  injection H as H. apply Z.leb_le in H. exists o. split; [exact O|].
  unfold us_per_day, us_per_hour, us_per_second in *. lia.
Qed.

Lemma fetch_attempt_recent : forall attempt w,
  fetch_fails (http_get env (ticks w) (rss_feed_url env)) = false ->
  exists events w' feed,
    fetch_attempt env attempt w
    = (Ok (Some events), w', [HttpGet (rss_feed_url env) (Parsed feed)])
    /\ Forall (recent (clock env (S (S (ticks w)))) (max_message_age_days env))
              events
    /\ (List.length events <= List.length (entries feed))%nat.
Proof.
  intros attempt w H. destruct (fetch_feed_parsed w H) as (feed & _ & R).
  unfold fetch_attempt, try_except, bind at 1. rewrite R.
  cbn [bind modify now_utc clock_read ret].
  match goal with
  | |- context [bind (collect_events env ?c ?es ?acc) ?k ?w0] =>
      destruct (collect_events_fresh c es acc w0) as (evs & w' & C & F & L);
        [unfold aware; simpl; congruence
        | rewrite (bind_ok_nil _ _ _ k _ _ _ C)]
  end.
  exists evs, w', feed. split; [reflexivity|]. split; [|exact L].
  apply Forall_forall. intros ev I. rewrite Forall_forall in F.
  apply fresh_recent. exact (F ev I).
Qed.

End RecentFacts.

(** X19. [fetch_events] filters by age and by nothing else than what the
    last request brought: every event it returns carries an aware date
    that lies no more than [max_message_age_days] days before a reading of
    the clock made during the call, and there are no more events than the
    feed of the last request had entries; when that request failed there
    is none. *)
Theorem fetched_events_are_recent :
  forall env w,
    let run := fetch_events env w in
    exists events n outcome,
      result_of run = Ok events
      /\ (ticks w < n)%nat
      /\ Forall (recent (clock env n) (max_message_age_days env)) events
      /\ last (effects_of run) (Sleep 0) = HttpGet (rss_feed_url env) outcome
      /\ match outcome with
         | Parsed feed =>
             (List.length events <= List.length (entries feed))%nat
         | _ => events = []
         end.
Proof.
  intros env w run. subst run.
  unfold fetch_events, fetch_loop, bind.
  destruct (fetch_fails (http_get env (ticks w) (rss_feed_url env))) eqn:F0.
  2:{ destruct (fetch_attempt_recent env 0 w F0) as (evs & w1 & feed & R & A & L).
      rewrite R. cbn.
      exists evs, (S (S (ticks w))), (Parsed feed).
      repeat split; [lia | exact A | exact L]. }
  rewrite (fetch_attempt_fail env 0 w F0). cbv beta iota.
  destruct (fetch_fails (http_get env (ticks (tick w)) (rss_feed_url env)))
    eqn:F1.
  2:{ destruct (fetch_attempt_recent env 1 (tick w) F1)
        as (evs & w1 & feed & R & A & L).
      rewrite R. cbn.
      exists evs, (S (S (ticks (tick w)))), (Parsed feed).
      repeat split; [cbn; lia | exact A | exact L]. }
  rewrite (fetch_attempt_fail env 1 (tick w) F1). cbv beta iota.
  destruct (fetch_fails
              (http_get env (ticks (tick (tick w))) (rss_feed_url env)))
    eqn:F2.
  2:{ destruct (fetch_attempt_recent env 2 (tick (tick w)) F2)
        as (evs & w1 & feed & R & A & L).
      rewrite R. cbn.
      exists evs, (S (S (ticks (tick (tick w))))), (Parsed feed).
      repeat split; [cbn; lia | exact A | exact L]. }
  rewrite (fetch_attempt_fail env 2 (tick (tick w)) F2). cbn.
  exists [], (S (ticks w)),
    (http_get env (S (S (ticks w))) (rss_feed_url env)).
  split; [reflexivity|]. split; [lia|]. split; [constructor|].
  split; [reflexivity|].
  cbn in F2.
  destruct (http_get env (S (S (ticks w))) (rss_feed_url env)) as [| | | |feed];
    try reflexivity.
  (* a feed that fails the attempt has no entry *)
  cbn in F2. apply andb_true_iff in F2. destruct F2 as [_ F2].
  apply Nat.eqb_eq in F2. rewrite F2. cbn. lia.
Qed.

(** ** The ledger and the queue, call by call *)

Section TableFacts.

Variable env : Env.

Lemma get_sent_message_run : forall g c w,
  result_of (get_sent_message g c w)
  = Ok (option_map
          (fun r => mk_sent_info (sm_telegram_message_id r) (sm_content_hash r)
                      (sm_message_title r) (sm_delivery_status r))
          (find (sent_has_key g c) (sent_messages w))).
Proof. reflexivity. Qed.

Lemma other_key : forall g c g' c' r,
  ~ (g' = g /\ c' = c) ->
  sent_has_key g' c' r = true -> sent_has_key g c r = false.
Proof.
  intros g c g' c' r N K. unfold sent_has_key in *.
  apply key_eqb_true in K. destruct K as [<- <-].
  destruct (key_eqb (sm_message_guid r) (sm_chat_id r) g c) eqn:E;
    [|reflexivity].
  apply key_eqb_true in E. destruct E as [<- <-]. exfalso. apply N.
  split; reflexivity.
Qed.

Lemma filter_filter_other : forall A (p q : A -> bool) l,
  (forall x, p x = true -> q x = true) ->
  filter p (filter q l) = filter p l.
Proof.
  intros A p q l H. induction l as [|x l IH]; simpl; [reflexivity|].
  destruct (p x) eqn:P.
  - rewrite (H x P). simpl. rewrite P, IH. reflexivity.
  - destruct (q x); simpl; [rewrite P|]; exact IH.
Qed.

Lemma pending_of_length : forall chat rows,
  List.length (pending_of chat rows)
  = List.length (filter (fun r => pn_chat_id r =? chat) rows).
Proof.
  intros chat rows. unfold pending_of. symmetry.
  apply Permutation_length, order_by_created_at_perm.
Qed.

Lemma pending_of_In : forall chat rows r,
  In r (pending_of chat rows) <-> In r rows /\ pn_chat_id r = chat.
Proof.
  intros chat rows r. unfold pending_of. split.
  - intros I.
    apply (Permutation_in _ (Permutation_sym (order_by_created_at_perm _))) in I.
    apply filter_In in I. destruct I as [I E]. apply Z.eqb_eq in E. auto.
  - intros [I E]. apply (Permutation_in _ (order_by_created_at_perm _)).
    apply filter_In. split; [exact I | apply Z.eqb_eq, E].
Qed.

End TableFacts.

(** X20. What [mark_message_sent] writes, [get_sent_message] reads back:
    the record of the pair holds the message id, the hash, the title and
    the status that were given, whatever was recorded for the pair before,
    and the record of every other pair of guid and chat reads as before. *)
Theorem sent_record_round_trip :
  forall env g c telegram_msg_id hash title status w,
    let w' := world_of (mark_message_sent env g c telegram_msg_id hash title
                          status w) in
    result_of (get_sent_message g c w')
    = Ok (Some (mk_sent_info (Some telegram_msg_id) (Some hash) title
                  (Some status)))
    /\ forall g' c',
         ~ (g' = g /\ c' = c) ->
         result_of (get_sent_message g' c' w')
         = result_of (get_sent_message g' c' w).
Proof.
  intros env g c id hash title status w w'. subst w'.
  rewrite !get_sent_message_run. cbn [mark_message_sent].
  cbn. split.
  - rewrite find_app_none by apply find_filter_negb_self.
    cbn. unfold sent_has_key. cbn. rewrite key_eqb_refl. reflexivity.
  - intros g' c' N. f_equal. f_equal.
    rewrite <- (find_filter_other _ (sent_has_key g' c')
                  (fun r => negb (sent_has_key g c r)) (sent_messages w)).
    + destruct (find (sent_has_key g' c')
                  (filter (fun r => negb (sent_has_key g c r))
                          (sent_messages w))) as [r|] eqn:F.
      * apply (find_app_some _ _ _ _ _ F).
      * rewrite (find_app_none _ _ _ _ F). cbn.
        unfold sent_has_key at 1. cbn.
        destruct (key_eqb g c g' c') eqn:K; [|reflexivity].
        apply key_eqb_true in K. destruct K as [<- <-].
        exfalso. apply N. split; reflexivity.
    + intros x K. rewrite (other_key g c g' c' x N K). reflexivity.
Qed.

(** X21. The two updates of the ledger change a record in place and
    create none.  After [update_message_record] the record of the pair, if
    there is one, has the new hash and title and the message id and status
    it had; after [update_delivery_status] it has the new status and
    everything else as before; for a pair without a record there is still
    none, every other pair reads as before, and the ledger has as many rows
    as before. *)
Theorem ledger_updates_in_place :
  forall env g c hash title status w,
    let w1 := world_of (update_message_record env g c hash title w) in
    let w2 := world_of (update_delivery_status g c status w) in
    exists before,
      result_of (get_sent_message g c w) = Ok before
      /\ result_of (get_sent_message g c w1)
         = Ok (option_map
                 (fun i => mk_sent_info (telegram_message_id i) (Some hash)
                             title (delivery_status i))
                 before)
      /\ result_of (get_sent_message g c w2)
         = Ok (option_map
                 (fun i => mk_sent_info (telegram_message_id i)
                             (content_hash i) (message_title i) (Some status))
                 before)
      /\ (forall g' c',
            ~ (g' = g /\ c' = c) ->
            result_of (get_sent_message g' c' w1)
            = result_of (get_sent_message g' c' w)
            /\ result_of (get_sent_message g' c' w2)
               = result_of (get_sent_message g' c' w))
      /\ List.length (sent_messages w1) = List.length (sent_messages w)
      /\ List.length (sent_messages w2) = List.length (sent_messages w).
Proof.
  intros env g c hash title status w w1 w2. subst w1 w2.
  eexists. split; [apply get_sent_message_run|].
  rewrite !get_sent_message_run. cbn.
  assert (Same : forall (f : SentRow -> SentRow) g' c',
            (forall r, sm_message_guid (f r) = sm_message_guid r
                       /\ sm_chat_id (f r) = sm_chat_id r) ->
            find (sent_has_key g' c') (map f (sent_messages w))
            = option_map f (find (sent_has_key g' c') (sent_messages w))).
  { intros f g' c' H. apply find_map_same_key. intros r.
    unfold sent_has_key. destruct (H r) as [-> ->]. reflexivity. }
  split; [|split; [|split; [|split]]].
  - rewrite Same by (intros r; destruct (sent_has_key g c r); split; reflexivity).
    destruct (find (sent_has_key g c) (sent_messages w)) as [r|] eqn:F;
      [|reflexivity].
    apply find_some in F. destruct F as [_ K]. cbn. rewrite K. reflexivity.
  - rewrite Same by (intros r; destruct (sent_has_key g c r); split; reflexivity).
    destruct (find (sent_has_key g c) (sent_messages w)) as [r|] eqn:F;
      [|reflexivity].
    apply find_some in F. destruct F as [_ K]. cbn. rewrite K. reflexivity.
  - intros g' c' N.
    rewrite !Same
      by (intros r; destruct (sent_has_key g c r); split; reflexivity).
    destruct (find (sent_has_key g' c') (sent_messages w)) as [r|] eqn:F;
      [|split; reflexivity].
    apply find_some in F. destruct F as [_ K]. cbn.
    rewrite (other_key g c g' c' r N K). split; reflexivity.
  - apply length_map.
  - apply length_map.
Qed.

(** X22. The queue keeps the first notification of an event for a chat.
    After [add_pending_notification] the chat's pending notifications
    include one for the guid; when none was queued for the pair it carries
    the text and title given and the chat's queue is one longer; and adding
    again for the same pair, with whatever text, writes no row: the table
    is as it was, and only its id counter moves on by one. *)
Theorem pending_queue_keeps_first :
  forall env chat g text title text' title' w,
    let w1 := world_of (add_pending_notification env chat g text title w) in
    let w2 := world_of (add_pending_notification env chat g text' title' w1) in
    exists before after,
      result_of (get_pending_notifications chat w) = Ok before
      /\ result_of (get_pending_notifications chat w1) = Ok after
      /\ (exists row, In row after /\ pn_message_guid row = g)
      /\ ((forall row, In row before -> pn_message_guid row <> g) ->
          List.length after = S (List.length before)
          /\ exists row,
               In row after /\ pn_message_guid row = g
               /\ pn_message_text row = text /\ pn_event_title row = title)
      /\ pending_notifications w2 = pending_notifications w1
      /\ pending_notifications_seq w2 = pending_notifications_seq w1 + 1.
Proof.
  intros env chat g text title text' title' w w1 w2.
  exists (pending_of chat (pending_notifications w)),
         (pending_of chat (pending_notifications w1)).
  split; [reflexivity|]. split; [reflexivity|].
  assert (P1 : pending_notifications w1
               = if existsb (pending_has_key g chat) (pending_notifications w)
                 then pending_notifications w
                 else (pending_notifications w
                       ++ [mk_pending_row (pending_notifications_seq w + 1)
                             chat g text title
                             (clock env (ticks w) / us_per_second)])%list).
  { subst w1. cbn.
    destruct (existsb (pending_has_key g chat) (pending_notifications w));
      reflexivity. }
  assert (Has : existsb (pending_has_key g chat) (pending_notifications w1)
                = true).
  { rewrite P1.
    destruct (existsb (pending_has_key g chat) (pending_notifications w))
      eqn:E; [exact E|].
    rewrite existsb_app. cbn. unfold pending_has_key at 2. cbn.
    rewrite key_eqb_refl. apply orb_true_r. }
  split; [|split; [|split]].
  - apply existsb_exists in Has. destruct Has as (row & I & K).
    unfold pending_has_key in K. apply key_eqb_true in K.
    destruct K as [Kg Kc]. exists row. split; [|exact Kg].
    apply pending_of_In. split; assumption.
  - intros Fresh.
    assert (E : existsb (pending_has_key g chat) (pending_notifications w)
                = false).
    { destruct (existsb (pending_has_key g chat) (pending_notifications w))
        eqn:E; [|reflexivity].
      apply existsb_exists in E. destruct E as (row & I & K).
      unfold pending_has_key in K. apply key_eqb_true in K.
      destruct K as [Kg Kc]. exfalso. apply (Fresh row); [|exact Kg].
      apply pending_of_In. split; assumption. }
    rewrite E in P1. rewrite P1. split.
    + rewrite !pending_of_length, filter_app, length_app. cbn.
      rewrite Z.eqb_refl. cbn. lia.
    + eexists. split.
      * apply pending_of_In. split; [apply in_or_app; right; left; reflexivity|].
        reflexivity.
      * repeat split.
  - subst w2. cbn. cbn in Has. rewrite Has. reflexivity.
  - subst w2. cbn. cbn in Has. rewrite Has. reflexivity.
Qed.

Lemma pending_queue_keeps_first_witness :
  exists after row,
    result_of
      (get_pending_notifications 3
         (world_of (add_pending_notification Demo.env 3 "guid-9" "text" None
                      Demo.queued))) = Ok after
    /\ In row after /\ pn_message_text row = "text".
Proof.
  destruct (pending_queue_keeps_first Demo.env 3 "guid-9" "text" None
              "later text" None Demo.queued)
    as (before & after & B & A & _ & F & _).
  destruct F as (_ & row & I & _ & T & _).
  - cbn in B. injection B as <-. intros row [].
  - exists after, row. repeat split; assumption.
Defined.

(** X23. [clear_pending_notifications] answers the number of
    notifications the chat had pending; afterwards the chat has none, and
    what every other chat has pending is as before, in the same order. *)
Theorem clear_pending_reports_count :
  forall chat w,
    let out := clear_pending_notifications chat w in
    exists before,
      result_of (get_pending_notifications chat w) = Ok before
      /\ result_of out = Ok (List.length before)
      /\ result_of (get_pending_notifications chat (world_of out)) = Ok []
      /\ forall c,
           c <> chat ->
           result_of (get_pending_notifications c (world_of out))
           = result_of (get_pending_notifications c w).
Proof.
  intros chat w out. subst out.
  exists (pending_of chat (pending_notifications w)).
  split; [reflexivity|]. cbn. split; [|split].
  - rewrite pending_of_length. reflexivity.
  - unfold pending_of.
    rewrite (filter_negb_self _ (fun r => pn_chat_id r =? chat)). reflexivity.
  - intros c N. unfold pending_of. rewrite filter_filter_other; [reflexivity|].
    intros x E. apply Z.eqb_eq in E. rewrite E.
    destruct (Z.eqb_spec c chat); [contradiction | reflexivity].
Qed.

(** ** Reconciliation and flush, one after the other *)

Section PipelineFacts.

Variable env : Env.

Lemma mark_message_sent_find : forall g c id h t s w,
  find (sent_has_key g c)
       (sent_messages (world_of (mark_message_sent env g c id h t s w)))
  = Some (mk_sent_row (sent_messages_seq w + 1) g c (Some id) (Some h)
            (clock env (ticks w) / us_per_second) None t (Some s)).
Proof.
  intros g c id h t s w. cbn.
  rewrite find_app_none by apply find_filter_negb_self.
  cbn. unfold sent_has_key. cbn. rewrite key_eqb_refl. reflexivity.
Qed.

Lemma update_message_record_find : forall g c h t w row,
  find (sent_has_key g c) (sent_messages w) = Some row ->
  exists row',
    find (sent_has_key g c)
         (sent_messages (world_of (update_message_record env g c h t w)))
    = Some row'
    /\ sm_content_hash row' = Some h.
Proof.
  intros g c h t w row F. cbn.
  rewrite find_map_same_key
    by (intros r; destruct (sent_has_key g c r) eqn:K; exact K).
  rewrite F. cbn. apply find_some in F. destruct F as [_ K]. rewrite K.
  eexists. split; reflexivity.
Qed.

Lemma nothing_pending : forall chat rows g,
  pending_of chat rows = [] -> existsb (pending_has_key g chat) rows = false.
Proof.
  intros chat rows g H.
  destruct (existsb (pending_has_key g chat) rows) eqn:E; [|reflexivity].
  apply existsb_exists in E. destruct E as (r & I & K).
  unfold pending_has_key in K. apply key_eqb_true in K. destruct K as [_ Kc].
  assert (J : In r (pending_of chat rows))
    by (apply pending_of_In; split; assumption).
  rewrite H in J. contradiction.
Qed.

Lemma pending_of_first : forall chat rows r,
  pending_of chat rows = [] -> pn_chat_id r = chat ->
  pending_of chat (rows ++ [r]) = [r].
Proof.
  intros chat rows r H E. unfold pending_of in *.
  rewrite filter_app. cbn. apply Z.eqb_eq in E. rewrite E.
  assert (L : filter (fun x => pn_chat_id x =? chat) rows = []).
  { apply length_zero_iff_nil.
    rewrite (Permutation_length (order_by_created_at_perm _)), H.
    reflexivity. }
  rewrite L. reflexivity.
Qed.

End PipelineFacts.

(** X24. The queue holds at most one notification per pair of guid and
    chat: [add_pending_notification], [clear_pending_notifications] and a
    whole cycle keep it so, hence what [get_pending_notifications] hands to
    the flush names no event twice, however many cycles queued it. *)
Theorem pending_queue_is_unique :
  forall env w,
    queue_unique w ->
    (forall c g t ti,
       queue_unique (world_of (add_pending_notification env c g t ti w)))
    /\ (forall c, queue_unique (world_of (clear_pending_notifications c w)))
    /\ queue_unique (world_of (check_rss_updates env w))
    /\ (forall chat pending,
          result_of (get_pending_notifications chat w) = Ok pending ->
          NoDup (map pn_message_guid pending)).
Proof.
  intros env w U.
  split; [intros; apply queue_unique_add; exact U|].
  split; [intros; apply queue_unique_clear; exact U|].
  split; [apply queue_unique_cycle; exact U|].
  intros chat pending R. cbn in R. injection R as <-.
  unfold pending_of.
  apply (Permutation_NoDup
           (Permutation_map pn_message_guid (order_by_created_at_perm _))).
  apply unique_guids. exact U.
Qed.

Lemma pending_queue_is_unique_witness :
  queue_unique (world_of (check_rss_updates Demo.env Demo.empty)).
Proof.
  apply (pending_queue_is_unique Demo.env Demo.empty).
  intros g c. cbn. lia.
Defined.

(** X25. A notification that the flush delivers alone is recorded with the
    id of the message and the hash "pending_delivered".  The next
    reconciliation of its event for that chat, outside quiet hours and with
    any other current hash, therefore starts by editing the delivered
    message into the event's text followed by the updated marker, whether
    or not the event changed since it was queued. *)
Theorem delivered_after_quiet_is_edited_next :
  forall env chat_info p event text hash w w1 mid w3,
    let chat := chat_id chat_info in
    let w2 := world_of (_process_pending_of_chat env chat_info w) in
    let run := _send_event_to_chat env event text hash chat_info w2 in
    _is_quiet_hours env (quiet_hours_start chat_info)
      (quiet_hours_end chat_info) (quiet_hours_tz chat_info) w
    = (Ok false, w1, []) ->
    pending_of chat (pending_notifications w) = [p] ->
    tg_send env (ticks w1) chat (pn_message_text p) = inr mid ->
    mid <> 0 ->
    _is_quiet_hours env (quiet_hours_start chat_info)
      (quiet_hours_end chat_info) (quiet_hours_tz chat_info) w2
    = (Ok false, w3, []) ->
    guid event = pn_message_guid p ->
    hash <> "pending_delivered" ->
    (exists row,
       record_of (guid event) chat w2 = Some row
       /\ sm_telegram_message_id row = Some mid
       /\ sm_content_hash row = Some "pending_delivered")
    /\ exists rest,
         filter transport_call (effects_of run)
         = EditMessageText chat mid (text ++ updated_marker)
             (tg_edit env (ticks w3) chat mid (text ++ updated_marker))
           :: rest.
Proof.
  intros env ci p event text hash w w1 mid w3 chat w2 run Q1 P S NZ Q2 G H.
  pose proof (quiet_keeps_stored env _ _ _ _ _ _ Q1) as S1.
  pose proof (stored_pending _ _ S1) as Sp1.
  assert (W2 : w2 = world_of (clear_pending_notifications chat
                       (world_of (mark_message_sent env (pn_message_guid p)
                                    chat mid "pending_delivered"
                                    (pn_event_title p) "sent" (tick w1))))).
  { unfold w2. rewrite (process_not_quiet env _ _ _ Q1). fold chat.
    rewrite Sp1, P. rewrite (flush_single_sent env chat p w1 mid S).
    reflexivity. }
  assert (F2 : find (sent_has_key (guid event) chat) (sent_messages w2)
               = Some (mk_sent_row (sent_messages_seq (tick w1) + 1)
                         (pn_message_guid p) chat (Some mid)
                         (Some "pending_delivered")
                         (clock env (ticks (tick w1)) / us_per_second) None
                         (pn_event_title p) (Some "sent"))).
  { rewrite W2, G.
    rewrite <- (mark_message_sent_find env (pn_message_guid p) chat mid
                  "pending_delivered" (pn_event_title p) "sent" (tick w1)).
    reflexivity. }
  split.
  { eexists. split; [exact F2|]. split; reflexivity. }
  pose proof (quiet_keeps_stored env _ _ _ _ _ _ Q2) as S3.
  pose proof (stored_sent_messages _ _ S3) as Ss3.
  unfold run. rewrite (send_event_not_quiet env _ _ _ _ _ _ Q2). fold chat.
  rewrite Ss3, F2. cbn [option_map].
  set (row := info_of _).
  assert (Hh : content_hash row <> Some hash)
    by (unfold row; cbn; congruence).
  assert (Hm : telegram_message_id row = Some mid) by reflexivity.
  destruct (tg_edit env (ticks w3) chat mid (text ++ updated_marker))
    as [msg|] eqn:A.
  - rewrite (deliver_edit_failed env event text hash chat row mid w3 msg
               Hh Hm NZ A).
    cbn. eexists. reflexivity.
  - rewrite (deliver_edited env event text hash chat row mid w3 Hh Hm NZ A).
    cbn. eexists. reflexivity.
Qed.

Lemma delivered_after_quiet_is_edited_next_witness :
  exists rest,
    filter transport_call
      (effects_of
         (_send_event_to_chat Demo.env Demo.event "text" "hash"
            (Demo.info 1 None)
            (world_of
               (_process_pending_of_chat Demo.env (Demo.info 1 None)
                  (mk_world Demo.chats [] 0 [Demo.pending 1 1 "guid-1"] 1
                     None 0 0)))))
    = EditMessageText 1 100 ("text" ++ updated_marker) None :: rest.
Proof.
  apply (proj2 (delivered_after_quiet_is_edited_next Demo.env
                  (Demo.info 1 None) (Demo.pending 1 1 "guid-1") Demo.event
                  "text" "hash"
                  (mk_world Demo.chats [] 0 [Demo.pending 1 1 "guid-1"] 1
                     None 0 0)
                  _ 100 _ eq_refl eq_refl eq_refl
                  ltac:(discriminate) eq_refl eq_refl ltac:(discriminate))).
Defined.

(** X26. Reconciling the same event twice for a chat outside quiet hours
    notifies it once.  When the first pass finds no record and the send is
    accepted, or finds an editable record with another hash and the edit is
    accepted, the second pass calls the transport for nothing and leaves
    the ledger as the first pass left it. *)
Theorem second_reconciliation_is_silent :
  forall env chat_info event text hash w w1 w3,
    let chat := chat_id chat_info in
    let first := _send_event_to_chat env event text hash chat_info w in
    let w2 := world_of first in
    let again := _send_event_to_chat env event text hash chat_info w2 in
    _is_quiet_hours env (quiet_hours_start chat_info)
      (quiet_hours_end chat_info) (quiet_hours_tz chat_info) w
    = (Ok false, w1, []) ->
    _is_quiet_hours env (quiet_hours_start chat_info)
      (quiet_hours_end chat_info) (quiet_hours_tz chat_info) w2
    = (Ok false, w3, []) ->
    (forall id,
       record_of (guid event) chat w = None ->
       tg_send env (ticks w1) chat text = inr id ->
       filter transport_call (effects_of first)
       = [SendMessage chat text false (inr id)]
       /\ filter transport_call (effects_of again) = []
       /\ sent_messages (world_of again) = sent_messages w2)
    /\ (forall row mid,
          record_of (guid event) chat w = Some row ->
          sm_content_hash row <> Some hash ->
          sm_telegram_message_id row = Some mid -> mid <> 0 ->
          tg_edit env (ticks w1) chat mid (text ++ updated_marker) = None ->
          filter transport_call (effects_of first)
          = [EditMessageText chat mid (text ++ updated_marker) None]
          /\ filter transport_call (effects_of again) = []
          /\ sent_messages (world_of again) = sent_messages w2).
Proof.
  intros env ci event text hash w w1 w3 chat first w2 again Q1 Q2.
  pose proof (quiet_keeps_stored env _ _ _ _ _ _ Q1) as S1.
  pose proof (stored_sent_messages _ _ S1) as Ss1.
  pose proof (quiet_keeps_stored env _ _ _ _ _ _ Q2) as S3.
  pose proof (stored_sent_messages _ _ S3) as Ss3.
  assert (Again : forall row',
            find (sent_has_key (guid event) chat) (sent_messages w2)
            = Some row' ->
            sm_content_hash row' = Some hash ->
            filter transport_call (effects_of again) = []
            /\ sent_messages (world_of again) = sent_messages w2).
  { intros row' F Hh. unfold again.
    rewrite (send_event_not_quiet env _ _ _ _ _ _ Q2). fold chat.
    rewrite Ss3, F. cbn [option_map].
    rewrite deliver_same_hash by exact Hh. cbn. split; [reflexivity|exact Ss3]. }
  unfold record_of. split.
  - intros id N S.
    assert (First : first
                    = (Ok tt,
                       world_of (mark_message_sent env (guid event) chat id
                                   hash (Some (title event)) "sent" (tick w1)),
                       [DbGetSentMessage (guid event) chat;
                        SendMessage chat text false (inr id);
                        DbMarkMessageSent (guid event) chat id hash;
                        Sleep 100])).
    { unfold first. rewrite (send_event_not_quiet env _ _ _ _ _ _ Q1).
      fold chat. rewrite Ss1, N. cbn [option_map].
      rewrite deliver_none, (send_message_sent env _ _ _ _ _ _ S).
      reflexivity. }
    split; [rewrite First; reflexivity|].
    eapply Again.
    + unfold w2. rewrite First. cbn [world_of fst snd].
      apply mark_message_sent_find.
    + reflexivity.
  - intros row mid F Hh Hm NZ A.
    assert (First : first
                    = (Ok tt,
                       world_of (update_message_record env (guid event) chat
                                   hash (Some (title event)) (tick w1)),
                       [DbGetSentMessage (guid event) chat;
                        EditMessageText chat mid (text ++ updated_marker) None;
                        DbUpdateMessageRecord (guid event) chat hash;
                        Sleep 100])).
    { unfold first. rewrite (send_event_not_quiet env _ _ _ _ _ _ Q1).
      fold chat. rewrite Ss1, F. cbn [option_map].
      rewrite (deliver_edited env event text hash chat (info_of row) mid w1)
        by assumption.
      reflexivity. }
    split; [rewrite First; reflexivity|].
    destruct (update_message_record_find env (guid event) chat hash
                (Some (title event)) (tick w1) row)
      as (row' & F' & H').
    { cbn. rewrite Ss1. exact F. }
    eapply Again; [|exact H'].
    unfold w2. rewrite First. cbn [world_of fst snd]. exact F'.
Qed.

Lemma second_reconciliation_is_silent_witness :
  filter transport_call
    (effects_of
       (_send_event_to_chat Demo.env Demo.event "text" "hash"
          (Demo.info 1 None)
          (world_of
             (_send_event_to_chat Demo.env Demo.event "text" "hash"
                (Demo.info 1 None) Demo.empty))))
  = [].
Proof.
  apply (proj1 (second_reconciliation_is_silent Demo.env (Demo.info 1 None)
                  Demo.event "text" "hash" Demo.empty _ _ eq_refl eq_refl)
           100 eq_refl eq_refl).
Defined.

(** X27. In quiet hours the ledger is not asked.  Reconciling an event for
    a chat that is in its quiet hours and has nothing queued only queues
    the event, with the text and title of that moment, whether or not the
    ledger already records the event for the chat; the ledger stays as it
    is.  If the chat is out of quiet hours right after, and the send is
    accepted, the flush sends exactly that text as one message. *)
Theorem quiet_deferral_skips_ledger :
  forall env chat_info event text hash w w1,
    let chat := chat_id chat_info in
    let run := _send_event_to_chat env event text hash chat_info w in
    let w2 := world_of run in
    _is_quiet_hours env (quiet_hours_start chat_info)
      (quiet_hours_end chat_info) (quiet_hours_tz chat_info) w
    = (Ok true, w1, []) ->
    pending_of chat (pending_notifications w) = [] ->
    effects_of run = [DbAddPendingNotification chat (guid event)]
    /\ sent_messages w2 = sent_messages w
    /\ (exists row,
          pending_of chat (pending_notifications w2) = [row]
          /\ pn_message_guid row = guid event
          /\ pn_message_text row = text
          /\ pn_event_title row = Some (title event))
    /\ forall w3 id,
         _is_quiet_hours env (quiet_hours_start chat_info)
           (quiet_hours_end chat_info) (quiet_hours_tz chat_info) w2
         = (Ok false, w3, []) ->
         tg_send env (ticks w3) chat text = inr id ->
         filter is_send
           (effects_of (_process_pending_of_chat env chat_info w2))
         = [SendMessage chat text false (inr id)].
Proof.
  intros env ci event text hash w w1 chat run w2 Q1 P.
  pose proof (quiet_keeps_stored env _ _ _ _ _ _ Q1) as S1.
  pose proof (stored_pending _ _ S1) as Sp1.
  pose proof (stored_sent_messages _ _ S1) as Ss1.
  assert (Run : run
                = (Ok tt,
                   world_of (add_pending_notification env chat (guid event)
                               text (Some (title event)) w1),
                   [DbAddPendingNotification chat (guid event)]))
    by (unfold run; apply (send_event_quiet env _ _ _ _ _ _ Q1)).
  assert (P2 : pending_notifications w2
               = (pending_notifications w
                  ++ [mk_pending_row (pending_notifications_seq w1 + 1) chat
                        (guid event) text (Some (title event))
                        (clock env (ticks w1) / us_per_second)])%list).
  { unfold w2. rewrite Run. cbn. rewrite Sp1.
    rewrite (nothing_pending chat _ (guid event) P). cbn. rewrite ?Sp1.
    reflexivity. }
  split; [rewrite Run; reflexivity|].
  split.
  { unfold w2. rewrite Run. cbn.
    destruct (existsb _ (pending_notifications w1)); cbn; exact Ss1. }
  assert (P2' : pending_of chat (pending_notifications w2)
                = [mk_pending_row (pending_notifications_seq w1 + 1) chat
                     (guid event) text (Some (title event))
                     (clock env (ticks w1) / us_per_second)])
    by (rewrite P2; apply pending_of_first; [exact P | reflexivity]).
  split.
  { eexists. split; [exact P2'|]. repeat split. }
  intros w3 id Q2 S.
  pose proof (quiet_keeps_stored env _ _ _ _ _ _ Q2) as S3.
  pose proof (stored_pending _ _ S3) as Sp3.
  rewrite (process_not_quiet env _ _ _ Q2). fold chat.
  rewrite Sp3, P2'.
  rewrite (flush_single_sent env chat _ w3 id) by exact S.
  reflexivity.
Qed.

Lemma quiet_deferral_skips_ledger_witness :
  effects_of
    (_send_event_to_chat Demo.env Demo.event "text" "hash"
       (Demo.info 3 (Some ("07:00", "22:00"))) Demo.delivered)
  = [DbAddPendingNotification 3 "guid-1"].
Proof.
  apply (quiet_deferral_skips_ledger Demo.env
           (Demo.info 3 (Some ("07:00", "22:00"))) Demo.event "text" "hash"
           Demo.delivered _ eq_refl eq_refl).
Defined.

(** ** The format of the bot token *)

Section TokenFacts.

Import Settings.

Lemma first_colon : forall s,
  colon_free s
  \/ exists a s', s = a ++ ":" ++ s' /\ colon_free a.
Proof.
  unfold colon_free. induction s as [|c s IH].
  - left. reflexivity.
  - destruct (Ascii.eqb ":" c) eqn:E.
    + right. apply Ascii.eqb_eq in E. subst c. exists "", s.
      split; reflexivity.
    + destruct IH as [F|(a & s' & -> & F)].
      * left. cbn [has_char]. rewrite E, F. reflexivity.
      * right. exists (String c a), s'. split; [reflexivity|].
        cbn [has_char]. rewrite E, F. reflexivity.
Qed.

Lemma split_colon_nonempty : forall s, split ":" s <> [].
Proof.
  intros s. destruct (first_colon s) as [F|(a & s' & -> & F)].
  - rewrite (split_colon_last _ F). discriminate.
  - rewrite (split_colon_cons _ _ F). discriminate.
Qed.

Lemma split_colon_two : forall v a b,
  split ":" v = [a; b]
  <-> v = a ++ ":" ++ b /\ colon_free a /\ colon_free b.
Proof.
  intros v a b. split.
  - intros H. destruct (first_colon v) as [F|(a0 & s' & -> & F)].
    + rewrite (split_colon_last _ F) in H. discriminate.
    + rewrite (split_colon_cons _ _ F) in H. injection H as -> H.
      destruct (first_colon s') as [F'|(a1 & s'' & -> & F')].
      * rewrite (split_colon_last _ F') in H. injection H as ->. auto.
      * rewrite (split_colon_cons _ _ F') in H. injection H as _ H.
        exfalso. exact (split_colon_nonempty _ H).
  - intros (-> & Fa & Fb).
    rewrite (split_colon_cons _ _ Fa), (split_colon_last _ Fb). reflexivity.
Qed.

Lemma digits_colon_free : forall s, all_digits s = true -> colon_free s.
Proof.
  unfold colon_free.
  induction s as [|c s IH]; cbn [has_char all_digits]; [reflexivity|].
  destruct (digit_of c) as [d|] eqn:D; [|discriminate].
  intros H. rewrite (IH H), orb_false_r.
  destruct (Ascii.eqb ":" c) eqn:E; [|reflexivity].
  apply Ascii.eqb_eq in E. subst c. discriminate.
Qed.

End TokenFacts.

(** X28. For a token of ASCII characters, [validate_token] accepts exactly
    the texts made of a non-empty run of digits, one colon and a rest
    without colon; it returns an accepted token unchanged and raises a
    ValueError, nothing else, on every other text. *)
Theorem token_format :
  forall v,
    ascii_text v = true ->
    (forall v', Settings.validate_token v = Ok v' -> v' = v)
    /\ ((exists v', Settings.validate_token v = Ok v')
        <-> exists id rest,
              v = id ++ ":" ++ rest
              /\ PyText.isdigit id = true /\ colon_free rest)
    /\ (forall e,
          Settings.validate_token v = Raise e -> exists msg, e = ValueError msg).
Proof.
  intros v _. unfold Settings.validate_token.
  destruct (negb (truthy_str (Some v))) eqn:T.
  { split; [intros; discriminate|]. split.
    - split; [intros [v' H]; discriminate|].
      intros (id & rest & -> & D & _). destruct id; discriminate.
    - intros e H. injection H as <-. eexists. reflexivity. }
  destruct (split ":" v) as [|a [|b [|c rest]]] eqn:Sp; cbn [List.length Nat.eqb negb].
  - exfalso. exact (split_colon_nonempty _ Sp).
  - split; [intros; discriminate|]. split.
    + split; [intros [v' H]; discriminate|].
      intros (id & rest & E & D & F).
      assert (Two : split ":" v = [id; rest]).
      { apply split_colon_two. split; [exact E|]. split; [|exact F].
        apply digits_colon_free. destruct id; [discriminate | exact D]. }
      congruence.
    + intros e H. injection H as <-. eexists. reflexivity.
  - cbn [nth]. apply split_colon_two in Sp. destruct Sp as (E & Fa & Fb).
    destruct (PyText.isdigit a) eqn:D; cbn [negb].
    + split; [intros v' H; injection H as <-; reflexivity|]. split.
      * split; [|intros _; eexists; reflexivity].
        intros _. exists a, b. auto.
      * intros e H. discriminate.
    + split; [intros; discriminate|]. split.
      * split; [intros [v' H]; discriminate|].
        intros (id & rest & E' & D' & F').
        assert (Two : split ":" v = [id; rest]).
        { apply split_colon_two. split; [exact E'|]. split; [|exact F'].
          apply digits_colon_free. destruct id; [discriminate | exact D']. }
        assert (Two' : split ":" v = [a; b])
          by (apply split_colon_two; auto).
        rewrite Two in Two'. injection Two' as -> _. congruence.
      * intros e H. injection H as <-. eexists. reflexivity.
  - split; [intros; discriminate|]. split.
    + split; [intros [v' H]; discriminate|].
      intros (id & rest' & E & D & F).
      assert (Two : split ":" v = [id; rest']).
      { apply split_colon_two. split; [exact E|]. split; [|exact F].
        apply digits_colon_free. destruct id; [discriminate | exact D]. }
      congruence.
    + intros e H. injection H as <-. eexists. reflexivity.
Qed.

Lemma token_format_witness :
  exists id rest,
    "123456:ABC-def" = id ++ ":" ++ rest
    /\ PyText.isdigit id = true /\ colon_free rest.
Proof.
  apply (proj1 (proj1 (proj2 (token_format "123456:ABC-def" eq_refl)))).
  eexists. reflexivity.
Defined.

(** ** What counts as a change *)

(** X29. Only the title, the description and the type of an event count
    as its content.  When a chat outside quiet hours has the event recorded
    with its current hash, a later version of the event that differs in
    link, date, location or resolved flag alone is neither sent nor edited
    nor queued: [_send_event_to_chats] calls the transport for nothing and
    leaves the tables as they are. *)
Theorem other_fields_are_not_content :
  forall env event event' chat_info row w w1,
    let chat := chat_id chat_info in
    let run := _send_event_to_chats env event' [chat_info] w in
    guid event' = guid event ->
    title event' = title event ->
    description event' = description event ->
    event_type event' = event_type event ->
    _is_quiet_hours env (quiet_hours_start chat_info)
      (quiet_hours_end chat_info) (quiet_hours_tz chat_info) w
    = (Ok false, w1, []) ->
    record_of (guid event) chat w = Some row ->
    sm_content_hash row = Some (get_content_hash env event) ->
    result_of run = Ok tt
    /\ filter transport_call (effects_of run) = []
    /\ tables (world_of run) = tables w.
Proof.
  intros env event event' ci row w w1 chat run G T D Ty Q F H.
  assert (Hash : get_content_hash env event' = get_content_hash env event)
    by (unfold get_content_hash; rewrite T, D, Ty; reflexivity).
  pose proof (quiet_keeps_stored env _ _ _ _ _ _ Q) as S1.
  pose proof (stored_sent_messages _ _ S1) as Ss1.
  unfold record_of in F.
  assert (Run : run = (Ok tt, w1, [DbGetSentMessage (guid event) chat])).
  { unfold run, _send_event_to_chats. cbn [for_each]. unfold bind at 1.
    rewrite (send_event_not_quiet env _ _ _ _ _ _ Q). fold chat.
    rewrite G, Ss1, F. cbn [option_map].
    rewrite deliver_same_hash by (rewrite Hash; exact H).
    reflexivity. }
  rewrite Run. cbn. repeat split. apply stored_tables. exact S1.
Qed.

Lemma other_fields_are_not_content_witness :
  filter transport_call
    (effects_of
       (_send_event_to_chats Demo.env
          (mk_status_event "guid-1" (title Demo.event)
             (description Demo.event) "https://status.ix.br/moved"
             (mk_datetime 0 (Some 0)) MAINTENANCE None false)
          [Demo.info 1 None] Demo.delivered))
  = [].
Proof.
  apply (other_fields_are_not_content Demo.env Demo.event
           (mk_status_event "guid-1" (title Demo.event)
              (description Demo.event) "https://status.ix.br/moved"
              (mk_datetime 0 (Some 0)) MAINTENANCE None false)
           (Demo.info 1 None) _ Demo.delivered _
           eq_refl eq_refl eq_refl eq_refl eq_refl eq_refl eq_refl).
Defined.
